(** * crm-bot operator console: lead filtering, facets, grouping and send handlers

    A shallow embedding of the TypeScript sources

    - [frontend/src/lib/leads.ts]: [toNumber], [extractLabel],
      [deriveFilterOptions], [applyLeadFilters], [groupByDateAdded],
      [groupByLastOutreach];
    - [frontend/src/lib/dates.ts]: [ensureDate], [formatDayHeader],
      [formatFullDateTime], [formatMessageTimestamp];
    - the dashboard page: [handleBulkSend], [handleSingleSend],
      [toggleSelect] and the effect that prunes the selection;
    - the conversation panel: [handleSend];
    - [frontend/src/lib/api.ts]: [request];
    - the chats page: [getActivityValue] and the order of the leads;
    - [frontend/middleware.ts]: [isJwtExpired], [middleware].

    JavaScript values are modelled as the language has them: numbers are
    IEEE binary64 ([PrimFloat.float]), strings are sequences of UTF-16 code
    units, [Set] and [Map] are insertion-ordered, a [Date] is its time value
    (an integer number of milliseconds, or NaN for an Invalid Date), and an
    exception is an explicit [Throw] result. Built-ins of the language, the
    engine's [Array.prototype.sort] and the functions of date-fns are
    parameters ([Host], [Engine], [DateFns]); a reference instance of each
    is given for running the definitions. *)

From Stdlib Require Import List ZArith NArith Bool String Ascii Floats Lia.
From Stdlib Require Import Permutation Sorted DecimalString DecimalNat.
Import ListNotations.

Set Implicit Arguments.
Set Warnings "-register-all".

(* ===================================================================== *)
(** * JavaScript strings                                                  *)
(* ===================================================================== *)

Module JsString.

(** A string is a sequence of 16-bit code units. *)
Definition codeUnit := N.
Definition jsstring := list codeUnit.

(** ASCII literals of the source text. *)
Definition lit (s : string) : jsstring :=
  map N_of_ascii (list_ascii_of_string s).

Definition eqb (a b : jsstring) : bool :=
  if list_eq_dec N.eq_dec a b then true else false.

(** ToBoolean of a string: only the empty string is falsy. *)
Definition truthy (s : jsstring) : bool :=
  match s with [] => false | _ :: _ => true end.

(** WhiteSpace and LineTerminator code points of ECMAScript, the characters
    [String.prototype.trim] strips. *)
Definition isWhiteSpace (c : codeUnit) : bool :=
  ((9 <=? c) && (c <=? 13) || (c =? 32) || (c =? 160) || (c =? 5760)
   || (8192 <=? c) && (c <=? 8202) || (c =? 8232) || (c =? 8233)
   || (c =? 8239) || (c =? 8287) || (c =? 12288) || (c =? 65279))%N.

Fixpoint trimStart (s : jsstring) : jsstring :=
  match s with
  | [] => []
  | c :: s' => if isWhiteSpace c then trimStart s' else s
  end.

Definition trimEnd (s : jsstring) : jsstring := rev (trimStart (rev s)).

Definition trim (s : jsstring) : jsstring := trimEnd (trimStart s).

(** Decimal rendering of a natural number (a count in a template literal). *)
Definition ofNat (n : nat) : jsstring :=
  lit (NilEmpty.string_of_uint (Nat.to_uint n)).

End JsString.


(* ===================================================================== *)
(** * JavaScript numbers                                                  *)
(* ===================================================================== *)

Module JsNumber.

Definition number := float.

(** Numeric literals of the source, read from their integer value. *)
Definition ofZ (z : Z) : number :=
  match z with
  | Z0 => PrimFloat.zero
  | Zpos p => PrimFloat.of_uint63 (Uint63.of_Z (Zpos p))
  | Zneg p => PrimFloat.opp (PrimFloat.of_uint63 (Uint63.of_Z (Zpos p)))
  end.

Definition isNaN (x : number) : bool := PrimFloat.is_nan x.

(** [Number.isFinite]. *)
Definition isFinite (x : number) : bool := PrimFloat.is_finite x.

(** Strict equality [===] on two numbers (IEEE: NaN differs from itself,
    +0 equals -0). *)
Definition strictEq (x y : number) : bool := (x =? y)%float.

(** SameValueZero, the equality of [Array.prototype.includes], [Set] and
    [Map]: as [===] except that NaN equals NaN. *)
Definition sameValueZero (x y : number) : bool :=
  (x =? y)%float || (isNaN x && isNaN y).

Definition lt (x y : number) : bool := (x <? y)%float.
Definition gt (x y : number) : bool := (y <? x)%float.
Definition le (x y : number) : bool := (x <=? y)%float.
Definition ge (x y : number) : bool := (y <=? x)%float.

(** ToBoolean of a number: 0, -0 and NaN are falsy. *)
Definition truthy (x : number) : bool :=
  negb ((x =? 0)%float || isNaN x).

End JsNumber.

Abbreviation jsstring := JsString.jsstring.
Abbreviation number := JsNumber.number.
Abbreviation lit := JsString.lit.

(* ===================================================================== *)
(** * Results of calls that may throw                                     *)
(* ===================================================================== *)

(** What a [catch] receives: an instance of [Error] (with its [message]) or
    any other thrown value. *)
Inductive JsError : Type :=
| ErrorObject (name message : jsstring)
| ThrownValue.

Inductive Result (A : Type) : Type :=
| Ok (a : A)
| Throw (e : JsError).

Arguments Ok {A} a.
Arguments Throw {A} e.

(** A promise that settles with [r] resolves, or rejects. *)
Definition resolved {A : Type} (r : Result A) : bool :=
  match r with
  | Ok _ => true
  | Throw _ => false
  end.

(* ===================================================================== *)
(** * Time values                                                         *)
(* ===================================================================== *)

(** The time value of a [Date]: milliseconds since the epoch, or NaN
    ([None]) for an Invalid Date. *)
Definition TimeValue := option Z.

(** [a < b] and [a > b] on two dates compare the time values; a comparison
    with NaN is false. *)
Definition time_lt (a b : TimeValue) : bool :=
  match a, b with
  | Some x, Some y => (x <? y)%Z
  | _, _ => false
  end.

Definition time_gt (a b : TimeValue) : bool := time_lt b a.

(* ===================================================================== *)
(** * The host: built-ins of the language and of date-fns                 *)
(* ===================================================================== *)

(** Built-ins of ECMAScript that the sources call and that are not code of
    the repository. *)
Class Host : Type := {
  (** [Number(s)] on a string [s] (StringToNumber). *)
  StringToNumber : jsstring -> number;
  (** [String(n)] on a number, as a template literal renders it. *)
  NumberToString : number -> jsstring;
  (** [a.localeCompare(b)]: negative, zero or positive. *)
  localeCompare : jsstring -> jsstring -> Z;
  (** [s.toLowerCase()]. *)
  toLowerCase : jsstring -> jsstring;
  (** [new Date(s).getTime()]. *)
  DateParse : jsstring -> TimeValue;
}.

(** The functions of date-fns the sources import, on valid dates, and the
    module constant [TODAY = new Date()]. *)
Class DateFns : Type := {
  (** [parseISO(s).getTime()]; an unparseable string gives an Invalid Date. *)
  parseISO : jsstring -> TimeValue;
  TODAY : Z;
  differenceInCalendarDays : Z -> Z -> Z;
  isSameYear : Z -> Z -> bool;
  format : Z -> jsstring -> jsstring;
}.

(* ===================================================================== *)
(** * JSON values and their coercions                                     *)
(* ===================================================================== *)

(** The values a [Record<string, unknown>] parsed from JSON can hold;
    [JUndefined] is what reading an absent key gives. *)
Inductive JsValue : Type :=
| JUndefined
| JNull
| JBool (b : bool)
| JNumber (n : number)
| JString (s : jsstring)
| JArray (items : list JsValue)
| JObject (fields : list (jsstring * JsValue)).

Definition Raw := list (jsstring * JsValue).

(** [raw[field]]. *)
Fixpoint getField (raw : Raw) (field : jsstring) : JsValue :=
  match raw with
  | [] => JUndefined
  | (k, v) :: raw' => if JsString.eqb k field then v else getField raw' field
  end.

Fixpoint joinWith (sep : jsstring) (parts : list jsstring) : jsstring :=
  match parts with
  | [] => []
  | [p] => p
  | p :: ps => p ++ sep ++ joinWith sep ps
  end.

Section Coercions.
Context {host : Host}.

(** ToString: an array joins its elements with a comma (null and undefined
    elements as the empty string), a plain object is "[object Object]". *)
Fixpoint ToString (v : JsValue) : jsstring :=
  match v with
  | JUndefined => lit "undefined"
  | JNull => lit "null"
  | JBool true => lit "true"
  | JBool false => lit "false"
  | JNumber n => NumberToString n
  | JString s => s
  | JArray items =>
      joinWith (lit ",")
        (map (fun x => match x with
                       | JUndefined | JNull => []
                       | _ => ToString x
                       end) items)
  | JObject _ => lit "[object Object]"
  end.

(** [Number(value)]. *)
Definition ToNumber (v : JsValue) : number :=
  match v with
  | JUndefined => PrimFloat.nan
  | JNull => PrimFloat.zero
  | JBool true => PrimFloat.one
  | JBool false => PrimFloat.zero
  | JNumber n => n
  | JString s => StringToNumber s
  | JArray _ | JObject _ => StringToNumber (ToString v)
  end.

(** [Boolean(value)]. *)
Definition ToBoolean (v : JsValue) : bool :=
  match v with
  | JUndefined | JNull => false
  | JBool b => b
  | JNumber n => JsNumber.truthy n
  | JString s => JsString.truthy s
  | JArray _ | JObject _ => true
  end.

(** leads.ts, [toNumber]: [undefined] is [None]. *)
Definition toNumber (value : JsValue) : option number :=
  match value with
  | JNull | JUndefined | JString [] => None
  | _ =>
      let numberValue := ToNumber value in
      if JsNumber.isFinite numberValue then Some numberValue else None
  end.

End Coercions.

(** [!x] on a [number | undefined]. *)
Definition falsyNumber (x : option number) : bool :=
  match x with
  | None => true
  | Some n => negb (JsNumber.truthy n)
  end.

(** [array.includes(x)]. *)
Definition includes (xs : list number) (x : number) : bool :=
  existsb (JsNumber.sameValueZero x) xs.

(* ===================================================================== *)
(** * Leads and filters (types/leads.ts, leads.ts)                        *)
(* ===================================================================== *)

(** A lead, with the fields the functions below read. [crm_raw] may be
    missing at run time: the sources read it as [lead.crm_raw ?? {}]. *)
Record Lead : Type := {
  property_id : jsstring;
  date_added : jsstring;
  crm_raw : option Raw;
}.

Definition rawOf (lead : Lead) : Raw :=
  match crm_raw lead with
  | Some raw => raw
  | None => []
  end.

Record Transaction : Type := { sale : bool; rent : bool }.

Inductive RoomsFilter : Type :=
| RoomsAll | Rooms1 | Rooms2 | Rooms3 | Rooms4 | Rooms5Plus.

Record LeadFilters : Type := {
  propertyTypes : list number;
  regionId : option number;
  zoneId : option number;
  transaction : Transaction;
  rooms : RoomsFilter;
  minBudget : option number;
  maxBudget : option number;
  dateFrom : option jsstring;
  dateTo : option jsstring;
}.

Definition DEFAULT_LEAD_FILTERS : LeadFilters := {|
  propertyTypes := [];
  regionId := None;
  zoneId := None;
  transaction := {| sale := false; rent := false |};
  rooms := RoomsAll;
  minBudget := None;
  maxBudget := None;
  dateFrom := None;
  dateTo := None;
|}.

(** [Number(filters.rooms)] for the four numeric choices. *)
Definition roomsNumber (r : RoomsFilter) : number :=
  match r with
  | Rooms1 => JsNumber.ofZ 1
  | Rooms2 => JsNumber.ofZ 2
  | Rooms3 => JsNumber.ofZ 3
  | Rooms4 => JsNumber.ofZ 4
  | RoomsAll | Rooms5Plus => PrimFloat.nan
  end.

(** Truthiness of an optional string ([filters.dateFrom]). *)
Definition truthyOpt (s : option jsstring) : bool :=
  match s with
  | Some s => JsString.truthy s
  | None => false
  end.

(* ===================================================================== *)
(** * The filter predicate (leads.ts, [applyLeadFilters])                 *)
(* ===================================================================== *)

Section FilterPredicate.
Context {host : Host}.
Variable filters : LeadFilters.

Definition saleSelected : bool := sale (transaction filters).
Definition rentSelected : bool := rent (transaction filters).

(** Each clause below is one block of the callback given to [leads.filter];
    it is [true] exactly when that block executes [return false]. *)

(** Property type. *)
Definition propertyTypeRejects (raw : Raw) : bool :=
  if (0 <? List.length (propertyTypes filters))%nat then
    let propType := toNumber (getField raw (lit "property_type")) in
    match propType with
    | None => true
    | Some p =>
        negb (JsNumber.truthy p) || negb (includes (propertyTypes filters) p)
    end
  else false.

(** Region. *)
Definition regionRejects (raw : Raw) : bool :=
  match regionId filters with
  | Some wanted =>
      let regionId := toNumber (getField raw (lit "region_obj_id")) in
      match regionId with
      | None => true
      | Some r => negb (JsNumber.truthy r) || negb (JsNumber.strictEq r wanted)
      end
  | None => false
  end.

(** Zone. *)
Definition zoneRejects (raw : Raw) : bool :=
  match zoneId filters with
  | Some wanted =>
      let zoneId := toNumber (getField raw (lit "zone_id")) in
      match zoneId with
      | None => true
      | Some z => negb (JsNumber.truthy z) || negb (JsNumber.strictEq z wanted)
      end
  | None => false
  end.

(** Transaction type. *)
Definition transactionRejects (raw : Raw) : bool :=
  if saleSelected || rentSelected then
    let isSale := ToBoolean (getField raw (lit "for_sale")) in
    let isRent := ToBoolean (getField raw (lit "for_rent")) in
    if saleSelected && negb rentSelected && negb isSale then true
    else if negb saleSelected && rentSelected && negb isRent then true
    else if saleSelected && rentSelected && negb isSale && negb isRent then true
    else false
  else false.

(** Rooms. *)
Definition roomsRejects (raw : Raw) : bool :=
  match rooms filters with
  | RoomsAll => false
  | choice =>
      match toNumber (getField raw (lit "rooms")) with
      | None => true
      | Some rooms =>
          match choice with
          | Rooms5Plus => JsNumber.lt rooms (JsNumber.ofZ 5)
          | _ => negb (JsNumber.strictEq rooms (roomsNumber choice))
          end
      end
  end.

(** Budget: the inner function [withinRange]. *)
Definition withinRange (price : option number) : bool :=
  match price with
  | None => false
  | Some price =>
      if match minBudget filters with
         | Some lo => JsNumber.lt price lo
         | None => false
         end
      then false
      else if match maxBudget filters with
              | Some hi => JsNumber.gt price hi
              | None => false
              end
      then false
      else true
  end.

Definition hasBudget : bool :=
  match minBudget filters, maxBudget filters with
  | None, None => false
  | _, _ => true
  end.

Definition matchesBudget (raw : Raw) : bool :=
  let priceSale := toNumber (getField raw (lit "price_sale")) in
  let priceRent := toNumber (getField raw (lit "price_rent")) in
  if saleSelected && negb rentSelected then withinRange priceSale
  else if negb saleSelected && rentSelected then withinRange priceRent
  else if saleSelected && rentSelected then
    withinRange priceSale || withinRange priceRent
  else
    withinRange priceSale || withinRange priceRent.

Definition budgetRejects (raw : Raw) : bool :=
  if hasBudget then negb (matchesBudget raw) else false.

(** Date range. *)
Definition dateRejects (lead : Lead) : bool :=
  if truthyOpt (dateFrom filters) || truthyOpt (dateTo filters) then
    let addedDate := DateParse (date_added lead) in
    match addedDate with
    | None => true
    | Some _ =>
        if match dateFrom filters with
           | Some from =>
               JsString.truthy from
               && time_lt addedDate (DateParse (from ++ lit "T00:00:00"))
           | None => false
           end
        then true
        else
          match dateTo filters with
          | Some to =>
              JsString.truthy to
              && time_gt addedDate (DateParse (to ++ lit "T23:59:59"))
          | None => false
          end
    end
  else false.

(** The callback: the first block that rejects returns [false]. *)
Definition leadPasses (lead : Lead) : bool :=
  let raw := rawOf lead in
  if propertyTypeRejects raw then false
  else if regionRejects raw then false
  else if zoneRejects raw then false
  else if transactionRejects raw then false
  else if roomsRejects raw then false
  else if budgetRejects raw then false
  else if dateRejects lead then false
  else true.

End FilterPredicate.

Definition applyLeadFilters {host : Host}
  (leads : list Lead) (filters : LeadFilters) : list Lead :=
  match leads with
  | [] => leads
  | _ => filter (leadPasses filters) leads
  end.

(* ===================================================================== *)
(** * [Array.prototype.sort], [Set] and [Map]                             *)
(* ===================================================================== *)

(** What a comparator returns: a number, [None] standing for NaN. The sort
    reads NaN as +0. *)
Definition CompareResult := option Z.

Definition positive_result (v : CompareResult) : bool :=
  match v with
  | Some z => (0 <? z)%Z
  | None => false
  end.

Definition negative_result (v : CompareResult) : bool :=
  match v with
  | Some z => (z <? 0)%Z
  | None => false
  end.

Section Comparators.
Variable A : Type.
Variable comparefn : A -> A -> CompareResult.

(** The three relations the standard reads off a comparator: [a <CF b],
    [a >CF b] and [a =CF b]. *)
Definition before (a b : A) : bool := negative_result (comparefn a b).
Definition after (a b : A) : bool := positive_result (comparefn a b).
Definition tied (a b : A) : bool := negb (before a b) && negb (after a b).

(** [x] may stand before [y] in a sorted array: the comparator does not ask
    for the opposite order. *)
Definition notAfter (x y : A) : Prop :=
  positive_result (comparefn x y) = false.

(** A consistent comparator for the values of [l], as the standard defines
    it for [Array.prototype.sort]: [=CF] is reflexive, symmetric and
    transitive, and [<CF] and [>CF] are transitive. *)
Definition Consistent (l : list A) : Prop :=
  (forall a, In a l -> tied a a = true)
  /\ (forall a b, In a l -> In b l -> tied a b = true -> tied b a = true)
  /\ (forall a b c, In a l -> In b l -> In c l ->
        tied a b = true -> tied b c = true -> tied a c = true)
  /\ (forall a b c, In a l -> In b l -> In c l ->
        before a b = true -> before b c = true -> before a c = true)
  /\ (forall a b c, In a l -> In b l -> In c l ->
        after a b = true -> after b c = true -> after a c = true).

(** A stable insertion sort: [x] is placed before the first element it
    does not have to follow. It is the sort of the reference engine. *)
Fixpoint insertSorted (x : A) (l : list A) : list A :=
  match l with
  | [] => [x]
  | y :: l' =>
      if positive_result (comparefn x y) then y :: insertSorted x l'
      else x :: l
  end.

Definition stableSort (l : list A) : list A := fold_right insertSorted [] l.

End Comparators.

(** [Array.prototype.sort] of an engine that conforms to the standard
    (ECMAScript 2019 and later), on arrays without holes or [undefined].
    Whatever the comparator, the result is a rearrangement of the array.
    When the comparator is consistent for the elements, the result is in
    the order the comparator asks for, and elements it ties keep their
    relative order (the sort is stable). When it is not consistent, as when
    it yields NaN for some pairs only, the order is left to the engine.
    The sort reads its elements through the comparator alone. *)
Class Engine : Type := {
  sort : forall A : Type, (A -> A -> CompareResult) -> list A -> list A;
  sort_permutation :
    forall (A : Type) (comparefn : A -> A -> CompareResult) (l : list A),
      Permutation (sort comparefn l) l;
  sort_consistent :
    forall (A : Type) (comparefn : A -> A -> CompareResult) (l : list A),
      Consistent comparefn l ->
      StronglySorted (notAfter comparefn) (sort comparefn l)
      /\ forall x, In x l ->
           filter (tied comparefn x) (sort comparefn l)
           = filter (tied comparefn x) l;
  sort_natural :
    forall (A B : Type) (f : A -> B)
      (cmpA : A -> A -> CompareResult) (cmpB : B -> B -> CompareResult)
      (l : list A),
      (forall x y, In x l -> In y l -> cmpB (f x) (f y) = cmpA x y) ->
      sort cmpB (List.map f l) = List.map f (sort cmpA l);
}.

Arguments sort {Engine A} comparefn l.

(** [Set.prototype.add] and [Map.prototype.set] store the key -0 as +0. *)
Definition canonicalKey (k : number) : number :=
  if (k =? 0)%float then PrimFloat.zero else k.

(** [Set<number>]: insertion-ordered, keyed by SameValueZero. *)
Definition NumberSet := list number.

Definition setHas (s : NumberSet) (x : number) : bool :=
  existsb (JsNumber.sameValueZero x) s.

Definition setAdd (s : NumberSet) (x : number) : NumberSet :=
  if setHas s x then s else s ++ [canonicalKey x].

(** [Map<number, string>]: insertion-ordered entries. *)
Definition NumberMap := list (number * jsstring).

Definition mapHas (m : NumberMap) (k : number) : bool :=
  existsb (fun e => JsNumber.sameValueZero k (fst e)) m.

(** [map.set(k, v)]; an existing key keeps its position, a new one is
    entered at the end. *)
Fixpoint mapSet (m : NumberMap) (k : number) (v : jsstring) : NumberMap :=
  match m with
  | [] => [(canonicalKey k, v)]
  | (k', v') :: m' =>
      if JsNumber.sameValueZero k k' then (k', v) :: m'
      else (k', v') :: mapSet m' k v
  end.

(* ===================================================================== *)
(** * Filter facets (leads.ts, [deriveFilterOptions])                     *)
(* ===================================================================== *)

Record OptionItem : Type := { value : number; label : jsstring }.

Definition PROPERTY_TYPE_OPTIONS : list OptionItem := [
  {| value := JsNumber.ofZ 1; label := lit "Apartament" |};
  {| value := JsNumber.ofZ 2;
     label := lit "Cas" ++ [259%N] ++ lit " / Vil" ++ [259%N] |};
  {| value := JsNumber.ofZ 3; label := lit "Teren" |};
  {| value := JsNumber.ofZ 4;
     label := lit "Spa" ++ [539%N] ++ lit "iu de birouri" |};
  {| value := JsNumber.ofZ 5;
     label := lit "Spa" ++ [539%N] ++ lit "iu comercial" |};
  {| value := JsNumber.ofZ 6;
     label := lit "Spa" ++ [539%N] ++ lit "iu industrial" |};
  {| value := JsNumber.ofZ 7; label := lit "Hotel / Pensiune" |};
  {| value := JsNumber.ofZ 8;
     label := lit "Proprietate special" ++ [259%N] |}
].

Record FilterOptions : Type := {
  optPropertyTypes : list OptionItem;
  optRegions : list OptionItem;
  optZones : list OptionItem;
}.

Fixpoint extractLabel (raw : Raw) (keys : list jsstring) : option jsstring :=
  match keys with
  | [] => None
  | key :: keys' =>
      match getField raw key with
      | JString v =>
          if (0 <? List.length (JsString.trim v))%nat then Some v
          else extractLabel raw keys'
      | _ => extractLabel raw keys'
      end
  end.

Definition regionKeys : list jsstring :=
  [lit "region_name"; lit "region"; lit "county"].

Definition zoneKeys : list jsstring := [lit "zone_name"; lit "zone"].

Section Facets.
Context {engine : Engine} {host : Host}.

(** [extractLabel(raw, ...) ?? `Județ #${regionId}`] *)
Definition regionLabel (raw : Raw) (regionId : number) : jsstring :=
  match extractLabel raw regionKeys with
  | Some l => l
  | None => lit "Jude" ++ [539%N] ++ lit " #" ++ NumberToString regionId
  end.

(** [extractLabel(raw, ...) ?? `Zonă #${zoneId}`] *)
Definition zoneLabel (raw : Raw) (zoneId : number) : jsstring :=
  match extractLabel raw zoneKeys with
  | Some l => l
  | None => lit "Zon" ++ [259%N] ++ lit " #" ++ NumberToString zoneId
  end.

(** The three collections the [forEach] callback updates. *)
Record FacetAcc : Type := {
  propertyTypeSet : NumberSet;
  regionMap : NumberMap;
  zoneMap : NumberMap;
}.

Definition facetStep (acc : FacetAcc) (lead : Lead) : FacetAcc :=
  let raw := rawOf lead in
  let propertyTypeSet' :=
    match toNumber (getField raw (lit "property_type")) with
    | Some propertyType => setAdd (propertyTypeSet acc) propertyType
    | None => propertyTypeSet acc
    end in
  let regionMap' :=
    match toNumber (getField raw (lit "region_obj_id")) with
    | Some regionId =>
        let label := regionLabel raw regionId in
        if negb (mapHas (regionMap acc) regionId)
        then mapSet (regionMap acc) regionId label
        else regionMap acc
    | None => regionMap acc
    end in
  let zoneMap' :=
    match toNumber (getField raw (lit "zone_id")) with
    | Some zoneId =>
        let label := zoneLabel raw zoneId in
        if negb (mapHas (zoneMap acc) zoneId)
        then mapSet (zoneMap acc) zoneId label
        else zoneMap acc
    | None => zoneMap acc
    end in
  {| propertyTypeSet := propertyTypeSet';
     regionMap := regionMap';
     zoneMap := zoneMap' |}.

Definition emptyFacets : FacetAcc :=
  {| propertyTypeSet := []; regionMap := []; zoneMap := [] |}.

Definition scanLeads (leads : list Lead) : FacetAcc :=
  fold_left facetStep leads emptyFacets.

Definition compareEntries (a b : number * jsstring) : CompareResult :=
  Some (localeCompare (snd a) (snd b)).

Definition mapToOptions (map : NumberMap) : list OptionItem :=
  List.map (fun e => {| value := fst e; label := snd e |})
    (sort compareEntries map).

Definition deriveFilterOptions (leads : list Lead) : FilterOptions :=
  let acc := scanLeads leads in
  let propertyTypes :=
    if (List.length (propertyTypeSet acc) =? 0)%nat
    then PROPERTY_TYPE_OPTIONS
    else filter (fun option => setHas (propertyTypeSet acc) (value option))
           PROPERTY_TYPE_OPTIONS in
  {| optPropertyTypes := propertyTypes;
     optRegions := mapToOptions (regionMap acc);
     optZones := mapToOptions (zoneMap acc) |}.

End Facets.

(* ===================================================================== *)
(** * Day headers (dates.ts) and grouping (leads.ts)                      *)
(* ===================================================================== *)

Section DayHeader.
Context {engine : Engine} {fns : DateFns}.

(** dates.ts, [ensureDate] on a string: [None] is [null]. [parseISO] does
    not throw on a string it cannot read, it returns an Invalid Date, so the
    [catch] branch is never taken. *)
Definition ensureDate (value : jsstring) : option TimeValue :=
  if negb (JsString.truthy value) then None
  else Some (parseISO value).

(** [differenceInCalendarDays(TODAY, date) === n]; the difference is NaN for
    an Invalid Date, which equals no number. *)
Definition daysAgoIs (date : TimeValue) (n : Z) : bool :=
  match date with
  | Some t => (differenceInCalendarDays TODAY t =? n)%Z
  | None => false
  end.

(** [isSameYear(date, TODAY)], false for an Invalid Date. *)
Definition sameYearAsToday (date : TimeValue) : bool :=
  match date with
  | Some t => isSameYear t TODAY
  | None => false
  end.

(** [format(date, pattern)]: date-fns raises a RangeError on an Invalid
    Date. *)
Definition formatDate (date : TimeValue) (pattern : jsstring)
  : Result jsstring :=
  match date with
  | Some t => Ok (format t pattern)
  | None => Throw (ErrorObject (lit "RangeError") (lit "Invalid time value"))
  end.

Definition formatDayHeader (value : jsstring) : Result jsstring :=
  match ensureDate value with
  | None => Ok (lit "Unknown date")
  | Some date =>
      if daysAgoIs date 0 then Ok (lit "Today")
      else if daysAgoIs date 1 then Ok (lit "Yesterday")
      else
        let pattern :=
          if sameYearAsToday date then lit "d MMM" else lit "d MMM yyyy" in
        formatDate date pattern
  end.

Record LeadGroup : Type := { groupLabel : jsstring; groupLeads : list Lead }.

(** The comparator of [groupByDateAdded]: [bTime - aTime]. Time values are
    integers, so the sign of the difference is that of the exact one. *)
Definition compareDateAdded (a b : Lead) : CompareResult :=
  let aTime := parseISO (date_added a) in
  let bTime := parseISO (date_added b) in
  match bTime, aTime with
  | Some bt, Some at_ => Some (bt - at_)%Z
  | _, _ => None
  end.

(** [Map<string, Lead[]>] as the loop uses it: [get] finds the bucket, and
    [push] extends it in place; a new label is added at the end. *)
Fixpoint bucketPush (map : list (jsstring * list Lead))
  (label : jsstring) (lead : Lead) : list (jsstring * list Lead) :=
  match map with
  | [] => [(label, [lead])]
  | (k, bucket) :: map' =>
      if JsString.eqb k label then (k, bucket ++ [lead]) :: map'
      else (k, bucket) :: bucketPush map' label lead
  end.

(** The [for ... of] loop; a throwing [formatDayHeader] ends the call. *)
Fixpoint groupLoop (sorted : list Lead) (map : list (jsstring * list Lead))
  : Result (list (jsstring * list Lead)) :=
  match sorted with
  | [] => Ok map
  | lead :: rest =>
      match formatDayHeader (date_added lead) with
      | Ok label => groupLoop rest (bucketPush map label lead)
      | Throw e => Throw e
      end
  end.

Definition groupByDateAdded (leads : list Lead) : Result (list LeadGroup) :=
  let sorted := sort compareDateAdded leads in
  match groupLoop sorted [] with
  | Ok map =>
      Ok (List.map (fun e => {| groupLabel := fst e; groupLeads := snd e |})
            map)
  | Throw e => Throw e
  end.

End DayHeader.

(* ===================================================================== *)
(** * Event handlers: component state and the calls they make            *)
(* ===================================================================== *)

(** A handler runs on the component state [S] and appends the calls and
    state updates it makes, in order, to a log of events [E]. An [await] is
    a call whose result the environment chooses. *)
Section Handlers.
Variables S E : Type.

Definition Handler (A : Type) : Type := S * list E -> A * (S * list E).

Definition ret {A} (a : A) : Handler A := fun w => (a, w).

Definition bind {A B} (m : Handler A) (k : A -> Handler B) : Handler B :=
  fun w => let (a, w') := m w in k a w'.

Definition getState : Handler S := fun w => (fst w, w).

Definition update (f : S -> S) : Handler unit :=
  fun w => (tt, (f (fst w), snd w)).

Definition emit (e : E) : Handler unit :=
  fun w => (tt, (fst w, snd w ++ [e])).

Definition run {A} (m : Handler A) (s : S) : A * (S * list E) := m (s, []).

End Handlers.

Arguments ret {S E A} a.
Arguments bind {S E A B} m k.
Arguments getState {S E}.
Arguments update {S E} f.
Arguments emit {S E} e.
Arguments run {S E A} m s.

Declare Scope handler_scope.
Delimit Scope handler_scope with handler.
Notation "x <- m ;; k" := (bind m (fun x => k))
  (at level 61, m at next level, right associativity) : handler_scope.
Notation "m ;; k" := (bind m (fun _ => k))
  (at level 61, right associativity) : handler_scope.

(** [Set<string>]: insertion-ordered, without repetition. *)
Definition StringSet := list jsstring.

Definition stringSetHas (s : StringSet) (x : jsstring) : bool :=
  existsb (JsString.eqb x) s.

Definition stringSetAdd (s : StringSet) (x : jsstring) : StringSet :=
  if stringSetHas s x then s else s ++ [x].

Module Dashboard.

Inductive Tone : Type := Info | Success | Error.

Record Banner : Type := { tone : Tone; message : jsstring }.

(** The [useState] cells the send handlers touch. *)
Record State : Type := {
  multiSelectMode : bool;
  selectedIds : StringSet;
  pendingIds : StringSet;
  banner : option Banner;
}.

Inductive Event : Type :=
| SendWhatsApp (propertyId : jsstring)   (* POST /api/send-whatsapp is issued *)
| SendSettled (propertyId : jsstring) (ok : bool)
    (* the [await] of that request resumes: it resolved ([ok]) or rejected *)
| MutateLeads.                           (* SWR [mutate()]: refresh the leads *)

Section BulkSend.
(** The outcome of [sendWhatsApp(id)]: the promise resolves or rejects. *)
Variable sendOutcome : jsstring -> Result unit.

Definition sendWhatsApp (id : jsstring) : Handler State Event (Result unit) :=
  (emit (SendWhatsApp id) ;; ret (sendOutcome id))%handler.

(** [await mutate()]: the revalidation promise does not reject. *)
Definition mutate : Handler State Event unit := emit MutateLeads.

Definition setBanner (b : option Banner) : Handler State Event unit :=
  update (fun st => {| multiSelectMode := multiSelectMode st;
                       selectedIds := selectedIds st;
                       pendingIds := pendingIds st;
                       banner := b |}).

Definition setPendingIds (f : StringSet -> StringSet)
  : Handler State Event unit :=
  update (fun st => {| multiSelectMode := multiSelectMode st;
                       selectedIds := selectedIds st;
                       pendingIds := f (pendingIds st);
                       banner := banner st |}).

Definition setSelectedIds (ids : StringSet) : Handler State Event unit :=
  update (fun st => {| multiSelectMode := multiSelectMode st;
                       selectedIds := ids;
                       pendingIds := pendingIds st;
                       banner := banner st |}).

Definition setMultiSelectMode (b : bool) : Handler State Event unit :=
  update (fun st => {| multiSelectMode := b;
                       selectedIds := selectedIds st;
                       pendingIds := pendingIds st;
                       banner := banner st |}).

(** [await sendWhatsApp(id)]: the request is issued, and the handler goes
    on only when its promise has settled. *)
Definition awaitSend (id : jsstring) : Handler State Event (Result unit) :=
  (r <- sendWhatsApp id ;;
   emit (SendSettled id (resolved r)) ;;
   ret r)%handler.

(** The [for (const id of ids)] loop with its two counters. *)
Fixpoint sendLoop (ids : list jsstring) (successCount failureCount : nat)
  : Handler State Event (nat * nat) :=
  match ids with
  | [] => ret (successCount, failureCount)
  | id :: rest =>
      (r <- awaitSend id ;;
       match r with
       | Ok _ => sendLoop rest (successCount + 1) failureCount
       | Throw _ => sendLoop rest successCount (failureCount + 1)
       end)%handler
  end.

Definition successBanner (successCount : nat) : Banner :=
  {| tone := Success;
     message := lit "Sent " ++ JsString.ofNat successCount
                ++ lit " WhatsApp message"
                ++ (if (successCount =? 1)%nat then [] else lit "s")
                ++ lit "." |}.

Definition failureBanner (successCount failureCount : nat) : Banner :=
  {| tone := Error;
     message := lit "Sent " ++ JsString.ofNat successCount
                ++ lit " messages, " ++ JsString.ofNat failureCount
                ++ lit " failed." |}.

Definition handleBulkSend : Handler State Event unit :=
  (st <- getState ;;
   if (List.length (selectedIds st) =? 0)%nat then ret tt
   else
     setBanner None ;;
     let ids := selectedIds st in
     setPendingIds (fun prev => fold_left stringSetAdd ids prev) ;;
     counts <- sendLoop ids 0 0 ;;
     let (successCount, failureCount) := counts in
     (if (0 <? successCount)%nat then mutate else ret tt) ;;
     setPendingIds (fun _ => []) ;;
     setSelectedIds [] ;;
     setMultiSelectMode false ;;
     if (failureCount =? 0)%nat
     then setBanner (Some (successBanner successCount))
     else setBanner (Some (failureBanner successCount failureCount)))%handler.

End BulkSend.

End Dashboard.

Module Conversation.

Record ConversationMessage : Type := {
  outbound : bool;
  text : jsstring;
  timestamp : jsstring;
}.

(** The draft and error cells of the panel, and the message list SWR
    holds for it. *)
Record State : Type := {
  draft : jsstring;
  sendError : option jsstring;
  messages : list ConversationMessage;
}.

Inductive Event : Type :=
| SetSendError (e : option jsstring)
| SendLeadReply (propertyId message : jsstring) (* POST /api/leads/{id}/reply *)
| SetDraft (s : jsstring)
| FocusInput
| MutateMessages                               (* refresh the message stream *)
| RefreshLeads.                                (* [onRefreshLeads()] *)

Section Send.
Variable lead : Lead.
(** The outcome of [sendLeadReply(id, text)]. *)
Variable replyOutcome : jsstring -> jsstring -> Result unit.
(** What a refresh of the message stream brings back; on a failed fetch
    SWR keeps the list it has. *)
Variable fetchLeadMessages : jsstring -> Result (list ConversationMessage).

Definition setSendError (e : option jsstring) : Handler State Event unit :=
  (emit (SetSendError e) ;;
   update (fun st => {| draft := draft st;
                        sendError := e;
                        messages := messages st |}))%handler.

Definition setDraft (s : jsstring) : Handler State Event unit :=
  (emit (SetDraft s) ;;
   update (fun st => {| draft := s;
                        sendError := sendError st;
                        messages := messages st |}))%handler.

Definition sendLeadReply (id message : jsstring)
  : Handler State Event (Result unit) :=
  (emit (SendLeadReply id message) ;; ret (replyOutcome id message))%handler.

Definition mutate : Handler State Event unit :=
  (emit MutateMessages ;;
   match fetchLeadMessages (property_id lead) with
   | Ok fetched =>
       update (fun st => {| draft := draft st;
                            sendError := sendError st;
                            messages := fetched |})
   | Throw _ => ret tt
   end)%handler.

(** [err instanceof Error ? err.message : "Failed to send message. ..."] *)
Definition errorText (e : JsError) : jsstring :=
  match e with
  | ErrorObject _ message => message
  | ThrownValue => lit "Failed to send message. Please try again."
  end.

Definition handleSend : Handler State Event unit :=
  (st <- getState ;;
   let trimmed := JsString.trim (draft st) in
   if negb (JsString.truthy trimmed) then ret tt
   else
     setSendError None ;;
     r <- sendLeadReply (property_id lead) trimmed ;;
     match r with
     | Ok _ =>
         setDraft [] ;;
         emit FocusInput ;;
         mutate ;;
         emit RefreshLeads
     | Throw err => setSendError (Some (errorText err))
     end)%handler.

End Send.

End Conversation.

(* ===================================================================== *)
(** * A reference host                                                    *)
(* ===================================================================== *)

(** A concrete host on which the definitions above run: decimal integers
    for the number conversions, an ASCII case-folding collation, and the
    proleptic Gregorian calendar in UTC for the dates. *)
Module Reference.

Definition digitValue (c : N) : option Z :=
  if ((48 <=? c) && (c <=? 57))%N then Some (Z.of_N c - 48)%Z else None.

Fixpoint parseDigits (s : jsstring) (acc : Z) : option Z :=
  match s with
  | [] => Some acc
  | c :: s' =>
      match digitValue c with
      | Some d => parseDigits s' (10 * acc + d)%Z
      | None => None
      end
  end.

Definition parseDecimal (s : jsstring) : option Z :=
  match s with
  | [] => None
  | _ => parseDigits s 0%Z
  end.

Definition stringToNumber (s : jsstring) : number :=
  match JsString.trim s with
  | [] => PrimFloat.zero
  | 45%N :: digits =>
      match parseDecimal digits with
      | Some z => JsNumber.ofZ (- z)
      | None => PrimFloat.nan
      end
  | t =>
      match parseDecimal t with
      | Some z => JsNumber.ofZ z
      | None => PrimFloat.nan
      end
  end.

Definition showZ (z : Z) : jsstring :=
  match z with
  | Z0 => lit "0"
  | Zpos p => JsString.ofNat (Pos.to_nat p)
  | Zneg p => lit "-" ++ JsString.ofNat (Pos.to_nat p)
  end.

(** The integer a float denotes, when it denotes one. *)
Definition integerValue (x : number) : option Z :=
  match Prim2SF x with
  | S754_zero _ => Some 0%Z
  | S754_finite s m e =>
      let mag :=
        match e with
        | Z0 => Some (Zpos m)
        | Zpos k => Some (Zpos m * 2 ^ Zpos k)%Z
        | Zneg k =>
            if (Zpos m mod 2 ^ Zpos k =? 0)%Z
            then Some (Zpos m / 2 ^ Zpos k)%Z else None
        end in
      match mag with
      | Some v => Some (if s then (- v)%Z else v)
      | None => None
      end
  | _ => None
  end.

Definition numberToString (x : number) : jsstring :=
  match integerValue x with
  | Some z => showZ z
  | None =>
      if JsNumber.isNaN x then lit "NaN"
      else if PrimFloat.is_infinity x
           then (if (x <? 0)%float then lit "-Infinity" else lit "Infinity")
           else lit "(fraction)"
  end.

Definition lowerUnit (c : N) : N :=
  if ((65 <=? c) && (c <=? 90))%N then (c + 32)%N else c.

Definition lower (s : jsstring) : jsstring := List.map lowerUnit s.

Fixpoint lexCompare (a b : jsstring) : comparison :=
  match a, b with
  | [], [] => Eq
  | [], _ :: _ => Lt
  | _ :: _, [] => Gt
  | x :: a', y :: b' =>
      match (x ?= y)%N with
      | Eq => lexCompare a' b'
      | c => c
      end
  end.

Definition signOf (c : comparison) : Z :=
  match c with
  | Lt => (-1)%Z
  | Eq => 0%Z
  | Gt => 1%Z
  end.

Definition foldedCompare (a b : jsstring) : Z :=
  signOf (lexCompare (lower a) (lower b)).

(** Days since the epoch of a civil date, and back. *)
Definition daysFromCivil (y m d : Z) : Z :=
  let y' := if (m <=? 2)%Z then (y - 1)%Z else y in
  let era := (y' / 400)%Z in
  let yoe := (y' - era * 400)%Z in
  let mp := if (2 <? m)%Z then (m - 3)%Z else (m + 9)%Z in
  let doy := ((153 * mp + 2) / 5 + d - 1)%Z in
  let doe := (yoe * 365 + yoe / 4 - yoe / 100 + doy)%Z in
  (era * 146097 + doe - 719468)%Z.

Definition civilFromDays (z : Z) : Z * Z * Z :=
  let z' := (z + 719468)%Z in
  let era := (z' / 146097)%Z in
  let doe := (z' - era * 146097)%Z in
  let yoe := ((doe - doe / 1460 + doe / 36524 - doe / 146096) / 365)%Z in
  let doy := (doe - (365 * yoe + yoe / 4 - yoe / 100))%Z in
  let mp := ((5 * doy + 2) / 153)%Z in
  let d := (doy - (153 * mp + 2) / 5 + 1)%Z in
  let m := if (mp <? 10)%Z then (mp + 3)%Z else (mp - 9)%Z in
  let y := (yoe + era * 400)%Z in
  ((if (m <=? 2)%Z then y + 1 else y)%Z, m, d).

Definition msPerDay : Z := 86400000.

Definition dayOf (t : Z) : Z := (t / msPerDay)%Z.

Definition yearOf (t : Z) : Z := fst (fst (civilFromDays (dayOf t))).

Definition isLeap (y : Z) : bool :=
  ((y mod 4 =? 0) && (negb (y mod 100 =? 0) || (y mod 400 =? 0)))%Z.

Definition daysInMonth (y m : Z) : Z :=
  if (m =? 2)%Z then (if isLeap y then 29 else 28)%Z
  else if ((m =? 4) || (m =? 6) || (m =? 9) || (m =? 11))%Z then 30%Z
  else 31%Z.

(** Date-only ISO strings, [YYYY-MM-DD], read as midnight. *)
Definition parseDateOnly (s : jsstring) : TimeValue :=
  match s with
  | [y1; y2; y3; y4; 45%N; m1; m2; 45%N; d1; d2] =>
      match parseDigits [y1; y2; y3; y4] 0%Z,
            parseDigits [m1; m2] 0%Z,
            parseDigits [d1; d2] 0%Z with
      | Some y, Some m, Some d =>
          if ((1 <=? m) && (m <=? 12) && (1 <=? d)
              && (d <=? daysInMonth y m))%Z
          then Some (daysFromCivil y m d * msPerDay)%Z
          else None
      | _, _, _ => None
      end
  | _ => None
  end.

(** Date-only strings and the date-time strings the filter builds from
    them ([YYYY-MM-DDTHH:MM:SS]). *)
Definition parseHms (s : jsstring) : option Z :=
  match s with
  | [h1; h2; 58%N; m1; m2; 58%N; s1; s2] =>
      match parseDigits [h1; h2] 0%Z,
            parseDigits [m1; m2] 0%Z,
            parseDigits [s1; s2] 0%Z with
      | Some h, Some m, Some sec =>
          if ((h <? 24) && (m <? 60) && (sec <? 60))%Z
          then Some ((h * 3600 + m * 60 + sec) * 1000)%Z
          else None
      | _, _, _ => None
      end
  | _ => None
  end.

Definition parseDateTime (s : jsstring) : TimeValue :=
  match parseDateOnly (firstn 10 s), skipn 10 s with
  | Some day, [] => Some day
  | Some day, 84%N :: time =>
      match parseHms time with
      | Some ms => Some (day + ms)%Z
      | None => None
      end
  | _, _ => None
  end.

Definition monthName (m : Z) : jsstring :=
  nth (Z.to_nat (m - 1))
    [lit "Jan"; lit "Feb"; lit "Mar"; lit "Apr"; lit "May"; lit "Jun";
     lit "Jul"; lit "Aug"; lit "Sep"; lit "Oct"; lit "Nov"; lit "Dec"]
    [].

(** The two patterns [formatDayHeader] uses. *)
Definition formatUtc (t : Z) (pattern : jsstring) : jsstring :=
  let '(y, m, d) := civilFromDays (dayOf t) in
  if JsString.eqb pattern (lit "d MMM yyyy")
  then showZ d ++ lit " " ++ monthName m ++ lit " " ++ showZ y
  else showZ d ++ lit " " ++ monthName m.

#[export] Instance host : Host := {|
  StringToNumber := stringToNumber;
  NumberToString := numberToString;
  localeCompare := foldedCompare;
  toLowerCase := lower;
  DateParse := parseDateTime;
|}.

(** The calendar with [TODAY] at noon of 15 June 2024. *)
#[export] Instance dateFns : DateFns := {|
  parseISO := parseDateTime;
  TODAY := (daysFromCivil 2024 6 15 * msPerDay + 43200000)%Z;
  differenceInCalendarDays := fun a b => (dayOf a - dayOf b)%Z;
  isSameYear := fun a b => (yearOf a =? yearOf b)%Z;
  format := formatUtc;
|}.

End Reference.

(* ===================================================================== *)
(** * Notions the statements use                                          *)
(* ===================================================================== *)

(** [Subsequence xs ys]: [xs] is [ys] with some elements removed, the rest
    in their order. *)
Inductive Subsequence {A : Type} : list A -> list A -> Prop :=
| Subsequence_nil : Subsequence [] []
| Subsequence_skip (x : A) (xs ys : list A) :
    Subsequence xs ys -> Subsequence xs (x :: ys)
| Subsequence_keep (x : A) (xs ys : list A) :
    Subsequence xs ys -> Subsequence (x :: xs) (x :: ys).

(** The budget clause in the words of the specification: a price is within
    range when it is present, at least [minBudget] if that is set, and at
    most [maxBudget] if that is set. *)
Definition withinRangeSpec (filters : LeadFilters) (price : option number)
  : Prop :=
  exists p, price = Some p
    /\ (forall lo, minBudget filters = Some lo -> JsNumber.ge p lo = true)
    /\ (forall hi, maxBudget filters = Some hi -> JsNumber.le p hi = true).

Definition budgetSpec {host : Host} (filters : LeadFilters) (raw : Raw)
  : Prop :=
  let saleOk :=
    withinRangeSpec filters (toNumber (getField raw (lit "price_sale"))) in
  let rentOk :=
    withinRangeSpec filters (toNumber (getField raw (lit "price_rent"))) in
  match sale (transaction filters), rent (transaction filters) with
  | true, false => saleOk
  | false, true => rentOk
  | _, _ => saleOk \/ rentOk
  end.

(** The bounds of a filter are numbers a budget can be: not NaN. The panel
    builds them with [Number] from the text of a numeric input. *)
Definition boundsAreNumbers (filters : LeadFilters) : Prop :=
  (forall lo, minBudget filters = Some lo -> JsNumber.isNaN lo = false)
  /\ (forall hi, maxBudget filters = Some hi -> JsNumber.isNaN hi = false).

(** The inputs of the two budget scenarios. *)
Definition scenarioLead : Lead := {|
  property_id := lit "p1";
  date_added := lit "2024-01-01";
  crm_raw := Some [(lit "property_type", JNumber (JsNumber.ofZ 1));
                   (lit "for_sale", JBool true);
                   (lit "price_sale", JNumber (JsNumber.ofZ 100000))];
|}.

Definition scenarioFilters (maxBudget : Z) : LeadFilters := {|
  propertyTypes := [JsNumber.ofZ 1];
  regionId := None;
  zoneId := None;
  transaction := {| sale := true; rent := false |};
  rooms := RoomsAll;
  minBudget := Some (JsNumber.ofZ 50000);
  maxBudget := Some (JsNumber.ofZ maxBudget);
  dateFrom := None;
  dateTo := None;
|}.

(** A lead of region 0 and the filter that asks for region 0. *)
Definition regionZeroLead : Lead := {|
  property_id := lit "r0";
  date_added := lit "2024-01-01";
  crm_raw := Some [(lit "region_obj_id", JNumber (JsNumber.ofZ 0))];
|}.

Definition regionFilter (id : number) : LeadFilters := {|
  propertyTypes := [];
  regionId := Some id;
  zoneId := None;
  transaction := {| sale := false; rent := false |};
  rooms := RoomsAll;
  minBudget := None;
  maxBudget := None;
  dateFrom := None;
  dateTo := None;
|}.

(** The region clause in the words of the specification: the lead's
    [region_obj_id] is numeric and equals the wanted id. *)
Definition regionSpec {host : Host} (wanted : number) (raw : Raw) : Prop :=
  exists r, toNumber (getField raw (lit "region_obj_id")) = Some r
    /\ JsNumber.strictEq r wanted = true.

(** A draft is blank when it is empty or holds only white space. *)
Definition blank (s : jsstring) : bool := forallb JsString.isWhiteSpace s.

(** The true outcome counts of a bulk send over [ids]. *)
Definition successesOf (sendOutcome : jsstring -> Result unit)
  (ids : list jsstring) : nat :=
  List.length (filter (fun id => resolved (sendOutcome id)) ids).

Definition failuresOf (sendOutcome : jsstring -> Result unit)
  (ids : list jsstring) : nat :=
  List.length (filter (fun id => negb (resolved (sendOutcome id))) ids).

(** The number of leads refreshes in a log of the dashboard. *)
Definition refreshes (log : list Dashboard.Event) : nat :=
  List.length (filter (fun e => match e with
                                | Dashboard.MutateLeads => true
                                | _ => false
                                end) log).

(** The send attempts in a log of the dashboard, in order. *)
Fixpoint attempts (log : list Dashboard.Event) : list jsstring :=
  match log with
  | [] => []
  | Dashboard.SendWhatsApp id :: log' => id :: attempts log'
  | _ :: log' => attempts log'
  end.

(** What the log of a bulk send over [ids] must be when the requests go
    out one after the other: each request is issued and settles before the
    next one is issued. *)
Definition oneByOne (sendOutcome : jsstring -> Result unit)
  (ids : list jsstring) : list Dashboard.Event :=
  List.concat
    (List.map (fun id => [Dashboard.SendWhatsApp id;
                          Dashboard.SendSettled id (resolved (sendOutcome id))])
       ids).

(** [sequential log inFlight]: reading [log] with the request [inFlight]
    outstanding, no request is issued while another is outstanding, only
    the outstanding request settles, and the leads are refreshed only when
    none is outstanding. *)
Fixpoint sequential (log : list Dashboard.Event) (inFlight : option jsstring)
  : bool :=
  match log with
  | [] => true
  | Dashboard.SendWhatsApp id :: log' =>
      match inFlight with
      | None => sequential log' (Some id)
      | Some _ => false
      end
  | Dashboard.SendSettled id _ :: log' =>
      match inFlight with
      | Some id' => JsString.eqb id id' && sequential log' None
      | None => false
      end
  | Dashboard.MutateLeads :: log' =>
      match inFlight with
      | None => sequential log' None
      | Some _ => false
      end
  end.

(** The texts of the two banners of a bulk send, as the template literals
    of the handler spell them. *)
Definition sentText (successCount : nat) : jsstring :=
  lit "Sent " ++ JsString.ofNat successCount ++ lit " WhatsApp message"
  ++ (if (successCount =? 1)%nat then [] else lit "s") ++ lit ".".

Definition failedText (successCount failureCount : nat) : jsstring :=
  lit "Sent " ++ JsString.ofNat successCount ++ lit " messages, "
  ++ JsString.ofNat failureCount ++ lit " failed.".

(** Three selected ids, the second of which fails. *)
Definition threeIds : list jsstring := [lit "a"; lit "b"; lit "c"].

Definition secondFails (id : jsstring) : Result unit :=
  if JsString.eqb id (lit "b")
  then Throw (ErrorObject (lit "Error") (lit "Bad Gateway"))
  else Ok tt.

Definition threeSelected : Dashboard.State := {|
  Dashboard.multiSelectMode := true;
  Dashboard.selectedIds := threeIds;
  Dashboard.pendingIds := [];
  Dashboard.banner := None;
|}.

Definition allFail (id : jsstring) : Result unit :=
  Throw (ErrorObject (lit "Error") (lit "Bad Gateway")).

Definition allResolve (id : jsstring) : Result unit := Ok tt.

Definition oneSelected : Dashboard.State := {|
  Dashboard.multiSelectMode := true;
  Dashboard.selectedIds := [lit "a"];
  Dashboard.pendingIds := [lit "z"];
  Dashboard.banner := None;
|}.

(** A conversation with a draft and an earlier send error, and two network
    outcomes for its reply. *)
Definition openConversation (draft : jsstring) : Conversation.State := {|
  Conversation.draft := draft;
  Conversation.sendError := Some (lit "Bad Gateway");
  Conversation.messages := [];
|}.

Definition replyFails (id message : jsstring) : Result unit :=
  Throw (ErrorObject (lit "Error") (lit "Service Unavailable")).

Definition replySucceeds (id message : jsstring) : Result unit := Ok tt.

Definition fetchedMessages (id : jsstring)
  : Result (list Conversation.ConversationMessage) :=
  Ok [{| Conversation.outbound := true;
         Conversation.text := lit "hello";
         Conversation.timestamp := lit "2024-06-15T10:00:00" |}].

(** What is assumed of the host's collation: [localeCompare] is a
    consistent comparator (swapping the arguments swaps the sign, and the
    order is transitive), and it orders strings without regard to case,
    that is, letter case can only break a tie between strings that are
    equal once folded to lower case. *)
Class CollationLaws (host : Host) : Prop := {
  collation_antisym : forall a b,
    (localeCompare a b < 0)%Z <-> (0 < localeCompare b a)%Z;
  collation_trans : forall a b c,
    (localeCompare a b <= 0)%Z -> (localeCompare b c <= 0)%Z ->
    (localeCompare a c <= 0)%Z;
  collation_case : forall a b,
    (localeCompare a b <= 0)%Z ->
    (localeCompare (toLowerCase a) (toLowerCase b) <= 0)%Z;
}.

(** Labels ascend in collation order, and ascend when case is ignored. *)
Definition labelLe {host : Host} (a b : OptionItem) : Prop :=
  (localeCompare (label a) (label b) <= 0)%Z.

Definition labelLeIgnoringCase {host : Host} (a b : OptionItem) : Prop :=
  (localeCompare (toLowerCase (label a)) (toLowerCase (label b)) <= 0)%Z.

(** The numeric facet values a lead carries. *)
Definition propertyTypeOf {host : Host} (lead : Lead) : option number :=
  toNumber (getField (rawOf lead) (lit "property_type")).

Definition regionIdOf {host : Host} (lead : Lead) : option number :=
  toNumber (getField (rawOf lead) (lit "region_obj_id")).

Definition zoneIdOf {host : Host} (lead : Lead) : option number :=
  toNumber (getField (rawOf lead) (lit "zone_id")).

(** [carries idOf x lead]: the lead carries the id [x]. *)
Definition carries (idOf : Lead -> option number) (x : number) (lead : Lead)
  : bool :=
  match idOf lead with
  | Some v => JsNumber.sameValueZero x v
  | None => false
  end.

(** A textual label: a string with something other than white space. *)
Definition textual (v : JsValue) : bool :=
  match v with
  | JString s => negb (blank s)
  | _ => false
  end.

Definition isNone {A : Type} (o : option A) : bool :=
  match o with
  | Some _ => false
  | None => true
  end.

Definition regionLabelOf {host : Host} (lead : Lead) (id : number)
  : jsstring :=
  regionLabel (rawOf lead) id.

Definition zoneLabelOf {host : Host} (lead : Lead) (id : number) : jsstring :=
  zoneLabel (rawOf lead) id.

(** What the [forEach] callback does to one of its two maps: the first
    lead that carries an id adds the entry, later ones leave it alone. *)
Definition collectStep (idOf : Lead -> option number)
  (labelOf : Lead -> number -> jsstring) (m : NumberMap) (lead : Lead)
  : NumberMap :=
  match idOf lead with
  | Some id =>
      if negb (mapHas m id) then mapSet m id (labelOf lead id) else m
  | None => m
  end.

Definition collectTypes {host : Host} (s : NumberSet) (lead : Lead)
  : NumberSet :=
  match propertyTypeOf lead with
  | Some v => setAdd s v
  | None => s
  end.

Definition toItem (e : number * jsstring) : OptionItem :=
  {| value := fst e; label := snd e |}.

(** The first candidate key of [raw] that holds a textual label. *)
Definition firstTextual (raw : Raw) (keys : list jsstring)
  : option jsstring :=
  find (fun key => textual (getField raw key)) keys.

(** The label of an id in the words of the specification: the text under
    the first of [keys] that holds a textual label; when there is none, the
    placeholder made of [prefix] and the id. *)
Definition labelledFrom {host : Host} (keys : list jsstring)
  (prefix : jsstring) (raw : Raw) (id : number) (l : jsstring) : Prop :=
  match firstTextual raw keys with
  | Some key => getField raw key = JString l
  | None => l = prefix ++ NumberToString id
  end.

(** The contract of a region or zone facet over [leads]: the options are
    exactly one per id carried, the value being the id as a map keeps it
    (-0 kept as +0), labelled from the first lead (in input order) that
    carries the id, and ascend by label. *)
Definition facetSpec {host : Host} (idOf : Lead -> option number)
  (keys : list jsstring) (prefix : jsstring) (leads : list Lead)
  (items : list OptionItem) : Prop :=
  (forall o, In o items <->
     exists lead id, find (carries idOf (value o)) leads = Some lead
       /\ idOf lead = Some id
       /\ value o = canonicalKey id
       /\ labelledFrom keys prefix (rawOf lead) id (label o))
  /\ NoDup items
  /\ (forall o1 o2, In o1 items -> In o2 items ->
        JsNumber.sameValueZero (value o1) (value o2) = true -> o1 = o2)
  /\ StronglySorted labelLe items
  /\ StronglySorted labelLeIgnoringCase items.

(** The contract of the property-type facet. *)
Definition propertyTypesSpec {host : Host} (leads : list Lead)
  : list OptionItem :=
  if forallb (fun lead => isNone (propertyTypeOf lead)) leads
  then PROPERTY_TYPE_OPTIONS
  else filter (fun option =>
                 existsb (carries propertyTypeOf (value option)) leads)
         PROPERTY_TYPE_OPTIONS.

(** Three leads: two of region 12, the first without a label, and one of
    region 40 named "alba". *)
Definition facetLeads : list Lead := [
  {| property_id := lit "a"; date_added := lit "2024-01-01";
     crm_raw := Some [(lit "region_obj_id", JNumber (JsNumber.ofZ 12));
                      (lit "property_type", JNumber (JsNumber.ofZ 3))] |};
  {| property_id := lit "b"; date_added := lit "2024-01-02";
     crm_raw := Some [(lit "region_obj_id", JString (lit "12"));
                      (lit "region_name", JString (lit "Cluj"))] |};
  {| property_id := lit "c"; date_added := lit "2024-01-03";
     crm_raw := Some [(lit "region_obj_id", JNumber (JsNumber.ofZ 40));
                      (lit "region", JString (lit "alba"))] |}
].

(** Four leads with zones: two of zone 7, the first named under its second
    candidate key (the first holds only blanks), the second named otherwise;
    one of zone 3 without a name; and one of zone -0. *)
Definition zonedLeads : list Lead := [
  {| property_id := lit "z1"; date_added := lit "2024-01-01";
     crm_raw := Some [(lit "zone_id", JNumber (JsNumber.ofZ 7));
                      (lit "zone_name", JString (lit "  "));
                      (lit "zone", JString (lit "centru"))] |};
  {| property_id := lit "z2"; date_added := lit "2024-01-02";
     crm_raw := Some [(lit "zone_id", JString (lit "7"));
                      (lit "zone_name", JString (lit "Nord"))] |};
  {| property_id := lit "z3"; date_added := lit "2024-01-03";
     crm_raw := Some [(lit "zone_id", JNumber (JsNumber.ofZ 3))] |};
  {| property_id := lit "z4"; date_added := lit "2024-01-04";
     crm_raw := Some [(lit "zone_id",
                       JNumber (PrimFloat.opp PrimFloat.zero));
                      (lit "zone_name", JString (lit "Apahida"))] |}
].

(** A lead is undated when its [date_added] does not parse to a valid
    instant. *)
Definition undated {fns : DateFns} (lead : Lead) : Prop :=
  parseISO (date_added lead) = None.

(** The leads of all buckets, in bucket order. *)
Definition bucketLeads (groups : list LeadGroup) : list Lead :=
  List.concat (List.map groupLeads groups).

(** What is claimed of grouping a collection that has undated leads: no
    failure and no lead dropped, the undated leads after all dated ones,
    and each of them under the label "Unknown date". *)
Definition undatedHandledAsClaimed {engine : Engine} {fns : DateFns}
  (leads : list Lead) : Prop :=
  exists groups,
    groupByDateAdded leads = Ok groups
    /\ Permutation (bucketLeads groups) leads
    /\ (forall earlier u later,
          bucketLeads groups = earlier ++ u :: later ->
          undated u -> Forall undated later)
    /\ (forall g lead,
          In g groups -> In lead (groupLeads g) -> undated lead ->
          groupLabel g = lit "Unknown date").

(** The error date-fns raises on an Invalid Date. *)
Definition invalidTime : JsError :=
  ErrorObject (lit "RangeError") (lit "Invalid time value").

(** A date string no formatter can render: not empty, and not a date. *)
Definition unreadable {fns : DateFns} (value : jsstring) : Prop :=
  value <> [] /\ parseISO value = None.

(** A lead without a date, and one whose date is not a date. *)
Definition undatedLead : Lead := {|
  property_id := lit "u1";
  date_added := [];
  crm_raw := None;
|}.

Definition garbageLead : Lead := {|
  property_id := lit "g1";
  date_added := lit "not a date";
  crm_raw := None;
|}.

(** The day header of a lead. *)
Definition headerOf {fns : DateFns} (lead : Lead) : Result jsstring :=
  formatDayHeader (date_added lead).

(** Buckets as the loop keeps them: each lead under its own header. *)
Definition wellLabelled {fns : DateFns} (map : list (jsstring * list Lead))
  : Prop :=
  forall k bucket lead,
    In (k, bucket) map -> In lead bucket -> headerOf lead = Ok k.

(** A lead is dated at [t] when its [date_added] is a string that parses
    to the instant [t]. *)
Definition datedAt {fns : DateFns} (lead : Lead) (t : Z) : Prop :=
  date_added lead <> [] /\ parseISO (date_added lead) = Some t.

(** The instant of a lead ([0] stands in for an undated one). *)
Definition instantOf {fns : DateFns} (lead : Lead) : Z :=
  match parseISO (date_added lead) with
  | Some t => t
  | None => 0%Z
  end.

(** The two day patterns of [formatDayHeader]. *)
Definition dayMonth : jsstring := lit "d MMM".
Definition dayMonthYear : jsstring := lit "d MMM yyyy".

(** What is assumed of date-fns. [parseISO] does not read the empty
    string. [differenceInCalendarDays] is the difference of two day
    numbers, and a later instant is not on an earlier day. Instants of one
    day are of one year, and [isSameYear] is symmetric and transitive.
    [format] with a day pattern depends on the day only; "d MMM yyyy"
    tells days apart, "d MMM" tells the days of one year apart; the two
    patterns never give the same text, and neither gives "Today" or
    "Yesterday". *)
#[local] Unset Implicit Arguments.

Class CalendarLaws (fns : DateFns) : Prop := {
  parseISO_empty : parseISO [] = None;
  days_additive : forall a b c,
    differenceInCalendarDays a c
    = (differenceInCalendarDays a b + differenceInCalendarDays b c)%Z;
  days_monotone : forall a b,
    (b <= a)%Z -> (0 <= differenceInCalendarDays a b)%Z;
  year_of_day : forall a b,
    differenceInCalendarDays a b = 0%Z -> isSameYear a b = true;
  year_sym : forall a b, isSameYear a b = isSameYear b a;
  year_trans : forall a b c,
    isSameYear a b = true -> isSameYear b c = true -> isSameYear a c = true;
  format_of_day : forall a b pattern,
    pattern = dayMonth \/ pattern = dayMonthYear ->
    differenceInCalendarDays a b = 0%Z -> format a pattern = format b pattern;
  format_tells_days : forall a b,
    format a dayMonthYear = format b dayMonthYear ->
    differenceInCalendarDays a b = 0%Z;
  format_tells_days_of_year : forall a b,
    isSameYear a b = true -> format a dayMonth = format b dayMonth ->
    differenceInCalendarDays a b = 0%Z;
  format_patterns_differ : forall a b,
    format a dayMonth <> format b dayMonthYear;
  format_not_relative : forall a pattern,
    pattern = dayMonth \/ pattern = dayMonthYear ->
    format a pattern <> lit "Today" /\ format a pattern <> lit "Yesterday";
}.

#[local] Set Implicit Arguments.

(** The calendar-relative day label of an instant in the words of the
    specification: "Today", "Yesterday", else the day and month, with the
    year when it is not the year of now. *)
Definition dayLabel {fns : DateFns} (t : Z) : jsstring :=
  if (differenceInCalendarDays TODAY t =? 0)%Z then lit "Today"
  else if (differenceInCalendarDays TODAY t =? 1)%Z then lit "Yesterday"
  else if isSameYear t TODAY then format t (lit "d MMM")
  else format t (lit "d MMM yyyy").

(** Day labels follow the calendar on [leads]: of three leads in time
    order, if the outer two fall on the same day (have the same header), so
    does the one between them. *)
Definition daysAreIntervals {fns : DateFns} (leads : list Lead) : Prop :=
  forall a b c, In a leads -> In b leads -> In c leads ->
    (instantOf c <= instantOf b <= instantOf a)%Z ->
    headerOf a = headerOf c -> headerOf b = headerOf a.

(** Most recent first. *)
Definition notOlder {fns : DateFns} (a b : Lead) : Prop :=
  (instantOf b <= instantOf a)%Z.

(** The first member of an earlier bucket is strictly more recent than the
    first member of a later one. *)
Definition headNewer {fns : DateFns} (g1 g2 : LeadGroup) : Prop :=
  forall h1 h2, hd_error (groupLeads g1) = Some h1 ->
    hd_error (groupLeads g2) = Some h2 ->
    (instantOf h2 < instantOf h1)%Z.

(** Six dated leads, given out of order: one of today and one of
    yesterday (by the reference calendar), two of one day, one of the same
    day and month a year before, and one older lead of this year. *)
Definition calendarLeads : list Lead := [
  {| property_id := lit "c1"; date_added := lit "2024-01-01";
     crm_raw := None |};
  {| property_id := lit "c2"; date_added := lit "2023-03-05";
     crm_raw := None |};
  {| property_id := lit "c3"; date_added := lit "2024-03-05T09:30:00";
     crm_raw := None |};
  {| property_id := lit "c4"; date_added := lit "2024-06-14T23:00:00";
     crm_raw := None |};
  {| property_id := lit "c5"; date_added := lit "2024-03-05T18:00:00";
     crm_raw := None |};
  {| property_id := lit "c6"; date_added := lit "2024-06-15T07:00:00";
     crm_raw := None |}
].

(** Three dated leads, given out of order, two of them on the same day. *)
Definition datedLeads : list Lead := [
  {| property_id := lit "d1"; date_added := lit "2024-01-01";
     crm_raw := None |};
  {| property_id := lit "d2"; date_added := lit "2024-03-05T09:30:00";
     crm_raw := None |};
  {| property_id := lit "d3"; date_added := lit "2024-03-05T18:00:00";
     crm_raw := None |}
].

(** Leads with the same header stand together in [s]. *)
Definition Contiguous {fns : DateFns} (s : list Lead) : Prop :=
  forall s1 y s2 z s3 x s4,
    s = s1 ++ y :: s2 ++ z :: s3 ++ x :: s4 ->
    headerOf y = headerOf x -> headerOf z = headerOf x.

(** The buckets of the loop when headers stand together: distinct labels,
    each lead under its header, no empty bucket. *)
Definition tidy {fns : DateFns} (map : list (jsstring * list Lead)) : Prop :=
  NoDup (List.map fst map)
  /\ wellLabelled map
  /\ (forall k bucket, In (k, bucket) map -> bucket <> []).

Definition toGroup (e : jsstring * list Lead) : LeadGroup :=
  {| groupLabel := fst e; groupLeads := snd e |}.

Definition sameInstant {fns : DateFns} (t : Z) (lead : Lead) : bool :=
  (instantOf lead =? t)%Z.

(** Support for checking the reference calendar: a test on every number
    below a bound, and the civil date of a day of a 400-year era together
    with the day it was made from. *)
Definition belowAll (P : Z -> bool) (n : N) : bool :=
  fst (N.iter n (fun s => (fst s && P (snd s), (snd s + 1)%Z)) (true, 0%Z)).

Definition civilOfEra (doe : Z) : Z * Z * Z :=
  let yoe := ((doe - doe / 1460 + doe / 36524 - doe / 146096) / 365)%Z in
  let doy := (doe - (365 * yoe + yoe / 4 - yoe / 100))%Z in
  let mp := ((5 * doy + 2) / 153)%Z in
  let d := (doy - (153 * mp + 2) / 5 + 1)%Z in
  let m := if (mp <? 10)%Z then (mp + 3)%Z else (mp - 9)%Z in
  (yoe, m, d).

Definition dayOfEra (yoe m d : Z) : Z :=
  let mp := if (2 <? m)%Z then (m - 3)%Z else (m + 9)%Z in
  let doy := ((153 * mp + 2) / 5 + d - 1)%Z in
  (yoe * 365 + yoe / 4 - yoe / 100 + doy)%Z.

Definition civilChecked (doe : Z) : bool :=
  let '(yoe, m, d) := civilOfEra doe in
  ((0 <=? yoe) && (yoe <=? 399) && (1 <=? m) && (m <=? 12)
   && (1 <=? d) && (d <=? 31) && (dayOfEra yoe m d =? doe))%Z.

Definition noSpace (s : jsstring) : Prop := Forall (fun c => c <> 32%N) s.

Definition isDigit (c : N) : Prop := (48 <= c <= 57)%N.

(* ===================================================================== *)
(** * Further notions: the other clauses of the filter                    *)
(* ===================================================================== *)

(** A filter that constrains the zone only. *)
Definition zoneFilter (id : number) : LeadFilters := {|
  propertyTypes := [];
  regionId := None;
  zoneId := Some id;
  transaction := {| sale := false; rent := false |};
  rooms := RoomsAll;
  minBudget := None;
  maxBudget := None;
  dateFrom := None;
  dateTo := None;
|}.

(** A filter that constrains the property types only. *)
Definition typeFilter (types : list number) : LeadFilters := {|
  propertyTypes := types;
  regionId := None;
  zoneId := None;
  transaction := {| sale := false; rent := false |};
  rooms := RoomsAll;
  minBudget := None;
  maxBudget := None;
  dateFrom := None;
  dateTo := None;
|}.

(** A filter that constrains the date range only. *)
Definition dateFilter (from to : option jsstring) : LeadFilters := {|
  propertyTypes := [];
  regionId := None;
  zoneId := None;
  transaction := {| sale := false; rent := false |};
  rooms := RoomsAll;
  minBudget := None;
  maxBudget := None;
  dateFrom := from;
  dateTo := to;
|}.

(** The lead offers the property for sale, for rent. *)
Definition isSale {host : Host} (raw : Raw) : bool :=
  ToBoolean (getField raw (lit "for_sale")).

Definition isRent {host : Host} (raw : Raw) : bool :=
  ToBoolean (getField raw (lit "for_rent")).

(** The instants a date bound stands for: the start of the [from] day and
    the last second of the [to] day, when the bound is set, not empty, and
    a date. *)
Definition lowerBound {host : Host} (filters : LeadFilters) : TimeValue :=
  match dateFrom filters with
  | Some from =>
      if JsString.truthy from then DateParse (from ++ lit "T00:00:00")
      else None
  | None => None
  end.

Definition upperBound {host : Host} (filters : LeadFilters) : TimeValue :=
  match dateTo filters with
  | Some to =>
      if JsString.truthy to then DateParse (to ++ lit "T23:59:59")
      else None
  | None => None
  end.

Definition dateRangeActive (filters : LeadFilters) : bool :=
  truthyOpt (dateFrom filters) || truthyOpt (dateTo filters).

(** A lead with a zone and no rooms, and one listed for rent with five
    rooms and a type. *)
Definition zoneLead : Lead := {|
  property_id := lit "z7";
  date_added := lit "2024-02-10";
  crm_raw := Some [(lit "zone_id", JString (lit "7"));
                   (lit "property_type", JNumber (JsNumber.ofZ 2))];
|}.

Definition rentLead : Lead := {|
  property_id := lit "r5";
  date_added := lit "2024-02-11T08:00:00";
  crm_raw := Some [(lit "for_rent", JBool true);
                   (lit "rooms", JNumber (JsNumber.ofZ 5));
                   (lit "price_rent", JNumber (JsNumber.ofZ 700));
                   (lit "property_type", JNumber (JsNumber.ofZ 1))];
|}.

(* ===================================================================== *)
(** * The other formatters of dates.ts                                    *)
(* ===================================================================== *)

Section Formatters.
Context {fns : DateFns}.

Definition bullet : jsstring := [8226%N].

(** dates.ts, [formatFullDateTime]. *)
Definition formatFullDateTime (value : jsstring) : Result jsstring :=
  match ensureDate value with
  | None => Ok (lit "Unknown time")
  | Some date => formatDate date (lit "d MMM yyyy " ++ bullet ++ lit " HH:mm")
  end.

(** dates.ts, [formatMessageTimestamp]; [now] is the [new Date()] of the
    call. *)
Definition formatMessageTimestamp (now : Z) (value : jsstring)
  : Result jsstring :=
  match ensureDate value with
  | None => Ok []
  | Some date =>
      if match date with
         | Some t => (differenceInCalendarDays now t =? 0)%Z
         | None => false
         end
      then formatDate date (lit "HH:mm")
      else
        let pattern :=
          if match date with
             | Some t => isSameYear t now
             | None => false
             end
          then lit "d MMM " ++ bullet ++ lit " HH:mm"
          else lit "d MMM yyyy " ++ bullet ++ lit " HH:mm" in
        formatDate date pattern
  end.

End Formatters.

(** [headerIs k lead]: the day header of [lead] is [k]. *)
Definition headerIs {fns : DateFns} (k : jsstring) (lead : Lead) : bool :=
  match headerOf lead with
  | Ok l => JsString.eqb l k
  | Throw _ => false
  end.

(** The bucket a label has in the map of the loop ([map.get(label)], the
    empty list standing for [undefined]). *)
Fixpoint bucketOf {A : Type} (map : list (jsstring * list A)) (k : jsstring)
  : list A :=
  match map with
  | [] => []
  | (k', bucket) :: map' =>
      if JsString.eqb k' k then bucket else bucketOf map' k
  end.

(* ===================================================================== *)
(** * Leads with their outreach history (leads.ts, chats page)            *)
(* ===================================================================== *)

(** types/leads.ts, [OutreachHistoryEntry]; [date] and [note] may be
    missing. *)
Record OutreachHistoryEntry : Type := {
  date : option jsstring;
  success : bool;
  note : option jsstring;
}.

(** A lead together with the activity fields the history views read;
    [base] holds the fields modelled above. *)
Record HistoryLead : Type := {
  base : Lead;
  outreach_history : option (list OutreachHistoryEntry);
  last_message_at : option jsstring;
}.

(** [lead.outreach_history ?? []] *)
Definition historyOf (lead : HistoryLead) : list OutreachHistoryEntry :=
  match outreach_history lead with
  | Some entries => entries
  | None => []
  end.

(** [entries[entries.length - 1]], [None] for [undefined]. *)
Definition lastOf {A : Type} (entries : list A) : option A :=
  nth_error entries (List.length entries - 1).

(** [Map<string, T[]>] with [get] and [push], for any element type. *)
Fixpoint bucketPushOf {A : Type} (map : list (jsstring * list A))
  (label : jsstring) (x : A) : list (jsstring * list A) :=
  match map with
  | [] => [(label, [x])]
  | (k, bucket) :: map' =>
      if JsString.eqb k label then (k, bucket ++ [x]) :: map'
      else (k, bucket) :: bucketPushOf map' label x
  end.

Record HistoryGroup : Type := {
  historyLabel : jsstring;
  historyLeads : list HistoryLead;
}.

Section LastOutreach.
Context {engine : Engine} {fns : DateFns}.

(** The date a lead is sorted by in [groupByLastOutreach]: the comparator
    tests [entries.length > 0] and reads the last entry. *)
Definition outreachInstant (a : HistoryLead) : TimeValue :=
  let aEntries := historyOf a in
  if (0 <? List.length aEntries)%nat then
    match lastOf aEntries with
    | Some entry =>
        match date entry with
        | Some d => parseISO d
        | None => parseISO (date_added (base a))
        end
    | None => None (* not reached: the list is not empty *)
    end
  else parseISO (date_added (base a)).

Definition compareLastOutreach (a b : HistoryLead) : CompareResult :=
  match outreachInstant b, outreachInstant a with
  | Some bt, Some at_ => Some (bt - at_)%Z
  | _, _ => None
  end.

(** The date a lead is labelled by: [last?.date ?? lead.date_added]. *)
Definition outreachLabelDate (lead : HistoryLead) : jsstring :=
  match lastOf (historyOf lead) with
  | Some last =>
      match date last with
      | Some d => d
      | None => date_added (base lead)
      end
  | None => date_added (base lead)
  end.

Fixpoint outreachLoop (sorted : list HistoryLead)
  (map : list (jsstring * list HistoryLead))
  : Result (list (jsstring * list HistoryLead)) :=
  match sorted with
  | [] => Ok map
  | lead :: rest =>
      match formatDayHeader (outreachLabelDate lead) with
      | Ok label => outreachLoop rest (bucketPushOf map label lead)
      | Throw e => Throw e
      end
  end.

(** leads.ts, [groupByLastOutreach]. *)
Definition groupByLastOutreach (leads : list HistoryLead)
  : Result (list HistoryGroup) :=
  let sorted := sort compareLastOutreach leads in
  match outreachLoop sorted [] with
  | Ok map =>
      Ok (List.map (fun e => {| historyLabel := fst e;
                                historyLeads := snd e |}) map)
  | Throw e => Throw e
  end.

End LastOutreach.

(** The groups of history leads, read as groups of their base leads. *)
Definition baseGroups (r : Result (list HistoryGroup))
  : Result (list LeadGroup) :=
  match r with
  | Ok groups =>
      Ok (List.map (fun g => {| groupLabel := historyLabel g;
                                groupLeads := List.map base (historyLeads g) |})
            groups)
  | Throw e => Throw e
  end.

Definition baseBuckets (m : list (jsstring * list HistoryLead))
  : list (jsstring * list Lead) :=
  List.map (fun e => (fst e, List.map base (snd e))) m.

(** No lead has a dated last outreach entry. *)
Definition noDatedOutreach (leads : list HistoryLead) : Prop :=
  forall lead entry, In lead leads ->
    lastOf (historyOf lead) = Some entry -> date entry = None.

Section ChatsPage.
Context {engine : Engine} {host : Host}.

(** chats.tsx, [getLastTimelineEntry]. *)
Definition getLastTimelineEntry (lead : HistoryLead)
  : option OutreachHistoryEntry :=
  lastOf (historyOf lead).

(** chats.tsx, [getActivityTimestamp]; [date_added] is a string, so the
    final [?? null] is never taken. *)
Definition getActivityTimestamp (lead : HistoryLead) : jsstring :=
  match last_message_at lead with
  | Some ts => ts
  | None =>
      match getLastTimelineEntry lead with
      | Some entry =>
          match date entry with
          | Some d => d
          | None => date_added (base lead)
          end
      | None => date_added (base lead)
      end
  end.

(** chats.tsx, [getActivityValue]: [ts ? Date.parse(ts) || 0 : 0]. *)
Definition getActivityValue (lead : HistoryLead) : Z :=
  let ts := getActivityTimestamp lead in
  if JsString.truthy ts then
    match DateParse ts with
    | Some t => if (t =? 0)%Z then 0%Z else t
    | None => 0%Z
    end
  else 0%Z.

Definition compareActivity (a b : HistoryLead) : CompareResult :=
  Some (getActivityValue b - getActivityValue a)%Z.

(** chats.tsx, [sortedLeads]. *)
Definition sortedLeads (searchedLeads : list HistoryLead)
  : list HistoryLead :=
  sort compareActivity searchedLeads.

End ChatsPage.

Definition sameActivity {host : Host} (v : Z) (lead : HistoryLead) : bool :=
  (getActivityValue lead =? v)%Z.

(** Two leads without history and one with a later outreach. *)
Definition historyLeads3 : list HistoryLead := [
  {| base := scenarioLead; outreach_history := None;
     last_message_at := None |};
  {| base := rentLead; outreach_history := Some [];
     last_message_at := None |};
  {| base := zoneLead;
     outreach_history :=
       Some [{| date := Some (lit "2024-03-01T10:00:00");
                success := false; note := None |};
             {| date := None; success := true; note := None |}];
     last_message_at := None |}
].

(* ===================================================================== *)
(** * The other handlers of the dashboard page                            *)
(* ===================================================================== *)

(** [set.delete(x)] *)
Definition stringSetDelete (s : StringSet) (x : jsstring) : StringSet :=
  filter (fun y => negb (JsString.eqb y x)) s.

Module DashboardPage.

Import Dashboard.

(** [toggleSelect]: the updater given to [setSelectedIds]. *)
Definition toggle (prev : StringSet) (propertyId : jsstring) : StringSet :=
  if stringSetHas prev propertyId
  then stringSetDelete prev propertyId
  else stringSetAdd prev propertyId.

Definition toggleSelect (propertyId : jsstring)
  : Handler State Event unit :=
  update (fun st => {| multiSelectMode := multiSelectMode st;
                       selectedIds := toggle (selectedIds st) propertyId;
                       pendingIds := pendingIds st;
                       banner := banner st |}).

(** [clearSelection] *)
Definition clearSelection : Handler State Event unit :=
  (setSelectedIds [] ;; setMultiSelectMode false)%handler.

(** The effect on [filteredLeads]: the selection keeps the ids of the
    leads still shown. *)
Definition prune (filteredLeads : list Lead) (prev : StringSet)
  : StringSet :=
  let allowedIds :=
    fold_left stringSetAdd (List.map property_id filteredLeads) [] in
  fold_left (fun next id =>
               if stringSetHas allowedIds id then stringSetAdd next id
               else next)
    prev [].

Definition pruneSelection (filteredLeads : list Lead)
  : Handler State Event unit :=
  update (fun st => {| multiSelectMode := multiSelectMode st;
                       selectedIds := prune filteredLeads (selectedIds st);
                       pendingIds := pendingIds st;
                       banner := banner st |}).

Section SingleSend.
Variable sendOutcome : jsstring -> Result unit.

(** [err instanceof Error ? err.message : "Failed to send WhatsApp."] *)
Definition singleErrorText (e : JsError) : jsstring :=
  match e with
  | ErrorObject _ message => message
  | ThrownValue => lit "Failed to send WhatsApp."
  end.

(** [handleSingleSend]: [try], [catch] and [finally]. *)
Definition handleSingleSend (propertyId : jsstring)
  : Handler State Event unit :=
  (setPendingIds (fun prev => stringSetAdd prev propertyId) ;;
   setBanner None ;;
   r <- awaitSend sendOutcome propertyId ;;
   match r with
   | Ok _ =>
       setBanner (Some {| tone := Success;
                          message := lit "WhatsApp message sent." |}) ;;
       mutate
   | Throw err =>
       setBanner (Some {| tone := Error; message := singleErrorText err |})
   end ;;
   setPendingIds (fun prev => stringSetDelete prev propertyId))%handler.

End SingleSend.

End DashboardPage.

(** A dashboard with two ids selected while another send is pending. *)
Definition busyDashboard : Dashboard.State := {|
  Dashboard.multiSelectMode := true;
  Dashboard.selectedIds := [lit "p1"; lit "z7"];
  Dashboard.pendingIds := [lit "r5"];
  Dashboard.banner := None;
|}.

(* ===================================================================== *)
(** * The transport wrapper (lib/api.ts, [request])                       *)
(* ===================================================================== *)

Module Api.

(** What [request] reads of a [Response]; [json] is the outcome of
    [response.json()]. *)
Record Response : Type := {
  ok : bool;
  status : Z;
  statusText : jsstring;
  json : Result JsValue;
}.

(** The [ApiError] the wrapper throws. *)
Record ApiError : Type := {
  message : jsstring;
  errorStatus : Z;
  payload : JsValue;
}.

(** How the promise of [request] settles: with a value, with an
    [ApiError], or with whatever [fetch] or [response.json()] threw. *)
Inductive Settled : Type :=
| Resolved (value : JsValue)
| RejectedApi (error : ApiError)
| Rejected (error : JsError).

(** [payload?.error] *)
Definition errorField (payload : JsValue) : JsValue :=
  match payload with
  | JObject fields => getField fields (lit "error")
  | _ => JUndefined
  end.

Definition nullish (v : JsValue) : bool :=
  match v with
  | JUndefined | JNull => true
  | _ => false
  end.

Section Request.
Context {host : Host}.

(** [payload?.error ?? response.statusText ?? "Request failed"], as the
    message [new Error] gives it; [statusText] is a string, so the last
    alternative is never taken. *)
Definition errorMessage (payload : JsValue) (response : Response)
  : jsstring :=
  if nullish (errorField payload) then statusText response
  else ToString (errorField payload).

(** [request], given how [fetch] settled. *)
Definition request (fetched : Result Response) : Settled :=
  match fetched with
  | Throw e => Rejected e
  | Ok response =>
      if negb (ok response) then
        let payload :=
          match json response with
          | Ok body => body
          | Throw _ => JUndefined
          end in
        RejectedApi {| message := errorMessage payload response;
                       errorStatus := status response;
                       payload := payload |}
      else if (status response =? 204)%Z then Resolved JUndefined
      else
        match json response with
        | Ok body => Resolved body
        | Throw e => Rejected e
        end
  end.

(** [sendWhatsApp(id)], as the handlers await it: the value is dropped,
    and an [ApiError] is an [Error] with its message. *)
Definition sendWhatsAppVia (fetched : jsstring -> Result Response)
  (propertyId : jsstring) : Result unit :=
  match request (fetched propertyId) with
  | Resolved _ => Ok tt
  | RejectedApi e => Throw (ErrorObject (lit "Error") (message e))
  | Rejected e => Throw e
  end.

End Request.

End Api.

(** A backend that refuses every send with a JSON error body, and one
    that accepts with a body that is not JSON. *)
Definition refusingBackend (id : jsstring) : Result Api.Response :=
  Ok {| Api.ok := false;
        Api.status := 422;
        Api.statusText := lit "Unprocessable Entity";
        Api.json := Ok (JObject [(lit "error", JString (lit "No phone"))]) |}.

Definition syntaxError : JsError :=
  ErrorObject (lit "SyntaxError") (lit "Unexpected end of JSON input").

Definition emptyBodyBackend (id : jsstring) : Result Api.Response :=
  Ok {| Api.ok := true;
        Api.status := 200;
        Api.statusText := lit "OK";
        Api.json := Throw syntaxError |}.

(* ===================================================================== *)
(** * The route guard (middleware.ts)                                     *)
(* ===================================================================== *)

Module Middleware.

Definition AUTH_COOKIE : jsstring := lit "crmrebs_token".
Definition PUBLIC_PATHS : list jsstring := [lit "/login"].

(** [s.startsWith(prefix)] *)
Fixpoint startsWith (s prefix : jsstring) : bool :=
  match prefix, s with
  | [], _ => true
  | p :: prefix', c :: s' => (c =? p)%N && startsWith s' prefix'
  | _ :: _, [] => false
  end.

Definition isLineTerminator (c : N) : bool :=
  ((c =? 10) || (c =? 13) || (c =? 8232) || (c =? 8233))%N.

(** [PUBLIC_FILE.test(s)]; the pattern is a literal dot, then any run of
    characters other than line terminators, then the end of the input: some
    dot is followed, up to the end of the string, by no line terminator. *)
Fixpoint publicFile (s : jsstring) : bool :=
  match s with
  | [] => false
  | c :: s' =>
      ((c =? 46)%N && forallb (fun d => negb (isLineTerminator d)) s')
      || publicFile s'
  end.

(** [s.split(sep)] for a one-character separator. *)
Fixpoint splitOn (sep : N) (s : jsstring) : list jsstring :=
  match s with
  | [] => [[]]
  | c :: s' =>
      if (c =? sep)%N then [] :: splitOn sep s'
      else
        match splitOn sep s' with
        | segment :: segments => (c :: segment) :: segments
        | [] => [[c]]
        end
  end.

(** [payload.replace(/-/g, "+").replace(/_/g, "/")] *)
Definition toBase64 (payload : jsstring) : jsstring :=
  List.map (fun c => if (c =? 95)%N then 47%N else c)
    (List.map (fun c => if (c =? 45)%N then 43%N else c) payload).

(** [base64.padEnd(base64.length + ((4 - (base64.length % 4)) % 4), "=")] *)
Definition padded (base64 : jsstring) : jsstring :=
  base64
  ++ repeat 61%N ((4 - List.length base64 mod 4) mod 4)%nat.

(** [decoded?.exp] *)
Definition expOf (decoded : JsValue) : JsValue :=
  match decoded with
  | JObject fields => getField fields (lit "exp")
  | _ => JUndefined
  end.

Section Guard.
Context {host : Host}.
(** [JSON.parse(atob(s))], which throws on text that is not base64 or not
    JSON. *)
Variable decode : jsstring -> Result JsValue.
(** [Date.now()] *)
Variable now : number.

Definition isJwtExpired (token : jsstring) : bool :=
  match nth_error (splitOn 46 token) 1 with
  | None => true
  | Some payload =>
      if negb (JsString.truthy payload) then true
      else
        match decode (padded (toBase64 payload)) with
        | Throw _ => true
        | Ok decoded =>
            if negb (ToBoolean (expOf decoded)) then false
            else
              JsNumber.lt
                (PrimFloat.mul (ToNumber (expOf decoded)) (JsNumber.ofZ 1000))
                now
        end
  end.

Inductive Response : Type :=
| Next
| Redirect (pathname : jsstring) (deleteCookie : bool).

(** The paths the guard lets through unseen. *)
Definition exempt (pathname : jsstring) : bool :=
  startsWith pathname (lit "/_next")
  || startsWith pathname (lit "/api")
  || startsWith pathname (lit "/static")
  || JsString.eqb pathname (lit "/favicon.ico")
  || publicFile pathname.

(** [middleware], on the path of the request and the value of its auth
    cookie. *)
Definition middleware (pathname : jsstring) (cookie : option jsstring)
  : Response :=
  if exempt pathname then Next
  else
    match cookie with
    | Some token =>
        if negb (JsString.truthy token) then
          if existsb (JsString.eqb pathname) PUBLIC_PATHS then Next
          else Redirect (lit "/login") false
        else if isJwtExpired token then Redirect (lit "/login") true
        else if JsString.eqb pathname (lit "/login")
             then Redirect (lit "/") false
             else Next
    | None =>
        if existsb (JsString.eqb pathname) PUBLIC_PATHS then Next
        else Redirect (lit "/login") false
    end.

End Guard.

End Middleware.

(** The cookie the browser sends after a response of the guard. *)
Definition cookieAfter (cookie : option jsstring) (deleteCookie : bool)
  : option jsstring :=
  if deleteCookie then None else cookie.

(** A decoder that reads every payload as the claims [{exp: 1700000000}],
    and a token with three segments. *)
Definition fixedClaims (s : jsstring) : Result JsValue :=
  Ok (JObject [(lit "exp", JNumber (JsNumber.ofZ 1700000000))]).

Definition sampleToken : jsstring := lit "hdr.pay-lo_d.sig".

(* ===================================================================== *)
(** * Widening a budget                                                   *)
(* ===================================================================== *)

(** [filters] with other budget bounds. *)
Definition withBudget (filters : LeadFilters) (lo hi : option number)
  : LeadFilters := {|
  propertyTypes := propertyTypes filters;
  regionId := regionId filters;
  zoneId := zoneId filters;
  transaction := transaction filters;
  rooms := rooms filters;
  minBudget := lo;
  maxBudget := hi;
  dateFrom := dateFrom filters;
  dateTo := dateTo filters;
|}.

(** A second lead for sale, dearer than [scenarioLead]. *)
Definition dearLead : Lead := {|
  property_id := lit "p2";
  date_added := lit "2024-01-02";
  crm_raw := Some [(lit "property_type", JNumber (JsNumber.ofZ 1));
                   (lit "for_sale", JBool true);
                   (lit "price_sale", JNumber (JsNumber.ofZ 140000))];
|}.

(** The new lower bound asks no more than the old one: it is dropped, or
    it is at most the old bound. *)
Definition lowerLoosened (old new : option number) : Prop :=
  match new with
  | None => True
  | Some lo' => exists lo, old = Some lo /\ JsNumber.le lo' lo = true
  end.

(** The new upper bound asks no more than the old one. *)
Definition upperLoosened (old new : option number) : Prop :=
  match new with
  | None => True
  | Some hi' => exists hi, old = Some hi /\ JsNumber.le hi hi' = true
  end.

Unset Implicit Arguments.

(* ===================================================================== *)
(** * Facts about strings                                                 *)
(* ===================================================================== *)

Lemma str_eqb_eq (a b : jsstring) : JsString.eqb a b = true <-> a = b.
Proof.
  unfold JsString.eqb.
  destruct (list_eq_dec N.eq_dec a b); split; congruence.
Qed.

Lemma str_eqb_neq (a b : jsstring) : JsString.eqb a b = false <-> a <> b.
Proof.
  unfold JsString.eqb.
  destruct (list_eq_dec N.eq_dec a b); split; congruence.
Qed.

Lemma str_eqb_refl (a : jsstring) : JsString.eqb a a = true.
Proof. now apply str_eqb_eq. Qed.

(* ===================================================================== *)
(** * Facts about numbers                                                 *)
(* ===================================================================== *)

Lemma SFcompare_swap x y c :
  SFcompare x y = Some c -> SFcompare y x = Some (CompOpp c).
Proof.
  destruct x as [sx|sx| |sx mx ex], y as [sy|sy| |sy my ey]; simpl;
    try discriminate;
    try (destruct sx; intros [= <-]; reflexivity);
    try (destruct sy; intros [= <-]; reflexivity);
    try (intros [= <-]; reflexivity).
  - destruct sx, sy; intros [= <-]; reflexivity.
  - destruct sx, sy; intros [= <-]; try reflexivity;
      rewrite (Z.compare_antisym ex ey);
      destruct (ex ?= ey)%Z; simpl; try reflexivity;
      rewrite !Pos.compare_cont_spec; simpl;
      rewrite (Pos.compare_antisym mx my);
      destruct (mx ?= my)%positive; reflexivity.
Qed.

Lemma isNaN_false_spec x :
  JsNumber.isNaN x = false -> Prim2SF x <> S754_nan.
Proof.
  unfold JsNumber.isNaN, PrimFloat.is_nan.
  rewrite FloatAxioms.eqb_spec. intros H E. rewrite E in H. discriminate.
Qed.

Lemma SFcompare_total x y :
  x <> S754_nan -> y <> S754_nan -> exists c, SFcompare x y = Some c.
Proof.
  destruct x, y; simpl; intros; try congruence; eauto.
Qed.

(** For numbers that are not NaN, [a >= b] is the negation of [a < b]. *)
Lemma ge_iff_not_lt a b :
  JsNumber.isNaN a = false -> JsNumber.isNaN b = false ->
  (JsNumber.ge a b = true <-> JsNumber.lt a b = false).
Proof.
  intros Ha Hb. apply isNaN_false_spec in Ha. apply isNaN_false_spec in Hb.
  unfold JsNumber.ge, JsNumber.lt.
  rewrite FloatAxioms.leb_spec, FloatAxioms.ltb_spec.
  unfold SFleb, SFltb.
  destruct (SFcompare_total _ _ Ha Hb) as [c Hc].
  rewrite Hc, (SFcompare_swap _ _ _ Hc).
  destruct c; simpl; split; congruence.
Qed.

Lemma le_iff_not_gt a b :
  JsNumber.isNaN a = false -> JsNumber.isNaN b = false ->
  (JsNumber.le a b = true <-> JsNumber.gt a b = false).
Proof.
  intros Ha Hb. apply (ge_iff_not_lt b a Hb Ha).
Qed.

Lemma isFinite_not_NaN x :
  JsNumber.isFinite x = true -> JsNumber.isNaN x = false.
Proof.
  unfold JsNumber.isFinite, PrimFloat.is_finite, JsNumber.isNaN.
  destruct (PrimFloat.is_nan x); simpl; congruence.
Qed.

Section CoercionFacts.
Context {host : Host}.

(** What [toNumber] returns is a finite number. *)
Lemma toNumber_finite v n :
  toNumber v = Some n -> JsNumber.isFinite n = true.
Proof.
  unfold toNumber.
  destruct v as [| |b|x|s|items|fields]; try discriminate;
    try (destruct s; try discriminate);
    match goal with
    | |- context [JsNumber.isFinite ?e] =>
        destruct (JsNumber.isFinite e) eqn:F
    end; intros [= <-]; exact F.
Qed.

Lemma toNumber_not_NaN v n : toNumber v = Some n -> JsNumber.isNaN n = false.
Proof.
  intros H. apply isFinite_not_NaN. eapply toNumber_finite; eauto.
Qed.

End CoercionFacts.

(* ===================================================================== *)
(** * The filter predicate                                                *)
(* ===================================================================== *)

Section FilterFacts.
Context {host : Host}.

Lemma leadPasses_default lead : leadPasses DEFAULT_LEAD_FILTERS lead = true.
Proof. reflexivity. Qed.

Lemma filter_all_true {A} (f : A -> bool) (l : list A) :
  (forall x, f x = true) -> filter f l = l.
Proof.
  intros H. induction l as [|x l IH]; simpl; [reflexivity|].
  now rewrite H, IH.
Qed.

Lemma filter_Subsequence {A} (f : A -> bool) (l : list A) :
  Subsequence (filter f l) l.
Proof.
  induction l as [|x l IH]; simpl.
  - constructor.
  - destruct (f x); now constructor.
Qed.

Lemma Subsequence_refl {A} (l : list A) : Subsequence l l.
Proof. induction l; now constructor. Qed.

Lemma Subsequence_In {A} (xs ys : list A) :
  Subsequence xs ys -> forall x, In x xs -> In x ys.
Proof.
  induction 1; simpl; intros z Hz; auto.
  destruct Hz; auto.
Qed.

Lemma Subsequence_NoDup {A} (xs ys : list A) :
  Subsequence xs ys -> NoDup ys -> NoDup xs.
Proof.
  induction 1; intros Hnd; auto.
  - inversion Hnd; auto.
  - inversion Hnd as [|? ? Hx Hys]; subst. constructor; auto.
    intro Hin. apply Hx. eapply Subsequence_In; eauto.
Qed.

Lemma applyLeadFilters_filter leads filters :
  applyLeadFilters leads filters = filter (leadPasses filters) leads.
Proof. destruct leads; reflexivity. Qed.

End FilterFacts.

(** C1. With the default filter specification every clause is inactive:
    [applyLeadFilters leads DEFAULT_LEAD_FILTERS] returns the input list,
    whatever the leads are. *)
Theorem applyLeadFilters_default (host : Host) (leads : list Lead) :
  applyLeadFilters leads DEFAULT_LEAD_FILTERS = leads.
Proof.
  rewrite applyLeadFilters_filter.
  apply filter_all_true. intros lead. apply leadPasses_default.
Qed.

(** C10. The result of [applyLeadFilters] is a subsequence of its input:
    the surviving leads keep their relative order, every returned lead is a
    lead of the input, and none is repeated more often than in the input
    (no repetition at all when the input has none). *)
Theorem applyLeadFilters_subsequence
  (host : Host) (leads : list Lead) (filters : LeadFilters) :
  Subsequence (applyLeadFilters leads filters) leads
  /\ (forall lead, In lead (applyLeadFilters leads filters) ->
        In lead leads /\ leadPasses filters lead = true)
  /\ (forall lead, In lead leads -> leadPasses filters lead = true ->
        In lead (applyLeadFilters leads filters))
  /\ (List.length (applyLeadFilters leads filters) <= List.length leads)%nat
  /\ (NoDup leads -> NoDup (applyLeadFilters leads filters)).
Proof.
  rewrite applyLeadFilters_filter.
  pose proof (filter_Subsequence (leadPasses filters) leads) as Hsub.
  repeat split.
  - exact Hsub.
  - apply filter_In in H. tauto.
  - apply filter_In in H. tauto.
  - intros lead Hin Hp. apply filter_In. tauto.
  - apply filter_length_le.
  - intros Hnd. eapply Subsequence_NoDup; eauto.
Qed.

(* ===================================================================== *)
(** * The budget clause                                                   *)
(* ===================================================================== *)

Section BudgetFacts.
Context {host : Host}.
Variable filters : LeadFilters.
Hypothesis bounds : boundsAreNumbers filters.

Lemma withinRange_iff_spec (price : option number) :
  (forall p, price = Some p -> JsNumber.isNaN p = false) ->
  (withinRange filters price = true <-> withinRangeSpec filters price).
Proof.
  destruct bounds as [Hlo Hhi]. intros Hp.
  unfold withinRange, withinRangeSpec.
  destruct price as [p|].
  2:{ split; [discriminate|]. intros (p & E & _). discriminate. }
  specialize (Hp p eq_refl).
  destruct (minBudget filters) as [lo|] eqn:Elo;
    destruct (maxBudget filters) as [hi|] eqn:Ehi.
  - pose proof (ge_iff_not_lt p lo Hp (Hlo lo eq_refl)) as G.
    pose proof (le_iff_not_gt p hi Hp (Hhi hi eq_refl)) as L.
    destruct (JsNumber.lt p lo), (JsNumber.gt p hi); split;
      try discriminate; try reflexivity;
      try (intros _; exists p; repeat split;
           intros ? [= <-]; tauto);
      intros (q & [= <-] & A & B);
      specialize (A lo eq_refl); specialize (B hi eq_refl);
      destruct G as [G1 G2], L as [L1 L2];
      try (specialize (G1 A); discriminate);
      try (specialize (L1 B); discriminate).
  - pose proof (ge_iff_not_lt p lo Hp (Hlo lo eq_refl)) as G.
    destruct (JsNumber.lt p lo); split;
      try discriminate; try reflexivity.
    + intros (q & [= <-] & A & B). specialize (A lo eq_refl).
      destruct G as [G1 _]. specialize (G1 A). discriminate.
    + intros _. exists p. repeat split.
      * intros ? [= <-]. tauto.
      * intros ? [=].
  - pose proof (le_iff_not_gt p hi Hp (Hhi hi eq_refl)) as L.
    destruct (JsNumber.gt p hi); split;
      try discriminate; try reflexivity.
    + intros (q & [= <-] & A & B). specialize (B hi eq_refl).
      destruct L as [L1 _]. specialize (L1 B). discriminate.
    + intros _. exists p. repeat split.
      * intros ? [=].
      * intros ? [= <-]. tauto.
  - split; [|reflexivity]. intros _. exists p. repeat split; intros ? [=].
Qed.

Lemma withinRange_toNumber (v : JsValue) :
  withinRange filters (toNumber v) = true
  <-> withinRangeSpec filters (toNumber v).
Proof.
  apply withinRange_iff_spec. intros p Hp. eapply toNumber_not_NaN; eauto.
Qed.

Lemma matchesBudget_iff_spec (raw : Raw) :
  matchesBudget filters raw = true <-> budgetSpec filters raw.
Proof.
  unfold matchesBudget, budgetSpec, saleSelected, rentSelected.
  pose proof (withinRange_toNumber (getField raw (lit "price_sale"))) as S.
  pose proof (withinRange_toNumber (getField raw (lit "price_rent"))) as R.
  destruct (sale (transaction filters)), (rent (transaction filters)); simpl;
    rewrite ?orb_true_iff; tauto.
Qed.

End BudgetFacts.

(** C2. The budget clause. With bounds that are numbers: a price read from
    [crm_raw] is within range iff it is present, at least [minBudget] when
    that is set and at most [maxBudget] when that is set; the clause is
    inactive when neither bound is set; when active it lets a lead pass iff
    the sale price is within range (only sale selected), the rent price is
    (only rent selected), or either is (both or neither selected). The two
    scenarios: the lead p1 passes the filter with bounds 50000..150000 and
    is filtered out with bounds 50000..90000. *)
Theorem budget_clause_spec
  (host : Host) (filters : LeadFilters) (raw : Raw)
  (bounds : boundsAreNumbers filters) :
  (forall v : JsValue,
      withinRange filters (toNumber v) = true
      <-> withinRangeSpec filters (toNumber v))
  /\ (hasBudget filters = false -> budgetRejects filters raw = false)
  /\ (hasBudget filters = true ->
        (budgetRejects filters raw = false <-> budgetSpec filters raw))
  /\ applyLeadFilters [scenarioLead] (scenarioFilters 150000) = [scenarioLead]
  /\ applyLeadFilters [scenarioLead] (scenarioFilters 90000) = [].
Proof.
  split; [|split; [|split; [|split]]].
  - intros v. now apply withinRange_toNumber.
  - unfold budgetRejects. now intros ->.
  - unfold budgetRejects. intros ->.
    rewrite negb_false_iff. now apply matchesBudget_iff_spec.
  - reflexivity.
  - reflexivity.
Qed.

Lemma scenario_bounds (hi : Z) :
  JsNumber.isNaN (JsNumber.ofZ hi) = false ->
  boundsAreNumbers (scenarioFilters hi).
Proof.
  intros H. split; intros ? [= <-]; [reflexivity | exact H].
Qed.

(** The first scenario as an instance of the theorem: on the reference host
    the sale price 100000 of p1 is within 50000..150000, so the active
    budget clause does not reject p1. *)
Lemma budget_clause_spec_witness :
  boundsAreNumbers (scenarioFilters 150000)
  /\ budgetRejects (host := Reference.host)
       (scenarioFilters 150000) (rawOf scenarioLead) = false
  /\ budgetSpec (host := Reference.host)
       (scenarioFilters 150000) (rawOf scenarioLead).
Proof.
  pose proof (scenario_bounds 150000 eq_refl) as B.
  pose proof (budget_clause_spec Reference.host (scenarioFilters 150000)
                (rawOf scenarioLead) B) as T.
  split; [exact B|].
  split; [reflexivity|].
  apply (proj1 (proj1 (proj2 (proj2 T)) eq_refl)). reflexivity.
Defined.

(* ===================================================================== *)
(** * The region clause                                                   *)
(* ===================================================================== *)

Section RegionFacts.
Context {host : Host}.

(** What the region block computes: the id must be numeric, equal to the
    wanted id, and truthy. *)
Lemma regionRejects_iff (filters : LeadFilters) (wanted : number) (raw : Raw) :
  regionId filters = Some wanted ->
  (regionRejects filters raw = false
   <-> exists r, toNumber (getField raw (lit "region_obj_id")) = Some r
         /\ JsNumber.strictEq r wanted = true
         /\ JsNumber.truthy r = true).
Proof.
  intros E. unfold regionRejects. rewrite E.
  destruct (toNumber (getField raw (lit "region_obj_id"))) as [r|].
  - rewrite orb_false_iff, !negb_false_iff. split.
    + intros [A B]. exists r. auto.
    + intros (q & [= <-] & A & B). auto.
  - split; [discriminate|]. intros (q & [=] & _).
Qed.

(** Away from zero the block is the exact match of the specification. *)
Lemma regionRejects_nonzero (filters : LeadFilters) (wanted : number) (raw : Raw) :
  regionId filters = Some wanted ->
  JsNumber.truthy wanted = true ->
  (regionRejects filters raw = false <-> regionSpec wanted raw).
Proof.
  intros E Hw. rewrite (regionRejects_iff filters wanted raw E).
  unfold regionSpec. split.
  - intros (r & A & B & _). eauto.
  - intros (r & A & B). exists r. repeat split; auto.
    unfold JsNumber.truthy, JsNumber.strictEq in *.
    pose proof (toNumber_not_NaN _ _ A) as N. rewrite N, orb_false_r.
    destruct (PrimFloat.eqb r 0) eqn:Z0; [|reflexivity].
    exfalso.
    rewrite negb_true_iff, orb_false_iff in Hw.
    destruct Hw as [Hw0 HwN].
    revert B Z0 Hw0. rewrite !FloatAxioms.eqb_spec.
    unfold SFeqb.
    change (Prim2SF 0) with (S754_zero false).
    destruct (Prim2SF r) as [sr|sr| |sr mr er],
             (Prim2SF wanted) as [sw|sw| |sw mw ew];
      simpl; try discriminate;
      try (destruct sr; discriminate); try (destruct sw; discriminate).
Qed.

End RegionFacts.

(** C6, at the id 0. The lead's [region_obj_id] is the number 0, the
    filter asks for region 0, the two are strictly equal, and the region
    block still rejects the lead: [!regionId] is true of 0, so the
    filtered list is empty. *)
Theorem region_zero_is_rejected (host : Host) :
  toNumber (getField (rawOf regionZeroLead) (lit "region_obj_id"))
    = Some (JsNumber.ofZ 0)
  /\ JsNumber.strictEq (JsNumber.ofZ 0) (JsNumber.ofZ 0) = true
  /\ regionSpec (JsNumber.ofZ 0) (rawOf regionZeroLead)
  /\ regionRejects (regionFilter (JsNumber.ofZ 0)) (rawOf regionZeroLead)
       = true
  /\ applyLeadFilters [regionZeroLead] (regionFilter (JsNumber.ofZ 0)) = [].
Proof.
  repeat split.
  exists (JsNumber.ofZ 0). split; reflexivity.
Qed.

(* ===================================================================== *)
(** * The bulk send                                                       *)
(* ===================================================================== *)

Section BulkSendFacts.
Variable sendOutcome : jsstring -> Result unit.

Lemma attempts_app (l1 l2 : list Dashboard.Event) :
  attempts (l1 ++ l2) = attempts l1 ++ attempts l2.
Proof.
  induction l1 as [|e l1 IH]; simpl; [reflexivity|].
  destruct e; simpl; now rewrite IH.
Qed.

Lemma refreshes_app (l1 l2 : list Dashboard.Event) :
  refreshes (l1 ++ l2) = (refreshes l1 + refreshes l2)%nat.
Proof. unfold refreshes. now rewrite filter_app, length_app. Qed.

Lemma outcome_counts (ids : list jsstring) :
  (successesOf sendOutcome ids + failuresOf sendOutcome ids)%nat
  = List.length ids.
Proof.
  unfold successesOf, failuresOf.
  induction ids as [|id ids IH]; simpl; [reflexivity|].
  destruct (resolved (sendOutcome id)); simpl; lia.
Qed.

Lemma attempts_oneByOne (ids : list jsstring) :
  attempts (oneByOne sendOutcome ids) = ids.
Proof. unfold oneByOne. induction ids; simpl; congruence. Qed.

Lemma refreshes_oneByOne (ids : list jsstring) :
  refreshes (oneByOne sendOutcome ids) = 0%nat.
Proof. unfold oneByOne. induction ids; simpl; auto. Qed.

Lemma sequential_oneByOne (ids : list jsstring) (rest : list Dashboard.Event) :
  sequential (oneByOne sendOutcome ids ++ rest) None = sequential rest None.
Proof.
  unfold oneByOne. induction ids as [|id ids IH]; [reflexivity|].
  cbn [List.map List.concat app sequential].
  now rewrite str_eqb_refl.
Qed.

(** The loop issues one request per id, in order, each only when the one
    before has settled, whatever the outcomes, and counts each outcome
    once. *)
Lemma sendLoop_run (ids : list jsstring) :
  forall (s f : nat) (st : Dashboard.State) (log : list Dashboard.Event),
    Dashboard.sendLoop sendOutcome ids s f (st, log)
    = ((s + successesOf sendOutcome ids, f + failuresOf sendOutcome ids)%nat,
       (st, log ++ oneByOne sendOutcome ids)).
Proof.
  induction ids as [|id ids IH]; intros s f st log.
  - simpl. unfold ret, successesOf, failuresOf, oneByOne. simpl.
    now rewrite !Nat.add_0_r, app_nil_r.
  - simpl.
    unfold bind, Dashboard.awaitSend, bind, Dashboard.sendWhatsApp, bind,
      emit, ret.
    simpl.
    unfold successesOf, failuresOf, oneByOne in *. simpl.
    destruct (sendOutcome id) as [u|e]; simpl; rewrite IH; simpl;
      rewrite <- !app_assoc; simpl; f_equal; f_equal; lia.
Qed.

(** With nothing selected the handler returns at once. *)
Lemma handleBulkSend_nothing_selected (st : Dashboard.State) :
  Dashboard.selectedIds st = [] ->
  run (Dashboard.handleBulkSend sendOutcome) st = (tt, (st, [])).
Proof.
  intros E. unfold run, Dashboard.handleBulkSend, bind, getState. simpl.
  now rewrite E.
Qed.

(** The whole run of the handler on a non-empty selection. *)
Lemma handleBulkSend_run (st : Dashboard.State) :
  Dashboard.selectedIds st <> [] ->
  run (Dashboard.handleBulkSend sendOutcome) st
  = (tt,
     ({| Dashboard.multiSelectMode := false;
         Dashboard.selectedIds := [];
         Dashboard.pendingIds := [];
         Dashboard.banner :=
           Some (if (failuresOf sendOutcome (Dashboard.selectedIds st) =? 0)%nat
                 then Dashboard.successBanner
                        (successesOf sendOutcome (Dashboard.selectedIds st))
                 else Dashboard.failureBanner
                        (successesOf sendOutcome (Dashboard.selectedIds st))
                        (failuresOf sendOutcome (Dashboard.selectedIds st))) |},
      oneByOne sendOutcome (Dashboard.selectedIds st)
      ++ (if (0 <? successesOf sendOutcome (Dashboard.selectedIds st))%nat
          then [Dashboard.MutateLeads] else []))).
Proof.
  intros selected.
  unfold run, Dashboard.handleBulkSend, bind, getState. cbn [fst snd].
  destruct (Dashboard.selectedIds st) as [|id0 rest] eqn:E;
    [contradiction|].
  cbn [List.length Nat.eqb].
  unfold Dashboard.setBanner, Dashboard.setPendingIds, update.
  cbn [fst snd].
  rewrite sendLoop_run. cbn [Nat.add app].
  destruct (0 <? successesOf sendOutcome (id0 :: rest))%nat;
    unfold Dashboard.mutate, emit, ret, Dashboard.setSelectedIds,
      Dashboard.setMultiSelectMode, update; cbn [fst snd app];
    destruct (failuresOf sendOutcome (id0 :: rest) =? 0)%nat;
    cbn [fst snd app Dashboard.multiSelectMode Dashboard.selectedIds
         Dashboard.pendingIds Dashboard.banner];
    rewrite ?app_nil_r; reflexivity.
Qed.

End BulkSendFacts.

(** The reading [sequential] is not met by a log in which a second
    request goes out before the first has settled. *)
Lemma sequential_rejects_overlap :
  sequential [Dashboard.SendWhatsApp (lit "a");
              Dashboard.SendWhatsApp (lit "b");
              Dashboard.SendSettled (lit "a") true;
              Dashboard.SendSettled (lit "b") true] None = false.
Proof. reflexivity. Qed.

(** C3. A bulk send over the selected ids [ids] (at least one).
    The requests go out one by one, in the order of [ids]: the log is, for
    each id in turn, the request and then its settlement, so no request is
    issued while another is outstanding, and a rejected request is followed
    by the next one all the same: every id is attempted.
    The counters the loop ends with are the true numbers of resolved and
    rejected requests, which add up to the number of ids, and the banner
    reports them: "Sent s WhatsApp message(s)." when none failed, "Sent s
    messages, f failed." otherwise.
    Afterwards the pending set and the selection are empty. The leads are
    refreshed once, after the last settlement, when at least one request
    resolved, and not at all otherwise. *)
Theorem handleBulkSend_spec
  (sendOutcome : jsstring -> Result unit) (st : Dashboard.State)
  (selected : Dashboard.selectedIds st <> []) :
  let ids := Dashboard.selectedIds st in
  let successCount := successesOf sendOutcome ids in
  let failureCount := failuresOf sendOutcome ids in
  let st' := fst (snd (run (Dashboard.handleBulkSend sendOutcome) st)) in
  let log := snd (snd (run (Dashboard.handleBulkSend sendOutcome) st)) in
  log = oneByOne sendOutcome ids
        ++ (if (0 <? successCount)%nat then [Dashboard.MutateLeads] else [])
  /\ sequential log None = true
  /\ attempts log = ids
  /\ (forall st0 log0,
        fst (Dashboard.sendLoop sendOutcome ids 0 0 (st0, log0))
        = (successCount, failureCount))
  /\ (successCount + failureCount)%nat = List.length ids
  /\ Dashboard.banner st'
     = Some (if (failureCount =? 0)%nat
             then {| Dashboard.tone := Dashboard.Success;
                     Dashboard.message := sentText successCount |}
             else {| Dashboard.tone := Dashboard.Error;
                     Dashboard.message :=
                       failedText successCount failureCount |})
  /\ Dashboard.pendingIds st' = []
  /\ Dashboard.selectedIds st' = []
  /\ Dashboard.multiSelectMode st' = false
  /\ refreshes log = (if (0 <? successCount)%nat then 1 else 0)%nat.
Proof.
  intros ids successCount failureCount st' log.
  pose proof (handleBulkSend_run sendOutcome st selected) as R.
  fold ids in R. fold successCount failureCount in R.
  subst st' log. rewrite R. cbn [fst snd].
  split; [reflexivity|].
  split; [rewrite sequential_oneByOne;
          now destruct (0 <? successCount)%nat|].
  split.
  { rewrite attempts_app, attempts_oneByOne.
    destruct (0 <? successCount)%nat; simpl; now rewrite app_nil_r. }
  split; [intros st0 log0; now rewrite sendLoop_run|].
  split; [apply outcome_counts|].
  split; [now destruct (failureCount =? 0)%nat|].
  split; [reflexivity|]. split; [reflexivity|]. split; [reflexivity|].
  rewrite refreshes_app, refreshes_oneByOne.
  destruct (0 <? successCount)%nat; reflexivity.
Qed.

(** Four instances of the theorem. Three ids of which the second fails:
    the three requests go out one by one, the banner reads "Sent 2
    messages, 1 failed.", one refresh follows the last settlement, and
    nothing is left pending or selected. Three ids that all fail: all three
    are attempted, the banner reads "Sent 0 messages, 3 failed.", and no
    refresh is made. Three ids that all resolve: "Sent 3 WhatsApp
    messages." and one refresh. One id, sent while another id is pending:
    "Sent 1 WhatsApp message.", and nothing is left pending. *)
Lemma handleBulkSend_spec_witness :
  (let r := run (Dashboard.handleBulkSend secondFails) threeSelected in
   snd (snd r)
   = [Dashboard.SendWhatsApp (lit "a"); Dashboard.SendSettled (lit "a") true;
      Dashboard.SendWhatsApp (lit "b"); Dashboard.SendSettled (lit "b") false;
      Dashboard.SendWhatsApp (lit "c"); Dashboard.SendSettled (lit "c") true;
      Dashboard.MutateLeads]
   /\ Dashboard.banner (fst (snd r))
      = Some {| Dashboard.tone := Dashboard.Error;
                Dashboard.message := lit "Sent 2 messages, 1 failed." |}
   /\ Dashboard.pendingIds (fst (snd r)) = []
   /\ Dashboard.selectedIds (fst (snd r)) = []
   /\ refreshes (snd (snd r)) = 1%nat)
  /\ (let r := run (Dashboard.handleBulkSend allFail) threeSelected in
      attempts (snd (snd r)) = threeIds
      /\ Dashboard.banner (fst (snd r))
         = Some {| Dashboard.tone := Dashboard.Error;
                   Dashboard.message := lit "Sent 0 messages, 3 failed." |}
      /\ refreshes (snd (snd r)) = 0%nat)
  /\ (let r := run (Dashboard.handleBulkSend allResolve) threeSelected in
      Dashboard.banner (fst (snd r))
      = Some {| Dashboard.tone := Dashboard.Success;
                Dashboard.message := lit "Sent 3 WhatsApp messages." |}
      /\ refreshes (snd (snd r)) = 1%nat)
  /\ (let r := run (Dashboard.handleBulkSend allResolve) oneSelected in
      Dashboard.banner (fst (snd r))
      = Some {| Dashboard.tone := Dashboard.Success;
                Dashboard.message := lit "Sent 1 WhatsApp message." |}
      /\ Dashboard.pendingIds (fst (snd r)) = []).
Proof.
  assert (N : Dashboard.selectedIds threeSelected <> []) by discriminate.
  assert (N1 : Dashboard.selectedIds oneSelected <> []) by discriminate.
  pose proof (handleBulkSend_spec secondFails threeSelected N) as T.
  pose proof (handleBulkSend_spec allFail threeSelected N) as U.
  pose proof (handleBulkSend_spec allResolve threeSelected N) as V.
  pose proof (handleBulkSend_spec allResolve oneSelected N1) as W.
  cbv zeta in T, U, V, W.
  destruct T as (L & _ & _ & _ & _ & B & P & S & _ & R).
  destruct U as (_ & _ & A' & _ & _ & B' & _ & _ & _ & R').
  destruct V as (_ & _ & _ & _ & _ & B2 & _ & _ & _ & R2).
  destruct W as (_ & _ & _ & _ & _ & B3 & P3 & _).
  cbv zeta.
  exact (conj (conj L (conj B (conj P (conj S R))))
           (conj (conj A' (conj B' R'))
              (conj (conj B2 R2) (conj B3 P3)))).
Defined.

(* ===================================================================== *)
(** * The conversation reply                                              *)
(* ===================================================================== *)

Lemma trimStart_nil_iff (s : jsstring) :
  JsString.trimStart s = [] <-> blank s = true.
Proof.
  unfold blank. induction s as [|c s IH]; simpl; [tauto|].
  destruct (JsString.isWhiteSpace c); simpl; [exact IH|].
  split; discriminate.
Qed.

Lemma blank_app (s t : jsstring) : blank (s ++ t) = blank s && blank t.
Proof. unfold blank. apply forallb_app. Qed.

Lemma blank_rev (s : jsstring) : blank (rev s) = blank s.
Proof.
  induction s as [|c s IH]; [reflexivity|].
  simpl rev. rewrite blank_app, IH. unfold blank at 2. simpl.
  unfold blank. simpl. rewrite andb_true_r. apply andb_comm.
Qed.

(** What [trimStart] returns is empty or starts with a character that is
    not white space. *)
Lemma trimStart_blank (s : jsstring) :
  blank (JsString.trimStart s) = true -> JsString.trimStart s = [].
Proof.
  unfold blank. induction s as [|c s IH]; simpl; [reflexivity|].
  destruct (JsString.isWhiteSpace c) eqn:W; [exact IH|].
  simpl. rewrite W. discriminate.
Qed.

(** [draft.trim()] is the empty string exactly for a blank draft. *)
Lemma trim_nil_iff (s : jsstring) :
  JsString.trim s = [] <-> blank s = true.
Proof.
  unfold JsString.trim, JsString.trimEnd. split.
  - intros H. apply trimStart_nil_iff. apply trimStart_blank.
    rewrite <- blank_rev. apply trimStart_nil_iff.
    apply (f_equal (@rev _)) in H. rewrite rev_involutive in H. exact H.
  - intros H. apply trimStart_nil_iff in H. now rewrite H.
Qed.

Lemma trim_truthy (s : jsstring) :
  JsString.truthy (JsString.trim s) = negb (blank s).
Proof.
  destruct (blank s) eqn:B.
  - apply trim_nil_iff in B. now rewrite B.
  - destruct (JsString.trim s) eqn:T; [|reflexivity].
    apply trim_nil_iff in T. congruence.
Qed.

(** C8. The reply send. On a blank draft it does nothing: no call, no
    state change. On any other draft it first clears the send error and
    then posts the trimmed text; if the post resolves, the draft is cleared
    and a refresh of the message stream and one of the lead list follow;
    if the post rejects, the draft is kept as it was, the send error holds
    the error's text, and the message list is the one before the call (no
    refresh is issued). *)
Theorem handleSend_spec
  (lead : Lead)
  (replyOutcome : jsstring -> jsstring -> Result unit)
  (fetchLeadMessages : jsstring -> Result (list Conversation.ConversationMessage))
  (st : Conversation.State) :
  let r := run (Conversation.handleSend lead replyOutcome fetchLeadMessages) st in
  let st' := fst (snd r) in
  let log := snd (snd r) in
  let trimmed := JsString.trim (Conversation.draft st) in
  (blank (Conversation.draft st) = true -> st' = st /\ log = [])
  /\ (blank (Conversation.draft st) = false ->
      exists rest,
        log = Conversation.SetSendError None
              :: Conversation.SendLeadReply (property_id lead) trimmed
              :: rest)
  /\ (blank (Conversation.draft st) = false ->
      resolved (replyOutcome (property_id lead) trimmed) = true ->
      Conversation.draft st' = []
      /\ Conversation.sendError st' = None
      /\ log = [Conversation.SetSendError None;
                Conversation.SendLeadReply (property_id lead) trimmed;
                Conversation.SetDraft [];
                Conversation.FocusInput;
                Conversation.MutateMessages;
                Conversation.RefreshLeads])
  /\ (forall err,
      blank (Conversation.draft st) = false ->
      replyOutcome (property_id lead) trimmed = Throw err ->
      Conversation.draft st' = Conversation.draft st
      /\ Conversation.sendError st' = Some (Conversation.errorText err)
      /\ Conversation.messages st' = Conversation.messages st
      /\ log = [Conversation.SetSendError None;
                Conversation.SendLeadReply (property_id lead) trimmed;
                Conversation.SetSendError
                  (Some (Conversation.errorText err))]).
Proof.
  intros r st' log trimmed. subst st' log r.
  unfold run, Conversation.handleSend, bind, getState. cbn [fst snd].
  rewrite trim_truthy, negb_involutive. fold trimmed.
  destruct (blank (Conversation.draft st)) eqn:B.
  - unfold ret. cbn [fst snd].
    repeat split; intros; try discriminate.
  - unfold Conversation.setSendError, Conversation.sendLeadReply,
      bind, emit, update, ret. cbn [fst snd app].
    destruct (replyOutcome (property_id lead) trimmed) as [u|e] eqn:O.
    + unfold Conversation.setDraft, Conversation.mutate, bind, emit, update,
        ret. cbn [fst snd app].
      destruct (fetchLeadMessages (property_id lead)) as [fetched|e'];
        cbn [fst snd app update Conversation.draft Conversation.sendError
             Conversation.messages];
        (split; [discriminate|]);
        (split; [intros _; eexists; reflexivity|]);
        (split; [intros _ _; repeat split|]);
        intros err _ [=].
    + cbn [fst snd app Conversation.draft Conversation.sendError
           Conversation.messages].
      split; [discriminate|].
      split; [intros _; eexists; reflexivity|].
      split; [intros _ [=]|].
      intros err _ [= <-]. repeat split.
Qed.

(** The instance at a draft with surrounding white space whose post
    rejects: the draft is kept, the earlier error is replaced by the new
    one, and the messages are untouched. *)
Lemma handleSend_spec_witness :
  let st := openConversation (lit "  on my way ") in
  let r := run (Conversation.handleSend scenarioLead replyFails
                  fetchedMessages) st in
  Conversation.draft (fst (snd r)) = lit "  on my way "
  /\ Conversation.sendError (fst (snd r)) = Some (lit "Service Unavailable")
  /\ Conversation.messages (fst (snd r)) = []
  /\ snd (snd r)
     = [Conversation.SetSendError None;
        Conversation.SendLeadReply (lit "p1") (lit "on my way");
        Conversation.SetSendError (Some (lit "Service Unavailable"))].
Proof.
  pose proof (handleSend_spec scenarioLead replyFails fetchedMessages
                (openConversation (lit "  on my way "))) as T.
  cbv zeta in T. destruct T as (_ & _ & _ & F).
  cbv zeta.
  exact (F (ErrorObject (lit "Error") (lit "Service Unavailable"))
           eq_refl eq_refl).
Defined.
(* ===================================================================== *)
(** * The sort                                                            *)
(* ===================================================================== *)

Section ComparatorFacts.
Variable A : Type.
Variable comparefn : A -> A -> CompareResult.

Lemma tied_notAfter (x y : A) :
  tied comparefn x y = true -> notAfter comparefn x y.
Proof.
  unfold tied, after, notAfter. rewrite andb_true_iff, !negb_true_iff. tauto.
Qed.

Lemma before_notAfter (x y : A) :
  before comparefn x y = true -> notAfter comparefn x y.
Proof.
  unfold before, notAfter, negative_result, positive_result.
  destruct (comparefn x y) as [z|]; [|reflexivity].
  rewrite Z.ltb_lt, Z.ltb_ge. lia.
Qed.

(** Exactly one of the three relations holds of a pair. *)
Lemma comparator_cases (x y : A) :
  (before comparefn x y = true /\ tied comparefn x y = false
   /\ after comparefn x y = false)
  \/ (before comparefn x y = false /\ tied comparefn x y = true
      /\ after comparefn x y = false)
  \/ (before comparefn x y = false /\ tied comparefn x y = false
      /\ after comparefn x y = true).
Proof.
  unfold tied, before, after, negative_result, positive_result.
  destruct (comparefn x y) as [z|]; [|tauto].
  destruct (Z.ltb_spec z 0), (Z.ltb_spec 0 z); simpl; try tauto; lia.
Qed.

Variable l : list A.
Hypothesis consistent : Consistent comparefn l.

(** In a consistent comparator the two strict relations mirror each
    other. *)
Lemma after_before (x y : A) :
  In x l -> In y l ->
  after comparefn x y = true -> before comparefn y x = true.
Proof.
  destruct consistent as (R & S & _ & _ & Ta).
  intros Hx Hy H.
  destruct (comparator_cases y x) as [(B & _)|[(_ & T & _)|(_ & _ & Af)]].
  - exact B.
  - specialize (S y x Hy Hx T).
    destruct (comparator_cases x y) as [(? & ? & ?)|[(? & ? & ?)|(? & ? & ?)]];
      congruence.
  - pose proof (Ta x y x Hx Hy Hx H Af) as X.
    pose proof (R x Hx) as Y.
    destruct (comparator_cases x x) as [(? & ? & ?)|[(? & ? & ?)|(? & ? & ?)]];
      congruence.
Qed.

Lemma before_after (x y : A) :
  In x l -> In y l ->
  before comparefn x y = true -> after comparefn y x = true.
Proof.
  destruct consistent as (R & S & _ & Tb & _).
  intros Hx Hy H.
  destruct (comparator_cases y x) as [(B & _)|[(_ & T & _)|(_ & _ & Af)]].
  - pose proof (Tb x y x Hx Hy Hx H B) as X.
    pose proof (R x Hx) as Y.
    destruct (comparator_cases x x) as [(? & ? & ?)|[(? & ? & ?)|(? & ? & ?)]];
      congruence.
  - specialize (S y x Hy Hx T).
    destruct (comparator_cases x y) as [(? & ? & ?)|[(? & ? & ?)|(? & ? & ?)]];
      congruence.
  - exact Af.
Qed.

(** What the comparator does not forbid is allowed in both readings. *)
Lemma consistent_total (x y : A) :
  In x l -> In y l ->
  positive_result (comparefn x y) = true -> notAfter comparefn y x.
Proof.
  intros Hx Hy H. apply before_notAfter. now apply after_before.
Qed.

Lemma notAfter_cases (x y : A) :
  notAfter comparefn x y ->
  before comparefn x y = true \/ tied comparefn x y = true.
Proof.
  unfold notAfter. fold (after comparefn x y). intros H.
  destruct (comparator_cases x y) as [(B & _)|[(_ & T & _)|(_ & _ & Af)]];
    [tauto | tauto | congruence].
Qed.

Lemma consistent_trans (x y z : A) :
  In x l -> In y l -> In z l ->
  notAfter comparefn x y -> notAfter comparefn y z -> notAfter comparefn x z.
Proof.
  destruct consistent as (R & S & Tt & Tb & Ta).
  intros Hx Hy Hz H1 H2.
  apply notAfter_cases in H1. apply notAfter_cases in H2.
  destruct H1 as [B1|T1], H2 as [B2|T2].
  - apply before_notAfter. eauto.
  - (* x before y, y tied z *)
    destruct (comparator_cases x z) as [(B & _)|[(_ & T & _)|(_ & _ & Af)]];
      [now apply before_notAfter | now apply tied_notAfter |].
    exfalso. apply after_before in Af; auto.
    pose proof (Tb z x y Hz Hx Hy Af B1) as X.
    pose proof (S y z Hy Hz T2) as Y.
    destruct (comparator_cases z y) as [(? & ? & ?)|[(? & ? & ?)|(? & ? & ?)]];
      congruence.
  - (* x tied y, y before z *)
    destruct (comparator_cases x z) as [(B & _)|[(_ & T & _)|(_ & _ & Af)]];
      [now apply before_notAfter | now apply tied_notAfter |].
    exfalso. apply after_before in Af; auto.
    pose proof (Tb y z x Hy Hz Hx B2 Af) as X.
    pose proof (S x y Hx Hy T1) as Y.
    destruct (comparator_cases y x) as [(? & ? & ?)|[(? & ? & ?)|(? & ? & ?)]];
      congruence.
  - apply tied_notAfter. eauto.
Qed.

(** Elements tied with one element are tied with each other. *)
Lemma consistent_class (x a b : A) :
  In x l -> In a l -> In b l ->
  tied comparefn x a = true -> tied comparefn x b = true ->
  notAfter comparefn a b.
Proof.
  destruct consistent as (R & S & Tt & _ & _).
  intros Hx Ha Hb T1 T2. apply tied_notAfter.
  apply (Tt a x b); auto.
Qed.

End ComparatorFacts.

Section StableSortFacts.
Variable A : Type.
Variable comparefn : A -> A -> CompareResult.

Lemma insertSorted_Permutation (x : A) (l : list A) :
  Permutation (insertSorted comparefn x l) (x :: l).
Proof.
  induction l as [|y l IH]; simpl; [reflexivity|].
  destruct (positive_result (comparefn x y)); [|reflexivity].
  rewrite IH. apply perm_swap.
Qed.

Lemma stableSort_Permutation (l : list A) :
  Permutation (stableSort comparefn l) l.
Proof.
  induction l as [|x l IH]; simpl; [reflexivity|].
  rewrite insertSorted_Permutation. now constructor.
Qed.

Lemma stableSort_In (l : list A) (x : A) :
  In x (stableSort comparefn l) <-> In x l.
Proof.
  split; apply Permutation_in;
    [apply stableSort_Permutation | symmetry; apply stableSort_Permutation].
Qed.

(** On a domain [P] where the comparator is consistent. *)
Variable P : A -> Prop.
Hypothesis total : forall x y, P x -> P y ->
  positive_result (comparefn x y) = true -> notAfter comparefn y x.
Hypothesis trans : forall x y z, P x -> P y -> P z ->
  notAfter comparefn x y -> notAfter comparefn y z -> notAfter comparefn x z.

Lemma insertSorted_sorted (x : A) (l : list A) :
  P x -> Forall P l ->
  StronglySorted (notAfter comparefn) l ->
  StronglySorted (notAfter comparefn) (insertSorted comparefn x l).
Proof.
  intros Px. induction l as [|y l IH]; intros Pl Hs; simpl.
  - constructor; constructor.
  - inversion Pl as [|? ? Py Pl']; subst.
    inversion Hs as [|? ? Hs' Hy]; subst.
    destruct (positive_result (comparefn x y)) eqn:C.
    + constructor; [now apply IH|].
      apply (Permutation_Forall
               (Permutation_sym (insertSorted_Permutation x l))).
      constructor; [now apply total | exact Hy].
    + constructor; [exact Hs|].
      constructor; [exact C|].
      rewrite Forall_forall in *. intros z Hz.
      apply (trans x y z); auto.
Qed.

Lemma stableSort_sorted (l : list A) :
  Forall P l -> StronglySorted (notAfter comparefn) (stableSort comparefn l).
Proof.
  induction l as [|x l IH]; intros Pl; simpl; [constructor|].
  inversion Pl; subst.
  apply insertSorted_sorted; auto.
  apply (Permutation_Forall (Permutation_sym (stableSort_Permutation l))).
  assumption.
Qed.

(** Stability: elements of [P] that the comparator never puts in a strict
    order keep their relative order. [keep] selects such a class. *)
Variable keep : A -> bool.
Hypothesis keep_tied : forall x y, P x -> P y ->
  keep x = true -> keep y = true -> notAfter comparefn x y.

Lemma insertSorted_filter (x : A) (l : list A) :
  P x -> Forall P l ->
  filter keep (insertSorted comparefn x l) = filter keep (x :: l).
Proof.
  intros Px. induction l as [|y l IH]; intros Pl; [reflexivity|].
  inversion Pl as [|? ? Py Pl']; subst.
  simpl insertSorted.
  destruct (positive_result (comparefn x y)) eqn:C; [|reflexivity].
  simpl filter at 1. rewrite (IH Pl'). simpl.
  destruct (keep x) eqn:Kx, (keep y) eqn:Ky; try reflexivity.
  pose proof (keep_tied x y Px Py Kx Ky) as T. unfold notAfter in T.
  congruence.
Qed.

Lemma stableSort_filter (l : list A) :
  Forall P l ->
  filter keep (stableSort comparefn l) = filter keep l.
Proof.
  induction l as [|x l IH]; intros Pl; [reflexivity|].
  inversion Pl as [|? ? Px Pl']; subst.
  simpl stableSort. rewrite insertSorted_filter; auto.
  - simpl. now rewrite (IH Pl').
  - apply (Permutation_Forall (Permutation_sym (stableSort_Permutation l))).
    assumption.
Qed.

End StableSortFacts.

(** The insertion sort does what the standard asks of a sort. *)
Lemma stableSort_consistent (A : Type) (comparefn : A -> A -> CompareResult)
  (l : list A) :
  Consistent comparefn l ->
  StronglySorted (notAfter comparefn) (stableSort comparefn l)
  /\ forall x, In x l ->
       filter (tied comparefn x) (stableSort comparefn l)
       = filter (tied comparefn x) l.
Proof.
  intros C. split.
  - apply stableSort_sorted with (P := fun x => In x l).
    + intros x y. now apply consistent_total.
    + intros x y z. now apply consistent_trans.
    + apply Forall_forall. auto.
  - intros x Hx.
    apply stableSort_filter with (P := fun y => In y l).
    + intros a b Ha Hb. now apply (consistent_class A comparefn l C x).
    + apply Forall_forall. auto.
Qed.

Section SortMap.
Variables A B : Type.
Variable f : A -> B.
Variable cmpA : A -> A -> CompareResult.
Variable cmpB : B -> B -> CompareResult.

Lemma insertSorted_map (x : A) (l : list A) :
  (forall y, In y l -> cmpB (f x) (f y) = cmpA x y) ->
  insertSorted cmpB (f x) (List.map f l)
  = List.map f (insertSorted cmpA x l).
Proof.
  induction l as [|y l IH]; intros H; simpl; [reflexivity|].
  rewrite (H y (or_introl eq_refl)).
  destruct (positive_result (cmpA x y)); simpl; [|reflexivity].
  rewrite IH; [reflexivity|]. intros z Hz. apply H. now right.
Qed.

(** Sorting the images is the image of sorting, when the comparators
    agree. *)
Lemma stableSort_map (l : list A) :
  (forall x y, In x l -> In y l -> cmpB (f x) (f y) = cmpA x y) ->
  stableSort cmpB (List.map f l) = List.map f (stableSort cmpA l).
Proof.
  induction l as [|x l IH]; intros H; simpl; [reflexivity|].
  rewrite IH by (intros a b Ha Hb; apply H; now right).
  apply insertSorted_map. intros y Hy. apply stableSort_In in Hy.
  apply H; [now left | now right].
Qed.

End SortMap.

(** The reference engine sorts by stable insertion. *)
#[export] Instance referenceEngine : Engine := {|
  sort := stableSort;
  sort_permutation := stableSort_Permutation;
  sort_consistent := stableSort_consistent;
  sort_natural := stableSort_map;
|}.

Lemma filter_none {A} (keep : A -> bool) (l : list A) :
  (forall y, In y l -> keep y = false) -> filter keep l = [].
Proof.
  induction l as [|a l IH]; intros H; simpl; [reflexivity|].
  rewrite (H a (or_introl eq_refl)). apply IH. intros y Hy. apply H.
  now right.
Qed.

Section SortFacts.
Context {engine : Engine}.
Variable A : Type.
Variable comparefn : A -> A -> CompareResult.

(** The sort never drops, repeats or invents an element, whatever the
    comparator. *)
Lemma sort_Permutation (l : list A) : Permutation (sort comparefn l) l.
Proof. apply sort_permutation. Qed.

Lemma sort_In (l : list A) (x : A) : In x (sort comparefn l) <-> In x l.
Proof.
  split; apply Permutation_in;
    [apply sort_Permutation | symmetry; apply sort_Permutation].
Qed.

Lemma sort_sorted (l : list A) :
  Consistent comparefn l ->
  StronglySorted (notAfter comparefn) (sort comparefn l).
Proof. intros C. now apply sort_consistent. Qed.

(** Stability, for a class [keep] of elements tied with each other and
    with nothing else. *)
Lemma sort_filter (keep : A -> bool) (l : list A) :
  Consistent comparefn l ->
  (forall x y, In x l -> In y l -> keep x = true ->
     keep y = tied comparefn x y) ->
  filter keep (sort comparefn l) = filter keep l.
Proof.
  intros C K.
  destruct (find keep l) as [x|] eqn:F.
  - apply find_some in F. destruct F as [Hx Kx].
    destruct (sort_consistent C) as [_ S].
    transitivity (filter (tied comparefn x) (sort comparefn l)).
    + apply filter_ext_in. intros y Hy.
      exact (K x y Hx (proj1 (sort_In l y) Hy) Kx).
    + rewrite (S x Hx). symmetry.
      apply filter_ext_in. intros y Hy. exact (K x y Hx Hy Kx).
  - assert (N : forall y, In y l -> keep y = false)
      by (intros y Hy; eapply find_none; eauto).
    rewrite (filter_none keep l N).
    apply filter_none. intros y Hy. exact (N y (proj1 (sort_In l y) Hy)).
Qed.

End SortFacts.

Lemma sort_map {engine : Engine} (A B : Type) (f : A -> B)
  (cmpA : A -> A -> CompareResult) (cmpB : B -> B -> CompareResult)
  (l : list A) :
  (forall x y, In x l -> In y l -> cmpB (f x) (f y) = cmpA x y) ->
  sort cmpB (List.map f l) = List.map f (sort cmpA l).
Proof. apply sort_natural. Qed.

(* ===================================================================== *)
(** * SameValueZero is an equivalence                                     *)
(* ===================================================================== *)

Lemma SFcompare_Eq_trans x y z :
  SFcompare x y = Some Eq -> SFcompare y z = Some Eq ->
  SFcompare x z = Some Eq.
Proof.
  destruct x as [sx|sx| |sx mx ex], y as [sy|sy| |sy my ey],
           z as [sz|sz| |sz mz ez]; simpl;
    try discriminate; try reflexivity;
    try (destruct sx; discriminate); try (destruct sy; discriminate);
    try (destruct sz; discriminate);
    try (destruct sx, sy; discriminate);
    try (destruct sy, sz; discriminate).
  - destruct sx, sy, sz; try discriminate; reflexivity.
  - destruct sx, sy; try discriminate; destruct sz; try discriminate;
      (destruct (ex ?= ey)%Z eqn:E1; try discriminate;
       destruct (ey ?= ez)%Z eqn:E2; try discriminate;
       apply Z.compare_eq in E1; apply Z.compare_eq in E2; subst;
       rewrite Z.compare_refl, !Pos.compare_cont_spec; simpl;
       destruct (mx ?= my)%positive eqn:M1; try discriminate;
       destruct (my ?= mz)%positive eqn:M2; try discriminate;
       apply Pos.compare_eq in M1; apply Pos.compare_eq in M2; subst;
       now rewrite Pos.compare_refl).
Qed.

Lemma eqb_sym (x y : number) : (x =? y)%float = (y =? x)%float.
Proof.
  rewrite !FloatAxioms.eqb_spec. unfold SFeqb.
  destruct (SFcompare (Prim2SF x) (Prim2SF y)) as [c|] eqn:C.
  - rewrite (SFcompare_swap _ _ _ C). now destruct c.
  - destruct (SFcompare (Prim2SF y) (Prim2SF x)) as [c|] eqn:C';
      [|reflexivity].
    rewrite (SFcompare_swap _ _ _ C') in C. discriminate.
Qed.

Lemma eqb_trans (x y z : number) :
  (x =? y)%float = true -> (y =? z)%float = true -> (x =? z)%float = true.
Proof.
  rewrite !FloatAxioms.eqb_spec. unfold SFeqb.
  destruct (SFcompare (Prim2SF x) (Prim2SF y)) as [[| |]|] eqn:C1;
    try discriminate.
  destruct (SFcompare (Prim2SF y) (Prim2SF z)) as [[| |]|] eqn:C2;
    try discriminate.
  now rewrite (SFcompare_Eq_trans _ _ _ C1 C2).
Qed.

Lemma eqb_true_not_NaN (x y : number) :
  (x =? y)%float = true ->
  JsNumber.isNaN x = false /\ JsNumber.isNaN y = false.
Proof.
  intros H. unfold JsNumber.isNaN, PrimFloat.is_nan.
  rewrite !negb_false_iff. split.
  - apply (eqb_trans x y x H). now rewrite eqb_sym.
  - apply (eqb_trans y x y); [now rewrite eqb_sym | exact H].
Qed.

Lemma sameValueZero_refl (x : number) : JsNumber.sameValueZero x x = true.
Proof.
  unfold JsNumber.sameValueZero, JsNumber.isNaN, PrimFloat.is_nan.
  now destruct (x =? x)%float.
Qed.

Lemma sameValueZero_sym (x y : number) :
  JsNumber.sameValueZero x y = JsNumber.sameValueZero y x.
Proof.
  unfold JsNumber.sameValueZero. rewrite (eqb_sym x y).
  now rewrite (andb_comm (JsNumber.isNaN x)).
Qed.

Lemma sameValueZero_trans (x y z : number) :
  JsNumber.sameValueZero x y = true -> JsNumber.sameValueZero y z = true ->
  JsNumber.sameValueZero x z = true.
Proof.
  unfold JsNumber.sameValueZero. rewrite !orb_true_iff, !andb_true_iff.
  intros [E1|[N1 N2]] [E2|[N3 N4]].
  - left. eapply eqb_trans; eauto.
  - apply eqb_true_not_NaN in E1. destruct E1. congruence.
  - apply eqb_true_not_NaN in E2. destruct E2. congruence.
  - right. auto.
Qed.

(** The key a set or a map stores is the same value, by SameValueZero. *)
Lemma sameValueZero_canonical_r (x k : number) :
  JsNumber.sameValueZero x (canonicalKey k) = JsNumber.sameValueZero x k.
Proof.
  unfold canonicalKey. destruct (k =? 0)%float eqn:E; [|reflexivity].
  destruct (eqb_true_not_NaN k 0%float E) as [Nk N0].
  unfold JsNumber.sameValueZero.
  replace (JsNumber.isNaN PrimFloat.zero) with false by reflexivity.
  rewrite Nk. f_equal. change PrimFloat.zero with 0%float.
  destruct (x =? 0)%float eqn:A, (x =? k)%float eqn:B;
    try reflexivity.
  - rewrite eqb_sym in E. now rewrite (eqb_trans x 0%float k A E) in B.
  - now rewrite (eqb_trans x k 0%float B E) in A.
Qed.

Lemma sameValueZero_canonical_l (x k : number) :
  JsNumber.sameValueZero (canonicalKey k) x = JsNumber.sameValueZero k x.
Proof.
  now rewrite sameValueZero_sym, sameValueZero_canonical_r,
    sameValueZero_sym.
Qed.

Lemma canonicalKey_nonzero (k : number) :
  JsNumber.truthy (canonicalKey k) = true -> canonicalKey k = k.
Proof.
  unfold canonicalKey. destruct (k =? 0)%float eqn:E; [|reflexivity].
  discriminate.
Qed.

Lemma canonicalKey_truthy (k : number) :
  JsNumber.truthy (canonicalKey k) = JsNumber.truthy k.
Proof.
  unfold canonicalKey. destruct (k =? 0)%float eqn:E; [|reflexivity].
  unfold JsNumber.truthy. rewrite E. reflexivity.
Qed.

Lemma canonicalKey_finite (k : number) :
  JsNumber.isFinite k = true -> JsNumber.isFinite (canonicalKey k) = true.
Proof.
  unfold canonicalKey. now destruct (k =? 0)%float.
Qed.

(* ===================================================================== *)
(** * Filter facets                                                       *)
(* ===================================================================== *)

Lemma find_app {A} (p : A -> bool) (l1 l2 : list A) :
  find p (l1 ++ l2)
  = match find p l1 with
    | Some x => Some x
    | None => find p l2
    end.
Proof.
  induction l1 as [|x l1 IH]; simpl; [reflexivity|].
  now destruct (p x).
Qed.

Lemma find_none_existsb {A} (p : A -> bool) (l : list A) :
  find p l = None <-> existsb p l = false.
Proof.
  induction l as [|x l IH]; simpl; [tauto|].
  destruct (p x); simpl; [split; discriminate | exact IH].
Qed.

Lemma mapHas_exists (m : NumberMap) (k : number) :
  mapHas m k = true
  <-> exists e, In e m /\ JsNumber.sameValueZero k (fst e) = true.
Proof. unfold mapHas. apply existsb_exists. Qed.

Lemma mapSet_fresh (m : NumberMap) (k : number) (v : jsstring) :
  mapHas m k = false -> mapSet m k v = m ++ [(canonicalKey k, v)].
Proof.
  unfold mapHas. induction m as [|[k' v'] m IH]; simpl; [reflexivity|].
  rewrite orb_false_iff. intros [E H]. rewrite E. now rewrite IH.
Qed.

Section CollectFacts.
Variable idOf : Lead -> option number.
Variable labelOf : Lead -> number -> jsstring.

Let collect (leads : list Lead) : NumberMap :=
  fold_left (collectStep idOf labelOf) leads [].

Lemma collect_snoc (leads : list Lead) (lead : Lead) :
  collect (leads ++ [lead]) = collectStep idOf labelOf (collect leads) lead.
Proof. unfold collect. now rewrite fold_left_app. Qed.

Lemma carries_trans (k r : number) (lead : Lead) :
  JsNumber.sameValueZero k r = true ->
  carries idOf r lead = true -> carries idOf k lead = true.
Proof.
  unfold carries. destruct (idOf lead) as [v|]; [|discriminate].
  apply sameValueZero_trans.
Qed.

Lemma carries_canonical (r : number) (lead : Lead) :
  carries idOf (canonicalKey r) lead = carries idOf r lead.
Proof.
  unfold carries. destruct (idOf lead) as [v|]; [|reflexivity].
  apply sameValueZero_canonical_l.
Qed.

(** The map has a key for an id exactly when a lead scanned so far
    carries the id. *)
Lemma collect_has (leads : list Lead) (k : number) :
  mapHas (collect leads) k = existsb (carries idOf k) leads.
Proof.
  revert k. induction leads as [|lead leads IH] using rev_ind; intros k;
    [reflexivity|].
  rewrite collect_snoc, existsb_app. simpl. rewrite orb_false_r.
  unfold collectStep, carries at 2.
  destruct (idOf lead) as [r|] eqn:E; [|now rewrite IH, orb_false_r].
  destruct (mapHas (collect leads) r) eqn:H; simpl.
  - rewrite IH.
    destruct (JsNumber.sameValueZero k r) eqn:S;
      [|now rewrite orb_false_r].
    rewrite orb_true_r. rewrite IH in H.
    apply existsb_exists in H. destruct H as (l0 & Hin & Hc).
    apply existsb_exists. exists l0. split; [exact Hin|].
    eapply carries_trans; eauto.
  - rewrite (mapSet_fresh _ _ _ H). unfold mapHas.
    rewrite existsb_app. simpl. rewrite orb_false_r.
    rewrite sameValueZero_canonical_r.
    fold (mapHas (collect leads) k). now rewrite IH.
Qed.

(** An entry is in the map exactly when it was made from the first lead
    that carries its id: the key is the id as the map stores it, the label
    is the one made from that lead. *)
Lemma collect_first (leads : list Lead) (k : number) (v : jsstring) :
  In (k, v) (collect leads)
  <-> exists lead id, find (carries idOf k) leads = Some lead
        /\ idOf lead = Some id /\ k = canonicalKey id
        /\ v = labelOf lead id.
Proof.
  revert k v. induction leads as [|lead leads IH] using rev_ind; intros k v.
  - simpl. split; [tauto|]. intros (l & id & [=] & _).
  - rewrite collect_snoc, find_app.
    unfold collectStep.
    destruct (idOf lead) as [r|] eqn:E.
    + destruct (mapHas (collect leads) r) eqn:H; simpl.
      * rewrite IH. split.
        -- intros (l0 & id & F & I & K & L). exists l0, id. now rewrite F.
        -- intros (l0 & id & F & I & K & L).
           destruct (find (carries idOf k) leads) as [l1|] eqn:F1.
           ++ exists l1, id. injection F as <-. auto.
           ++ exfalso. simpl in F. unfold carries at 1 in F.
              rewrite E in F.
              destruct (JsNumber.sameValueZero k r) eqn:S;
                [|discriminate].
              apply find_none_existsb in F1.
              rewrite <- collect_has in F1.
              rewrite collect_has in H.
              apply existsb_exists in H. destruct H as (l2 & Hin & Hc).
              assert (X : existsb (carries idOf k) leads = true).
              { apply existsb_exists. exists l2. split; [exact Hin|].
                eapply carries_trans; eauto. }
              rewrite collect_has in F1. congruence.
      * rewrite (mapSet_fresh _ _ _ H), in_app_iff, IH. simpl. split.
        -- intros [(l0 & id & F & I & K & L) | [[= <- <-] | []]].
           ++ exists l0, id. now rewrite F.
           ++ exists lead, r. rewrite collect_has in H.
              assert (N : find (carries idOf (canonicalKey r)) leads = None).
              { apply find_none_existsb.
                rewrite <- H. clear.
                induction leads as [|l0 leads IH]; [reflexivity|].
                simpl. now rewrite carries_canonical, IH. }
              rewrite N. rewrite carries_canonical.
              unfold carries. rewrite E, sameValueZero_refl. auto.
        -- intros (l0 & id & F & I & K & L).
           destruct (find (carries idOf k) leads) as [l1|] eqn:F1.
           ++ left. exists l1, id. injection F as <-. auto.
           ++ right. left.
              destruct (carries idOf k lead); [|discriminate].
              injection F as <-. rewrite E in I. injection I as <-.
              now subst k v.
    + rewrite IH. split.
      * intros (l0 & id & F & I & K & L). exists l0, id. now rewrite F.
      * intros (l0 & id & F & I & K & L).
        destruct (find (carries idOf k) leads) as [l1|] eqn:F1.
        -- exists l1, id. injection F as <-. auto.
        -- simpl in F. unfold carries in F. rewrite E in F. discriminate.
Qed.

(** No two entries of the map have the same id. *)
Lemma collect_distinct (leads : list Lead) :
  NoDup (collect leads)
  /\ (forall e1 e2, In e1 (collect leads) -> In e2 (collect leads) ->
        JsNumber.sameValueZero (fst e1) (fst e2) = true -> e1 = e2).
Proof.
  induction leads as [|lead leads [IHn IHf]] using rev_ind.
  - split; [constructor|]. intros ? ? [].
  - rewrite collect_snoc. unfold collectStep.
    destruct (idOf lead) as [r|]; [|now split].
    destruct (mapHas (collect leads) r) eqn:H; simpl; [now split|].
    rewrite (mapSet_fresh _ _ _ H).
    assert (Fresh : forall e, In e (collect leads) ->
                      JsNumber.sameValueZero r (fst e) = false).
    { intros e He. destruct (JsNumber.sameValueZero r (fst e)) eqn:S;
        [|reflexivity].
      assert (mapHas (collect leads) r = true)
        by (apply mapHas_exists; eauto).
      congruence. }
    split.
    + apply NoDup_app; [exact IHn | repeat constructor; tauto |].
      intros e He [<-|[]]. specialize (Fresh _ He). simpl in Fresh.
      rewrite sameValueZero_canonical_r in Fresh.
      now rewrite sameValueZero_refl in Fresh.
    + intros e1 e2 H1 H2 S.
      apply in_app_iff in H1. apply in_app_iff in H2. simpl in H1, H2.
      destruct H1 as [H1|[<-|[]]], H2 as [H2|[<-|[]]].
      * now apply IHf.
      * simpl in S. rewrite sameValueZero_canonical_r in S.
        rewrite sameValueZero_sym in S.
        specialize (Fresh _ H1). congruence.
      * simpl in S. rewrite sameValueZero_canonical_l in S.
        specialize (Fresh _ H2). congruence.
      * reflexivity.
Qed.

End CollectFacts.

Section FacetFacts.
Context {host : Host}.

Lemma setHas_add (s : NumberSet) (v k : number) :
  setHas (setAdd s v) k = setHas s k || JsNumber.sameValueZero k v.
Proof.
  unfold setAdd. destruct (setHas s v) eqn:H.
  - destruct (JsNumber.sameValueZero k v) eqn:S;
      [|now rewrite orb_false_r].
    rewrite orb_true_r. unfold setHas in *.
    apply existsb_exists in H. destruct H as (u & Hin & Hu).
    apply existsb_exists. exists u. split; [exact Hin|].
    eapply sameValueZero_trans; eauto.
  - unfold setHas. rewrite existsb_app. simpl.
    now rewrite orb_false_r, sameValueZero_canonical_r.
Qed.

Lemma setAdd_nonempty (s : NumberSet) (v : number) :
  (List.length (setAdd s v) =? 0)%nat = false.
Proof.
  unfold setAdd. destruct (setHas s v) eqn:H.
  - destruct s; [discriminate | reflexivity].
  - rewrite length_app. simpl. apply Nat.eqb_neq. lia.
Qed.

Lemma collectTypes_has (leads : list Lead) (k : number) :
  setHas (fold_left collectTypes leads []) k
  = existsb (carries propertyTypeOf k) leads.
Proof.
  induction leads as [|lead leads IH] using rev_ind; [reflexivity|].
  rewrite fold_left_app, existsb_app. simpl. rewrite orb_false_r.
  unfold collectTypes at 1, carries at 2.
  destruct (propertyTypeOf lead) as [v|];
    [now rewrite setHas_add, IH | now rewrite IH, orb_false_r].
Qed.

Lemma collectTypes_empty (leads : list Lead) :
  (List.length (fold_left collectTypes leads []) =? 0)%nat
  = forallb (fun lead => isNone (propertyTypeOf lead)) leads.
Proof.
  induction leads as [|lead leads IH] using rev_ind; [reflexivity|].
  rewrite fold_left_app, forallb_app. simpl. rewrite andb_true_r.
  unfold collectTypes at 1.
  destruct (propertyTypeOf lead) as [v|]; simpl.
  - now rewrite setAdd_nonempty, andb_false_r.
  - now rewrite IH, andb_true_r.
Qed.

(** The three collections of the scan, each as a fold of its own. *)
Lemma scan_components (leads : list Lead) (acc : FacetAcc) :
  propertyTypeSet (fold_left facetStep leads acc)
    = fold_left collectTypes leads (propertyTypeSet acc)
  /\ regionMap (fold_left facetStep leads acc)
    = fold_left (collectStep regionIdOf regionLabelOf) leads (regionMap acc)
  /\ zoneMap (fold_left facetStep leads acc)
    = fold_left (collectStep zoneIdOf zoneLabelOf) leads (zoneMap acc).
Proof.
  revert acc. induction leads as [|lead leads IH]; intros acc;
    [now repeat split|].
  simpl fold_left.
  destruct (IH (facetStep acc lead)) as (A & B & C).
  rewrite A, B, C. repeat split.
Qed.

Lemma extractLabel_firstTextual (raw : Raw) (keys : list jsstring) :
  extractLabel raw keys
  = match firstTextual raw keys with
    | Some key =>
        match getField raw key with
        | JString s => Some s
        | _ => None
        end
    | None => None
    end.
Proof.
  unfold firstTextual. induction keys as [|key keys IH]; [reflexivity|].
  simpl. destruct (getField raw key) as [| |b|n|s|items|fields] eqn:G;
    simpl; try exact IH.
  rewrite <- trim_truthy.
  destruct (JsString.trim s) eqn:T; simpl; [exact IH|].
  now rewrite G.
Qed.

(** The label the scan makes is the label of the specification. *)
Lemma extractLabel_labelledFrom (raw : Raw) (keys : list jsstring)
  (prefix : jsstring) (id : number) (l : jsstring) :
  labelledFrom keys prefix raw id l
  <-> l = match extractLabel raw keys with
          | Some text => text
          | None => prefix ++ NumberToString id
          end.
Proof.
  unfold labelledFrom. rewrite extractLabel_firstTextual.
  destruct (firstTextual raw keys) as [key|] eqn:F; [|tauto].
  apply find_some in F. destruct F as [_ T].
  destruct (getField raw key); simpl in T; try discriminate.
  split; [now intros [= ->] | now intros ->].
Qed.

Lemma regionLabel_spec (raw : Raw) (id : number) (l : jsstring) :
  labelledFrom [lit "region_name"; lit "region"; lit "county"]
    (lit "Jude" ++ [539%N] ++ lit " #") raw id l
  <-> l = regionLabel raw id.
Proof.
  rewrite extractLabel_labelledFrom. unfold regionLabel, regionKeys.
  now rewrite <- !app_assoc.
Qed.

Lemma zoneLabel_spec (raw : Raw) (id : number) (l : jsstring) :
  labelledFrom [lit "zone_name"; lit "zone"]
    (lit "Zon" ++ [259%N] ++ lit " #") raw id l
  <-> l = zoneLabel raw id.
Proof.
  rewrite extractLabel_labelledFrom. unfold zoneLabel, zoneKeys.
  now rewrite <- !app_assoc.
Qed.

End FacetFacts.

Lemma StronglySorted_map {A B} (f : A -> B) (R : B -> B -> Prop)
  (l : list A) :
  StronglySorted (fun x y => R (f x) (f y)) l ->
  StronglySorted R (List.map f l).
Proof.
  induction 1 as [|x l Hs IH Hx]; simpl; constructor; auto.
  rewrite Forall_forall in *. intros y Hy.
  apply in_map_iff in Hy. destruct Hy as (z & <- & Hz). auto.
Qed.

Lemma StronglySorted_weaken {A} (R R' : A -> A -> Prop) (l : list A) :
  (forall x y, R x y -> R' x y) ->
  StronglySorted R l -> StronglySorted R' l.
Proof.
  intros HR. induction 1 as [|x l Hs IH Hx]; constructor; auto.
  rewrite Forall_forall in *. auto.
Qed.

Lemma toItem_injective (e1 e2 : number * jsstring) :
  toItem e1 = toItem e2 -> e1 = e2.
Proof.
  destruct e1, e2. unfold toItem. simpl. now intros [= -> ->].
Qed.

Section CollationFacts.
Context {host : Host}.
Context {laws : CollationLaws host}.

Lemma collation_refl (a : jsstring) : localeCompare a a = 0%Z.
Proof.
  pose proof (collation_antisym a a) as H. lia.
Qed.

Lemma compareEntries_notAfter (a b : number * jsstring) :
  notAfter compareEntries a b <-> (localeCompare (snd a) (snd b) <= 0)%Z.
Proof.
  unfold notAfter, compareEntries, positive_result.
  rewrite Z.ltb_ge. tauto.
Qed.

Lemma compareEntries_before (a b : number * jsstring) :
  before compareEntries a b = true
  <-> (localeCompare (snd a) (snd b) < 0)%Z.
Proof. unfold before, compareEntries. simpl. apply Z.ltb_lt. Qed.

Lemma compareEntries_after (a b : number * jsstring) :
  after compareEntries a b = true
  <-> (0 < localeCompare (snd a) (snd b))%Z.
Proof. unfold after, compareEntries. simpl. apply Z.ltb_lt. Qed.

Lemma compareEntries_tied (a b : number * jsstring) :
  tied compareEntries a b = true
  <-> localeCompare (snd a) (snd b) = 0%Z.
Proof.
  unfold tied, before, after, compareEntries. simpl.
  rewrite andb_true_iff, !negb_true_iff, !Z.ltb_ge. lia.
Qed.

(** The comparator of [mapToOptions] is consistent on every map. *)
Lemma compareEntries_Consistent (m : NumberMap) :
  Consistent compareEntries m.
Proof.
  assert (Anti : forall a b c : jsstring,
            ((localeCompare a b < 0)%Z <-> (0 < localeCompare b a)%Z)
            /\ ((localeCompare b a < 0)%Z <-> (0 < localeCompare a b)%Z)
            /\ ((localeCompare b c < 0)%Z <-> (0 < localeCompare c b)%Z)
            /\ ((localeCompare c b < 0)%Z <-> (0 < localeCompare b c)%Z)
            /\ ((localeCompare a c < 0)%Z <-> (0 < localeCompare c a)%Z)
            /\ ((localeCompare c a < 0)%Z <-> (0 < localeCompare a c)%Z)).
  { intros a b c. repeat split; apply collation_antisym. }
  repeat split.
  - intros a _. apply compareEntries_tied. apply collation_refl.
  - intros a b _ _. rewrite !compareEntries_tied. intros H.
    pose proof (Anti (snd a) (snd b) (snd a)). lia.
  - intros a b c _ _ _. rewrite !compareEntries_tied. intros H1 H2.
    pose proof (Anti (snd a) (snd b) (snd c)).
    pose proof (collation_trans (snd a) (snd b) (snd c)).
    pose proof (collation_trans (snd c) (snd b) (snd a)). lia.
  - intros a b c _ _ _. rewrite !compareEntries_before. intros H1 H2.
    pose proof (Anti (snd a) (snd b) (snd c)).
    pose proof (collation_trans (snd a) (snd b) (snd c)).
    pose proof (collation_trans (snd c) (snd a) (snd b)). lia.
  - intros a b c _ _ _. rewrite !compareEntries_after. intros H1 H2.
    pose proof (Anti (snd a) (snd b) (snd c)).
    pose proof (collation_trans (snd c) (snd b) (snd a)).
    pose proof (collation_trans (snd a) (snd c) (snd b)). lia.
Qed.

End CollationFacts.

Section OptionsFacts.
Context {engine : Engine}.
Context {host : Host}.

Lemma mapToOptions_In (m : NumberMap) (o : OptionItem) :
  In o (mapToOptions m) <-> In (value o, label o) m.
Proof.
  unfold mapToOptions. rewrite in_map_iff. split.
  - intros ([k v] & <- & Hin). simpl. now apply sort_In in Hin.
  - intros Hin. exists (value o, label o). split; [now destruct o|].
    now apply sort_In.
Qed.

Lemma mapToOptions_NoDup (m : NumberMap) :
  NoDup m -> NoDup (mapToOptions m).
Proof.
  intros H. unfold mapToOptions.
  apply Finite.Injective_map_NoDup.
  - intros e1 e2. apply toItem_injective.
  - apply (Permutation_NoDup
             (Permutation_sym (sort_Permutation _ compareEntries m))).
    exact H.
Qed.

Context {laws : CollationLaws host}.

Lemma mapToOptions_sorted (m : NumberMap) :
  StronglySorted labelLe (mapToOptions m).
Proof.
  unfold mapToOptions.
  apply StronglySorted_map.
  apply StronglySorted_weaken with (R := notAfter compareEntries).
  - intros a b H. unfold labelLe. simpl. now apply compareEntries_notAfter.
  - apply sort_sorted. apply compareEntries_Consistent.
Qed.

(** The options made of the map of a scan meet the contract of a facet,
    for a label function that follows the label rule of the contract. *)
Lemma facet_of_map (idOf : Lead -> option number)
  (labelOf : Lead -> number -> jsstring)
  (keys : list jsstring) (prefix : jsstring) (leads : list Lead) :
  (forall lead id l,
     labelledFrom keys prefix (rawOf lead) id l <-> l = labelOf lead id) ->
  facetSpec idOf keys prefix leads
    (mapToOptions (fold_left (collectStep idOf labelOf) leads [])).
Proof.
  intros Hl.
  destruct (collect_distinct idOf labelOf leads) as [Hn Hf].
  split; [|split; [|split; [|split]]].
  - intros o. rewrite mapToOptions_In, collect_first. split.
    + intros (lead & id & F & I & K & L). exists lead, id.
      repeat split; auto. now apply Hl.
    + intros (lead & id & F & I & K & L). exists lead, id.
      repeat split; auto. now apply Hl.
  - now apply mapToOptions_NoDup.
  - intros o1 o2 H1 H2 S.
    apply mapToOptions_In in H1. apply mapToOptions_In in H2.
    specialize (Hf _ _ H1 H2 S).
    destruct o1, o2. simpl in Hf. now injection Hf as -> ->.
  - apply mapToOptions_sorted.
  - apply StronglySorted_weaken with (R := labelLe).
    + intros a b. apply collation_case.
    + apply mapToOptions_sorted.
Qed.

End OptionsFacts.

(* ===================================================================== *)
(** * The reference collation is a collation                              *)
(* ===================================================================== *)

Lemma lexCompare_antisym (a b : jsstring) :
  Reference.lexCompare b a = CompOpp (Reference.lexCompare a b).
Proof.
  revert b. induction a as [|x a IH]; intros [|y b]; simpl; try reflexivity.
  rewrite (N.compare_antisym x y).
  destruct (x ?= y)%N; simpl; auto.
Qed.

Lemma lexCompare_trans (a b c : jsstring) :
  Reference.lexCompare a b <> Gt -> Reference.lexCompare b c <> Gt ->
  Reference.lexCompare a c <> Gt.
Proof.
  revert b c. induction a as [|x a IH]; intros [|y b] [|z c]; simpl;
    try congruence.
  destruct (N.compare_spec x y) as [->|Hxy|Hxy]; try congruence.
  - destruct (N.compare_spec y z) as [->|Hyz|Hyz]; try congruence.
    apply IH.
  - intros _.
    destruct (N.compare_spec y z) as [->|Hyz|Hyz]; try congruence; intros _.
    + apply N.compare_lt_iff in Hxy. rewrite Hxy. congruence.
    + assert (x < z)%N as H by lia.
      apply N.compare_lt_iff in H. rewrite H. congruence.
Qed.

Lemma lowerUnit_idempotent (c : N) :
  Reference.lowerUnit (Reference.lowerUnit c) = Reference.lowerUnit c.
Proof.
  unfold Reference.lowerUnit.
  destruct ((65 <=? c) && (c <=? 90))%N eqn:E; [|now rewrite E].
  apply andb_true_iff in E. destruct E as [E1 E2].
  apply N.leb_le in E1, E2.
  assert ((c + 32 <=? 90)%N = false) as -> by (apply N.leb_gt; lia).
  now rewrite andb_false_r.
Qed.

Lemma lower_idempotent (s : jsstring) :
  Reference.lower (Reference.lower s) = Reference.lower s.
Proof.
  unfold Reference.lower. rewrite map_map.
  apply map_ext. apply lowerUnit_idempotent.
Qed.

Lemma signOf_nonpositive (c : comparison) :
  (Reference.signOf c <= 0)%Z <-> c <> Gt.
Proof. destruct c; simpl; split; intros; try lia; congruence. Qed.

#[export] Instance referenceCollation : CollationLaws Reference.host.
Proof.
  constructor; simpl; unfold Reference.foldedCompare.
  - intros a b.
    rewrite (lexCompare_antisym (Reference.lower a) (Reference.lower b)).
    destruct (Reference.lexCompare (Reference.lower a) (Reference.lower b));
      simpl; lia.
  - intros a b c H1 H2.
    apply (proj2 (signOf_nonpositive _)).
    exact (lexCompare_trans _ _ _ (proj1 (signOf_nonpositive _) H1)
             (proj1 (signOf_nonpositive _) H2)).
  - intros a b H. now rewrite !lower_idempotent.
Qed.

(* ===================================================================== *)
(** * The facets of a lead collection                                     *)
(* ===================================================================== *)



(* ===================================================================== *)
(** * Grouping by date added                                              *)
(* ===================================================================== *)

Section GroupingFacts.
Context {fns : DateFns}.

Lemma formatDayHeader_empty : formatDayHeader [] = Ok (lit "Unknown date").
Proof. reflexivity. Qed.

(** A date that parses gets a header; none of the calls throws. *)
Lemma headerOf_dated (lead : Lead) (t : Z) :
  parseISO (date_added lead) = Some t -> exists l, headerOf lead = Ok l.
Proof.
  intros E. unfold headerOf, formatDayHeader, ensureDate.
  destruct (date_added lead) as [|c s] eqn:D; simpl; [eauto|].
  rewrite E. simpl.
  destruct (differenceInCalendarDays TODAY t =? 0)%Z; [eauto|].
  destruct (differenceInCalendarDays TODAY t =? 1)%Z; eauto.
Qed.

(** The header of a non-empty date depends on its instant only. *)
Lemma headerOf_instant (a b : Lead) :
  date_added a <> [] -> date_added b <> [] ->
  parseISO (date_added a) = parseISO (date_added b) ->
  headerOf a = headerOf b.
Proof.
  intros Ha Hb E. unfold headerOf, formatDayHeader, ensureDate.
  destruct (date_added a); [congruence|].
  destruct (date_added b); [congruence|].
  simpl. now rewrite E.
Qed.

Lemma bucketPush_Permutation (map : list (jsstring * list Lead))
  (label : jsstring) (lead : Lead) :
  Permutation (List.concat (List.map snd (bucketPush map label lead)))
    (List.concat (List.map snd map) ++ [lead]).
Proof.
  induction map as [|[k bucket] map IH]; simpl; [reflexivity|].
  destruct (JsString.eqb k label); simpl.
  - rewrite <- !app_assoc. apply Permutation_app_head.
    apply Permutation_app_comm.
  - rewrite IH. now rewrite app_assoc.
Qed.

Lemma bucketPush_wellLabelled (map : list (jsstring * list Lead))
  (label : jsstring) (lead : Lead) :
  headerOf lead = Ok label ->
  wellLabelled map -> wellLabelled (bucketPush map label lead).
Proof.
  intros Hl. induction map as [|[k bucket] map IH]; intros W; simpl.
  - intros k' b' l' [[= <- <-]|[]] [<-|[]]. exact Hl.
  - destruct (JsString.eqb k label) eqn:E.
    + apply str_eqb_eq in E. subst k.
      intros k' b' l' [[= <- <-]|Hin] Hl'.
      * apply in_app_iff in Hl'. destruct Hl' as [Hl'|[<-|[]]]; auto.
        eapply W; [left; reflexivity | exact Hl'].
      * eapply W; [right; exact Hin | exact Hl'].
    + intros k' b' l' [[= <- <-]|Hin] Hl'.
      * eapply W; [left; reflexivity | exact Hl'].
      * eapply IH; eauto. intros k2 b2 l2 H2. apply W. now right.
Qed.

(** The loop, when every header is [Ok]: it ends with [Ok], loses no
    lead, and keeps the buckets well labelled. *)
Lemma groupLoop_total (sorted : list Lead) :
  forall map,
    (forall lead, In lead sorted -> exists l, headerOf lead = Ok l) ->
    wellLabelled map ->
    exists map',
      groupLoop sorted map = Ok map'
      /\ Permutation (List.concat (List.map snd map'))
           (List.concat (List.map snd map) ++ sorted)
      /\ wellLabelled map'.
Proof.
  induction sorted as [|lead sorted IH]; intros map Hok W; simpl.
  - exists map. rewrite app_nil_r. auto.
  - destruct (Hok lead (or_introl eq_refl)) as [l Hl].
    unfold headerOf in Hl. rewrite Hl.
    destruct (IH (bucketPush map l lead)) as (map' & E & Pm & W').
    + intros x Hx. apply Hok. now right.
    + now apply bucketPush_wellLabelled.
    + exists map'. split; [exact E|]. split; [|exact W'].
      rewrite Pm, bucketPush_Permutation, <- app_assoc. reflexivity.
Qed.

Lemma bucketLeads_entries (map : list (jsstring * list Lead)) :
  bucketLeads
    (List.map (fun e => {| groupLabel := fst e; groupLeads := snd e |}) map)
  = List.concat (List.map snd map).
Proof.
  unfold bucketLeads. rewrite map_map. reflexivity.
Qed.

End GroupingFacts.

(* ===================================================================== *)
(** * Grouping a collection whose dates all parse                         *)
(* ===================================================================== *)

Lemma StronglySorted_weaken_in {A} (R R' : A -> A -> Prop) (l : list A) :
  (forall x y, In x l -> In y l -> R x y -> R' x y) ->
  StronglySorted R l -> StronglySorted R' l.
Proof.
  intros HR Hs. induction Hs as [|x l Hs IH Hx]; constructor.
  - apply IH. intros a b Ha Hb. apply HR; now right.
  - rewrite Forall_forall in *. intros y Hy.
    apply HR; [now left | now right | auto].
Qed.

Lemma StronglySorted_app_inv {A} (R : A -> A -> Prop) (l1 l2 : list A) :
  StronglySorted R (l1 ++ l2) ->
  StronglySorted R l1 /\ StronglySorted R l2
  /\ (forall x y, In x l1 -> In y l2 -> R x y).
Proof.
  induction l1 as [|a l1 IH]; simpl; intros Hs.
  - repeat split; [constructor | exact Hs | intros ? ? []].
  - inversion Hs as [|? ? Hs' Ha]; subst.
    destruct (IH Hs') as (S1 & S2 & S12).
    rewrite Forall_forall in Ha.
    repeat split; auto.
    + constructor; [exact S1|]. apply Forall_forall. intros y Hy.
      apply Ha. apply in_app_iff. now left.
    + intros x y [<-|Hx] Hy; [|now apply S12].
      apply Ha. apply in_app_iff. now right.
Qed.

Section DatedFacts.
Context {engine : Engine} {fns : DateFns}.

Lemma datedAt_instant (lead : Lead) (t : Z) :
  datedAt lead t -> instantOf lead = t.
Proof. intros [_ E]. unfold instantOf. now rewrite E. Qed.

Lemma compareDateAdded_dated (a b : Lead) (ta tb : Z) :
  datedAt a ta -> datedAt b tb ->
  compareDateAdded a b = Some (tb - ta)%Z.
Proof.
  intros [_ Ea] [_ Eb]. unfold compareDateAdded. now rewrite Ea, Eb.
Qed.

Lemma notAfter_notOlder (a b : Lead) (ta tb : Z) :
  datedAt a ta -> datedAt b tb ->
  (notAfter compareDateAdded a b <-> notOlder a b).
Proof.
  intros Ha Hb. unfold notAfter, notOlder.
  rewrite (compareDateAdded_dated a b ta tb Ha Hb).
  rewrite (datedAt_instant a ta Ha), (datedAt_instant b tb Hb).
  simpl. rewrite Z.ltb_ge. lia.
Qed.

(** On dated leads the comparator is consistent: it is the order of the
    instants. *)
Lemma compareDateAdded_Consistent (leads : list Lead) :
  (forall lead, In lead leads -> exists t, datedAt lead t) ->
  Consistent compareDateAdded leads.
Proof.
  intros D.
  assert (V : forall a b, In a leads -> In b leads ->
            compareDateAdded a b = Some (instantOf b - instantOf a)%Z).
  { intros a b Ha Hb. destruct (D a Ha) as [ta Da], (D b Hb) as [tb Db].
    rewrite (compareDateAdded_dated a b ta tb Da Db).
    now rewrite (datedAt_instant a ta Da), (datedAt_instant b tb Db). }
  unfold Consistent, tied, before, after.
  repeat split.
  - intros a Ha. rewrite (V a a Ha Ha). simpl.
    rewrite andb_true_iff, !negb_true_iff, !Z.ltb_ge. lia.
  - intros a b Ha Hb. rewrite (V a b Ha Hb), (V b a Hb Ha). simpl.
    rewrite !andb_true_iff, !negb_true_iff, !Z.ltb_ge. lia.
  - intros a b c Ha Hb Hc.
    rewrite (V a b Ha Hb), (V b c Hb Hc), (V a c Ha Hc). simpl.
    rewrite !andb_true_iff, !negb_true_iff, !Z.ltb_ge. lia.
  - intros a b c Ha Hb Hc.
    rewrite (V a b Ha Hb), (V b c Hb Hc), (V a c Ha Hc). simpl.
    rewrite !Z.ltb_lt. lia.
  - intros a b c Ha Hb Hc.
    rewrite (V a b Ha Hb), (V b c Hb Hc), (V a c Ha Hc). simpl.
    rewrite !Z.ltb_lt. lia.
Qed.

(** On dated leads the sort orders by instant, most recent first. *)
Lemma sort_dated_sorted (leads : list Lead) :
  (forall lead, In lead leads -> exists t, datedAt lead t) ->
  StronglySorted notOlder (sort compareDateAdded leads).
Proof.
  intros D.
  apply StronglySorted_weaken_in with (R := notAfter compareDateAdded).
  - intros x y Hx Hy. apply sort_In in Hx. apply sort_In in Hy.
    destruct (D x Hx) as [tx Dx], (D y Hy) as [ty Dy].
    apply (notAfter_notOlder x y tx ty Dx Dy).
  - apply sort_sorted. now apply compareDateAdded_Consistent.
Qed.

(** Leads of the same instant keep their input order. *)
Lemma sort_dated_stable (leads : list Lead) (t : Z) :
  (forall lead, In lead leads -> exists t, datedAt lead t) ->
  filter (sameInstant t) (sort compareDateAdded leads)
  = filter (sameInstant t) leads.
Proof.
  intros D. apply sort_filter; [now apply compareDateAdded_Consistent|].
  intros x y Hx Hy Kx.
  destruct (D x Hx) as [tx Dx], (D y Hy) as [ty Dy].
  unfold sameInstant in *. apply Z.eqb_eq in Kx.
  unfold tied, before, after.
  rewrite (compareDateAdded_dated x y tx ty Dx Dy).
  rewrite (datedAt_instant x tx Dx) in Kx.
  rewrite (datedAt_instant y ty Dy). simpl.
  destruct (Z.eqb_spec ty t), (Z.ltb_spec (ty - tx) 0),
    (Z.ltb_spec 0 (ty - tx)); simpl; try reflexivity; lia.
Qed.

Lemma sorted_Contiguous (s : list Lead) :
  StronglySorted notOlder s -> daysAreIntervals s -> Contiguous s.
Proof.
  intros Hs Hc s1 y s2 z s3 x s4 E Hyx. subst s.
  apply StronglySorted_app_inv in Hs. destruct Hs as (_ & Hs & _).
  inversion Hs as [|? ? Hs' Hy]; subst.
  rewrite Forall_forall in Hy.
  apply StronglySorted_app_inv in Hs'. destruct Hs' as (_ & Hs' & _).
  inversion Hs' as [|? ? Hs'' Hz]; subst.
  rewrite Forall_forall in Hz.
  assert (Iy : In y (s1 ++ y :: s2 ++ z :: s3 ++ x :: s4))
    by (apply in_app_iff; right; now left).
  assert (Iz : In z (s1 ++ y :: s2 ++ z :: s3 ++ x :: s4)).
  { apply in_app_iff; right; right. apply in_app_iff; right; now left. }
  assert (Ix : In x (s1 ++ y :: s2 ++ z :: s3 ++ x :: s4)).
  { apply in_app_iff; right; right. apply in_app_iff; right; right.
    apply in_app_iff; right; now left. }
  assert (Ryz : notOlder y z).
  { apply Hy. apply in_app_iff; right; now left. }
  assert (Rzx : notOlder z x).
  { apply Hz. apply in_app_iff; right; now left. }
  unfold notOlder in *.
  rewrite (Hc y z x Iy Iz Ix (conj Rzx Ryz) Hyx). exact Hyx.
Qed.

Lemma bucketPush_cases (map : list (jsstring * list Lead))
  (label : jsstring) (lead : Lead) :
  (~ In label (List.map fst map)
   /\ bucketPush map label lead = map ++ [(label, [lead])])
  \/ (exists m1 bucket m2,
        map = m1 ++ (label, bucket) :: m2
        /\ bucketPush map label lead
           = m1 ++ (label, bucket ++ [lead]) :: m2).
Proof.
  induction map as [|[k b] map IH]; simpl.
  - left. split; [tauto | reflexivity].
  - destruct (JsString.eqb k label) eqn:E.
    + apply str_eqb_eq in E. subst k. right.
      exists [], b, map. split; reflexivity.
    + apply str_eqb_neq in E.
      destruct IH as [[Hn Hp] | (m1 & b1 & m2 & Hm & Hp)].
      * left. split; [intros [H|H]; tauto | now rewrite Hp].
      * right. exists ((k, b) :: m1), b1, m2.
        split; [now rewrite Hm | now rewrite Hp].
Qed.

(** Adding a lead whose header stands together with those before it:
    the lead goes to the end of the bucket sequence. *)
Lemma bucketPush_at_end (map : list (jsstring * list Lead))
  (label : jsstring) (lead : Lead) (rest : list Lead) :
  tidy map ->
  headerOf lead = Ok label ->
  Contiguous (List.concat (List.map snd map) ++ lead :: rest) ->
  tidy (bucketPush map label lead)
  /\ List.concat (List.map snd (bucketPush map label lead))
     = List.concat (List.map snd map) ++ [lead].
Proof.
  intros (Hn & Hw & He) Hl Hc.
  destruct (bucketPush_cases map label lead)
    as [[Hnew Hp] | (m1 & b & m2 & Hm & Hp)].
  - rewrite Hp. split.
    + split; [|split].
      * rewrite map_app. simpl. apply NoDup_app; auto.
        -- repeat constructor. tauto.
        -- intros k Hk [<-|[]]. tauto.
      * rewrite <- Hp. now apply bucketPush_wellLabelled.
      * intros k bkt Hin. apply in_app_iff in Hin.
        destruct Hin as [Hin|[[= <- <-]|[]]]; [eauto | discriminate].
    + rewrite map_app, concat_app. simpl. reflexivity.
  - assert (m2 = []) as ->.
    { destruct m2 as [|[k2 b2] m2]; [reflexivity|]. exfalso.
      assert (Hb : b <> []).
      { apply (He label). rewrite Hm. apply in_app_iff. right. now left. }
      assert (Hb2 : b2 <> []).
      { apply (He k2). rewrite Hm. apply in_app_iff. right. right. now left. }
      destruct b as [|y b]; [congruence|].
      destruct b2 as [|z b2]; [congruence|].
      assert (Hy : headerOf y = Ok label).
      { apply (Hw label (y :: b)); [|now left].
        rewrite Hm. apply in_app_iff. right. now left. }
      assert (Hz : headerOf z = Ok k2).
      { apply (Hw k2 (z :: b2)); [|now left].
        rewrite Hm. apply in_app_iff. right. right. now left. }
      assert (Hk : k2 <> label).
      { rewrite Hm, map_app in Hn. simpl in Hn.
        apply NoDup_remove_2 in Hn. intros ->. apply Hn.
        apply in_app_iff. right. now left. }
      assert (EQ : List.concat (List.map snd map) ++ lead :: rest
                   = List.concat (List.map snd m1)
                     ++ y :: b ++ z
                     :: (b2 ++ List.concat (List.map snd m2))
                     ++ lead :: rest).
      { rewrite Hm, map_app, concat_app. simpl.
        repeat (rewrite <- app_assoc; simpl). reflexivity. }
      specialize (Hc _ y b z _ lead rest EQ).
      rewrite Hy, Hl, Hz in Hc.
      specialize (Hc eq_refl). congruence. }
    rewrite Hp. split.
    + split; [|split].
      * rewrite Hm in Hn. rewrite map_app in *. exact Hn.
      * rewrite <- Hp. now apply bucketPush_wellLabelled.
      * intros k bkt Hin. apply in_app_iff in Hin.
        destruct Hin as [Hin|[[= <- <-]|[]]].
        -- apply (He k). rewrite Hm. apply in_app_iff. now left.
        -- now destruct b.
    + rewrite Hm, !map_app, !concat_app. simpl.
      now rewrite !app_nil_r, app_assoc.
Qed.

(** The loop on a sequence whose headers stand together: the buckets,
    one after the other, are the sequence itself. *)
Lemma groupLoop_contiguous (rest : list Lead) :
  forall map,
    tidy map ->
    Contiguous (List.concat (List.map snd map) ++ rest) ->
    (forall lead, In lead rest -> exists l, headerOf lead = Ok l) ->
    exists map',
      groupLoop rest map = Ok map'
      /\ tidy map'
      /\ List.concat (List.map snd map')
         = List.concat (List.map snd map) ++ rest.
Proof.
  induction rest as [|lead rest IH]; intros map T C Hok; simpl.
  - exists map. now rewrite app_nil_r.
  - destruct (Hok lead (or_introl eq_refl)) as [l Hl].
    pose proof Hl as Hl'. unfold headerOf in Hl'. rewrite Hl'.
    destruct (bucketPush_at_end map l lead rest T Hl C) as [T' E'].
    destruct (IH (bucketPush map l lead) T') as (map' & E & T'' & Ec).
    + rewrite E', <- app_assoc. exact C.
    + intros x Hx. apply Hok. now right.
    + exists map'. split; [exact E|]. split; [exact T''|].
      rewrite Ec, E', <- app_assoc. reflexivity.
Qed.

(** In buckets that are tidy and, one after the other, sorted by instant,
    the first member of a bucket is strictly more recent than that of any
    later bucket. *)
Lemma heads_descend (map : list (jsstring * list Lead)) :
  tidy map ->
  (forall lead, In lead (List.concat (List.map snd map)) ->
     exists t, datedAt lead t) ->
  StronglySorted notOlder (List.concat (List.map snd map)) ->
  StronglySorted (fun e1 e2 => headNewer (toGroup e1) (toGroup e2)) map.
Proof.
  induction map as [|[k b] map IH]; intros (Hn & Hw & He) D Hs;
    [constructor|].
  simpl in Hs, D, Hn.
  apply StronglySorted_app_inv in Hs. destruct Hs as (Sb & Sm & Sbm).
  inversion Hn as [|? ? Hk Hn']; subst.
  constructor.
  - apply IH; auto.
    + split; [exact Hn'|]. split.
      * intros k' b' l' Hin. apply (Hw k' b' l'). now right.
      * intros k' b' Hin. apply (He k' b'). now right.
    + intros lead Hin. apply D. apply in_app_iff. now right.
  - apply Forall_forall. intros [k2 b2] Hin h1 h2 H1 H2.
    simpl in H1, H2.
    destruct b as [|y b]; [discriminate|]. injection H1 as ->.
    destruct b2 as [|z b2]; [discriminate|]. injection H2 as ->.
    assert (Iz : In h2 (List.concat (List.map snd map))).
    { apply in_concat. exists (h2 :: b2). split; [|now left].
      apply in_map_iff. exists (k2, h2 :: b2). auto. }
    assert (R : notOlder h1 h2) by (apply Sbm; [now left | exact Iz]).
    destruct (D h1) as [t1 D1]; [apply in_app_iff; left; now left|].
    destruct (D h2) as [t2 D2]; [apply in_app_iff; now right|].
    unfold notOlder in R.
    assert (instantOf h1 <> instantOf h2); [|lia].
    intros Eq.
    assert (Hh : headerOf h1 = headerOf h2).
    { destruct D1 as [N1 P1], D2 as [N2 P2].
      apply headerOf_instant; auto.
      unfold instantOf in Eq. rewrite P1, P2 in Eq. congruence. }
    rewrite (Hw k (h1 :: b) h1 (or_introl eq_refl) (or_introl eq_refl)) in Hh.
    rewrite (Hw k2 (h2 :: b2) h2 (or_intror Hin) (or_introl eq_refl)) in Hh.
    injection Hh as ->. apply Hk.
    apply in_map_iff. exists (k2, h2 :: b2). auto.
Qed.

Lemma tidy_nil : tidy [].
Proof.
  split; [constructor|]. split; [intros ? ? ? [] | intros ? ? []].
Qed.

End DatedFacts.

(* ===================================================================== *)
(** * Day labels under the laws of the calendar                           *)
(* ===================================================================== *)

Section CalendarFacts.
Context {fns : DateFns}.
Context {calendar : CalendarLaws fns}.

Lemma days_self (a : Z) : differenceInCalendarDays a a = 0%Z.
Proof. pose proof (days_additive a a a). lia. Qed.

Lemma days_opp (a b : Z) :
  differenceInCalendarDays b a = (- differenceInCalendarDays a b)%Z.
Proof.
  pose proof (days_additive a b a). pose proof (days_self a). lia.
Qed.

(** An instant between two instants of one day is of that day. *)
Lemma same_day_between (a b c : Z) :
  (c <= b <= a)%Z -> differenceInCalendarDays a c = 0%Z ->
  differenceInCalendarDays a b = 0%Z.
Proof.
  intros [H1 H2] E.
  pose proof (days_additive a b c).
  pose proof (days_monotone a b H2). pose proof (days_monotone b c H1).
  lia.
Qed.

Lemma same_day_year (a b : Z) :
  differenceInCalendarDays a b = 0%Z ->
  isSameYear a TODAY = isSameYear b TODAY.
Proof.
  intros E.
  assert (E' : differenceInCalendarDays b a = 0%Z)
    by (rewrite days_opp; lia).
  pose proof (year_of_day a b E) as Y. pose proof (year_of_day b a E') as Y'.
  destruct (isSameYear a TODAY) eqn:A, (isSameYear b TODAY) eqn:B;
    try reflexivity.
  - now rewrite (year_trans b a TODAY Y' A) in B.
  - now rewrite (year_trans a b TODAY Y B) in A.
Qed.

(** Instants of one day have one label. *)
Lemma dayLabel_of_day (a b : Z) :
  differenceInCalendarDays a b = 0%Z -> dayLabel a = dayLabel b.
Proof.
  intros E. unfold dayLabel.
  pose proof (days_additive TODAY a b) as Ad.
  replace (differenceInCalendarDays TODAY b)
    with (differenceInCalendarDays TODAY a) by lia.
  rewrite (same_day_year a b E).
  rewrite (format_of_day a b (lit "d MMM") (or_introl eq_refl) E).
  rewrite (format_of_day a b (lit "d MMM yyyy") (or_intror eq_refl) E).
  reflexivity.
Qed.

Lemma relative_labels_differ : lit "Today" <> lit "Yesterday".
Proof. discriminate. Qed.

(** Instants of one label are of one day. *)
Lemma dayLabel_tells_days (a c : Z) :
  dayLabel a = dayLabel c -> differenceInCalendarDays a c = 0%Z.
Proof.
  unfold dayLabel.
  pose proof (days_additive a TODAY c) as Ad.
  pose proof (days_opp TODAY a) as Op.
  pose proof (format_not_relative a _ (or_introl eq_refl)) as [Ra1 Ra2].
  pose proof (format_not_relative a _ (or_intror eq_refl)) as [Ra3 Ra4].
  pose proof (format_not_relative c _ (or_introl eq_refl)) as [Rc1 Rc2].
  pose proof (format_not_relative c _ (or_intror eq_refl)) as [Rc3 Rc4].
  pose proof relative_labels_differ as RL.
  unfold dayMonth, dayMonthYear in *.
  destruct (Z.eqb_spec (differenceInCalendarDays TODAY a) 0) as [A0|A0];
    [|destruct (Z.eqb_spec (differenceInCalendarDays TODAY a) 1) as [A1|A1];
      [|destruct (isSameYear a TODAY) eqn:Ya]];
    (destruct (Z.eqb_spec (differenceInCalendarDays TODAY c) 0) as [C0|C0];
     [|destruct (Z.eqb_spec (differenceInCalendarDays TODAY c) 1) as [C1|C1];
       [|destruct (isSameYear c TODAY) eqn:Yc]]);
    intros E; try lia; try congruence.
  - apply format_tells_days_of_year; [|exact E].
    apply (year_trans a TODAY c Ya). now rewrite year_sym.
  - exfalso. exact (format_patterns_differ a c E).
  - exfalso. symmetry in E. exact (format_patterns_differ c a E).
  - now apply format_tells_days.
Qed.

(** The header of a dated lead is the day label of its instant. *)
Lemma headerOf_dayLabel (lead : Lead) (t : Z) :
  parseISO (date_added lead) = Some t -> headerOf lead = Ok (dayLabel t).
Proof.
  intros E. unfold headerOf, formatDayHeader, ensureDate, dayLabel.
  destruct (date_added lead) as [|c s] eqn:D;
    [rewrite parseISO_empty in E; discriminate|].
  simpl. rewrite E. simpl.
  destruct (differenceInCalendarDays TODAY t =? 0)%Z; [reflexivity|].
  destruct (differenceInCalendarDays TODAY t =? 1)%Z; [reflexivity|].
  now destruct (isSameYear t TODAY).
Qed.

Lemma parsed_datedAt (lead : Lead) (t : Z) :
  parseISO (date_added lead) = Some t -> datedAt lead t.
Proof.
  intros E. split; [|exact E]. intros N. rewrite N, parseISO_empty in E.
  discriminate.
Qed.

(** The leads of one header form an interval in time. *)
Lemma calendar_daysAreIntervals (leads : list Lead) :
  (forall lead, In lead leads ->
     exists t, parseISO (date_added lead) = Some t) ->
  daysAreIntervals leads.
Proof.
  intros D a b c Ha Hb Hc Hbetween Hac.
  destruct (D a Ha) as [ta Ea], (D b Hb) as [tb Eb], (D c Hc) as [tc Ec].
  rewrite (headerOf_dayLabel a ta Ea), (headerOf_dayLabel c tc Ec) in Hac.
  rewrite (headerOf_dayLabel a ta Ea), (headerOf_dayLabel b tb Eb).
  injection Hac as Hac. f_equal. symmetry.
  apply dayLabel_of_day.
  apply (same_day_between ta tb tc).
  - unfold instantOf in Hbetween. now rewrite Ea, Eb, Ec in Hbetween.
  - now apply dayLabel_tells_days.
Qed.

End CalendarFacts.

(* ===================================================================== *)
(** * The reference calendar is a calendar                                *)
(* ===================================================================== *)

Lemma belowAll_spec (P : Z -> bool) (n : N) :
  belowAll P n = true -> forall z, (0 <= z < Z.of_N n)%Z -> P z = true.
Proof.
  unfold belowAll.
  assert (S : snd (N.iter n (fun s => (fst s && P (snd s), (snd s + 1)%Z))
                     (true, 0%Z)) = Z.of_N n
              /\ (fst (N.iter n (fun s => (fst s && P (snd s), (snd s + 1)%Z))
                         (true, 0%Z)) = true ->
                  forall z, (0 <= z < Z.of_N n)%Z -> P z = true)).
  { induction n as [|n [IH1 IH2]] using N.peano_ind.
    - split; [reflexivity|]. intros _ z Hz. simpl in Hz. lia.
    - rewrite N.iter_succ. cbn [fst snd]. rewrite IH1. split; [lia|].
      intros H z Hz. apply andb_true_iff in H. destruct H as [H1 H2].
      destruct (Z.eq_dec z (Z.of_N n)) as [->|N]; [exact H2|].
      apply IH2; [exact H1 | lia]. }
  apply S.
Qed.

Lemma civil_all_checked : belowAll civilChecked 146097 = true.
Proof. vm_compute. reflexivity. Qed.

Lemma civilFromDays_era (z : Z) :
  let era := ((z + 719468) / 146097)%Z in
  let doe := ((z + 719468) - era * 146097)%Z in
  Reference.civilFromDays z
  = (let '(yoe, m, d) := civilOfEra doe in
     ((if (m <=? 2)%Z then yoe + era * 400 + 1 else yoe + era * 400)%Z, m, d)).
Proof. reflexivity. Qed.

(** The civil date of a day: month and day in range, and the day can be
    read back from it. *)
Lemma civilFromDays_spec (z : Z) :
  exists era yoe m d,
    Reference.civilFromDays z
    = ((if (m <=? 2)%Z then yoe + era * 400 + 1 else yoe + era * 400)%Z, m, d)
    /\ (0 <= yoe <= 399)%Z /\ (1 <= m <= 12)%Z /\ (1 <= d <= 31)%Z
    /\ z = (era * 146097 + dayOfEra yoe m d - 719468)%Z.
Proof.
  pose proof (civilFromDays_era z) as E. cbv zeta in E.
  set (era := ((z + 719468) / 146097)%Z) in *.
  set (doe := ((z + 719468) - era * 146097)%Z) in *.
  assert (R : (0 <= doe < 146097)%Z).
  { subst doe era.
    pose proof (Z.div_mod (z + 719468) 146097 ltac:(lia)).
    pose proof (Z.mod_pos_bound (z + 719468) 146097 ltac:(lia)). lia. }
  pose proof (belowAll_spec civilChecked 146097 civil_all_checked doe R) as C.
  unfold civilChecked in C.
  destruct (civilOfEra doe) as [[yoe m] d].
  rewrite !andb_true_iff, !Z.leb_le, Z.eqb_eq in C.
  exists era, yoe, m, d. split; [exact E|]. subst doe. lia.
Qed.

Lemma civilFromDays_injective (z1 z2 : Z) :
  Reference.civilFromDays z1 = Reference.civilFromDays z2 -> z1 = z2.
Proof.
  destruct (civilFromDays_spec z1)
    as (e1 & y1 & m1 & d1 & E1 & Y1 & M1 & D1 & ->).
  destruct (civilFromDays_spec z2)
    as (e2 & y2 & m2 & d2 & E2 & Y2 & M2 & D2 & ->).
  rewrite E1, E2. intros [= Hy -> ->].
  assert (y1 = y2 /\ e1 = e2) as [-> ->]
    by (destruct (m2 <=? 2)%Z; lia).
  reflexivity.
Qed.

(** Decimal texts. *)
Lemma lit_injective (s t : string) : lit s = lit t -> s = t.
Proof.
  unfold lit, JsString.lit. intros H.
  rewrite <- (string_of_list_ascii_of_string s).
  rewrite <- (string_of_list_ascii_of_string t). f_equal.
  revert H. generalize (list_ascii_of_string s) (list_ascii_of_string t).
  induction l as [|a l IH]; intros [|b l']; simpl; try discriminate;
    [reflexivity|].
  intros [= H1 H2]. f_equal; [|now apply IH].
  rewrite <- (ascii_N_embedding a), <- (ascii_N_embedding b). now rewrite H1.
Qed.

Lemma uintText_injective (u v : Decimal.uint) :
  lit (NilEmpty.string_of_uint u) = lit (NilEmpty.string_of_uint v) -> u = v.
Proof.
  intros H. apply lit_injective in H.
  pose proof (NilEmpty.usu u) as A. pose proof (NilEmpty.usu v) as B.
  rewrite H in A. rewrite A in B. now injection B.
Qed.

Lemma ofNat_injective (n m : nat) :
  JsString.ofNat n = JsString.ofNat m -> n = m.
Proof.
  unfold JsString.ofNat. intros H. apply uintText_injective in H.
  rewrite <- (Unsigned.of_to n), <- (Unsigned.of_to m). now rewrite H.
Qed.

Lemma uint_digits (u : Decimal.uint) :
  Forall isDigit (lit (NilEmpty.string_of_uint u)).
Proof.
  induction u; simpl; constructor; try exact IHu; unfold isDigit; simpl; lia.
Qed.

Lemma ofNat_digits (n : nat) : Forall isDigit (JsString.ofNat n).
Proof. apply uint_digits. Qed.

Lemma ofNat_positive (p : positive) :
  exists c rest, JsString.ofNat (Pos.to_nat p) = c :: rest /\ isDigit c.
Proof.
  pose proof (ofNat_digits (Pos.to_nat p)) as D.
  destruct (JsString.ofNat (Pos.to_nat p)) as [|c rest] eqn:E.
  - exfalso. unfold JsString.ofNat in E.
    assert (U : lit (NilEmpty.string_of_uint (Nat.to_uint (Pos.to_nat p)))
                = lit (NilEmpty.string_of_uint Decimal.Nil)) by exact E.
    apply uintText_injective in U.
    pose proof (Unsigned.of_to (Pos.to_nat p)) as X. rewrite U in X.
    change (Nat.of_uint Decimal.Nil) with 0%nat in X.
    pose proof (Pos2Nat.is_pos p). lia.
  - inversion D; subst. eauto.
Qed.

Lemma digits_noSpace (s : jsstring) : Forall isDigit s -> noSpace s.
Proof.
  unfold noSpace. apply Forall_impl. unfold isDigit. intros c H. lia.
Qed.

Lemma showZ_noSpace (z : Z) : noSpace (Reference.showZ z).
Proof.
  destruct z as [|p|p]; simpl.
  - repeat constructor; discriminate.
  - apply digits_noSpace, ofNat_digits.
  - constructor; [discriminate|]. apply digits_noSpace, ofNat_digits.
Qed.

Lemma showZ_injective (z1 z2 : Z) :
  Reference.showZ z1 = Reference.showZ z2 -> z1 = z2.
Proof.
  assert (Zero : forall p, Reference.showZ 0 <> JsString.ofNat (Pos.to_nat p)).
  { intros p H. change (Reference.showZ 0) with (JsString.ofNat 0) in H.
    apply ofNat_injective in H. pose proof (Pos2Nat.is_pos p). lia. }
  assert (Minus : forall p s, JsString.ofNat (Pos.to_nat p) <> 45%N :: s).
  { intros p s H. destruct (ofNat_positive p) as (c & rest & E & D).
    rewrite E in H. injection H as -> _. unfold isDigit in D. lia. }
  destruct z1 as [|p|p], z2 as [|q|q]; simpl; intros H;
    try reflexivity;
    try (exfalso; apply (Zero _ H));
    try (exfalso; symmetry in H; apply (Zero _ H));
    try (exfalso; apply (Minus _ _ H));
    try (exfalso; symmetry in H; apply (Minus _ _ H));
    try discriminate H.
  - apply ofNat_injective in H. f_equal. now apply Pos2Nat.inj.
  - injection H as H. apply ofNat_injective in H. f_equal.
    now apply Pos2Nat.inj.
Qed.

Lemma showZ_day (d : Z) :
  (1 <= d)%Z -> exists c rest, Reference.showZ d = c :: rest /\ isDigit c.
Proof.
  destruct d as [|p|p]; try lia. intros _. apply ofNat_positive.
Qed.

(** Texts are told apart at their first space. *)
Lemma split_space (s1 s2 r1 r2 : jsstring) :
  noSpace s1 -> noSpace s2 ->
  s1 ++ 32%N :: r1 = s2 ++ 32%N :: r2 -> s1 = s2 /\ r1 = r2.
Proof.
  revert s2. induction s1 as [|c s1 IH]; intros [|c2 s2] N1 N2; simpl.
  - now intros [= ->].
  - intros [= <- _]. inversion N2; subst. congruence.
  - intros [= -> _]. inversion N1; subst. congruence.
  - intros [= -> H]. inversion N1; subst. inversion N2; subst.
    destruct (IH s2) as [-> ->]; auto.
Qed.

Lemma month_cases (m : Z) :
  (1 <= m <= 12)%Z ->
  (m = 1 \/ m = 2 \/ m = 3 \/ m = 4 \/ m = 5 \/ m = 6 \/ m = 7
   \/ m = 8 \/ m = 9 \/ m = 10 \/ m = 11 \/ m = 12)%Z.
Proof. lia. Qed.

Lemma monthName_spec (m : Z) :
  (1 <= m <= 12)%Z ->
  noSpace (Reference.monthName m)
  /\ forall m', (1 <= m' <= 12)%Z ->
       Reference.monthName m = Reference.monthName m' -> m = m'.
Proof.
  intros H. apply month_cases in H. split.
  - destruct H as [->|[->|[->|[->|[->|[->|[->|[->|[->|[->|[->| ->]]]]]]]]]]];
      vm_compute; repeat constructor; discriminate.
  - intros m' H'. apply month_cases in H'.
    destruct H as [->|[->|[->|[->|[->|[->|[->|[->|[->|[->|[->| ->]]]]]]]]]]];
      destruct H'
        as [->|[->|[->|[->|[->|[->|[->|[->|[->|[->|[->| ->]]]]]]]]]]];
      first [reflexivity | vm_compute; discriminate].
Qed.

(** The two texts of the reference [format]. *)
Lemma formatUtc_dayMonthYear (t : Z) :
  Reference.formatUtc t dayMonthYear
  = (let '(y, m, d) := Reference.civilFromDays (Reference.dayOf t) in
     Reference.showZ d ++ 32%N :: Reference.monthName m
     ++ 32%N :: Reference.showZ y).
Proof.
  unfold Reference.formatUtc.
  destruct (Reference.civilFromDays (Reference.dayOf t)) as [[y m] d].
  replace (JsString.eqb dayMonthYear (lit "d MMM yyyy")) with true
    by reflexivity.
  reflexivity.
Qed.

Lemma formatUtc_dayMonth (t : Z) :
  Reference.formatUtc t dayMonth
  = (let '(y, m, d) := Reference.civilFromDays (Reference.dayOf t) in
     Reference.showZ d ++ 32%N :: Reference.monthName m).
Proof.
  unfold Reference.formatUtc.
  destruct (Reference.civilFromDays (Reference.dayOf t)) as [[y m] d].
  replace (JsString.eqb dayMonth (lit "d MMM yyyy")) with false
    by reflexivity.
  reflexivity.
Qed.

Lemma noSpace_app_space (s r t : jsstring) :
  noSpace t -> t <> s ++ 32%N :: r.
Proof.
  intros N ->. unfold noSpace in N. rewrite Forall_forall in N.
  apply (N 32%N); [|reflexivity]. apply in_app_iff. right. now left.
Qed.

#[export] Instance referenceCalendar : CalendarLaws Reference.dateFns.
Proof.
  constructor; cbn [parseISO differenceInCalendarDays isSameYear format TODAY
                    Reference.dateFns].
  - reflexivity.
  - intros a b c. lia.
  - intros a b H. unfold Reference.dayOf.
    pose proof (Z.div_le_mono b a Reference.msPerDay ltac:(reflexivity) H).
    lia.
  - intros a b H. unfold Reference.yearOf.
    replace (Reference.dayOf a) with (Reference.dayOf b) by lia.
    apply Z.eqb_refl.
  - intros a b. apply Z.eqb_sym.
  - intros a b c H1 H2. apply Z.eqb_eq in H1, H2. apply Z.eqb_eq. congruence.
  - intros a b pattern _ H. unfold Reference.formatUtc.
    now replace (Reference.dayOf a) with (Reference.dayOf b) by lia.
  - intros a b. rewrite !formatUtc_dayMonthYear.
    destruct (civilFromDays_spec (Reference.dayOf a))
      as (e1 & y1 & m1 & d1 & E1 & _ & M1 & _ & _).
    destruct (civilFromDays_spec (Reference.dayOf b))
      as (e2 & y2 & m2 & d2 & E2 & _ & M2 & _ & _).
    intros H.
    assert (X : Reference.civilFromDays (Reference.dayOf a)
                = Reference.civilFromDays (Reference.dayOf b)).
    { rewrite E1, E2 in *.
      apply split_space in H; try apply showZ_noSpace.
      destruct H as [Hd H]. apply showZ_injective in Hd.
      apply split_space in H; try (now apply monthName_spec).
      destruct H as [Hm Hy]. apply showZ_injective in Hy.
      apply (proj2 (monthName_spec m1 M1) m2 M2) in Hm. congruence. }
    apply civilFromDays_injective in X. lia.
  - intros a b Y. rewrite !formatUtc_dayMonth.
    unfold Reference.yearOf in Y. apply Z.eqb_eq in Y.
    destruct (civilFromDays_spec (Reference.dayOf a))
      as (e1 & y1 & m1 & d1 & E1 & _ & M1 & _ & _).
    destruct (civilFromDays_spec (Reference.dayOf b))
      as (e2 & y2 & m2 & d2 & E2 & _ & M2 & _ & _).
    intros H.
    assert (X : Reference.civilFromDays (Reference.dayOf a)
                = Reference.civilFromDays (Reference.dayOf b)).
    { rewrite E1, E2 in *. cbn [fst] in Y.
      apply split_space in H; try apply showZ_noSpace.
      destruct H as [Hd Hm]. apply showZ_injective in Hd.
      apply (proj2 (monthName_spec m1 M1) m2 M2) in Hm. congruence. }
    apply civilFromDays_injective in X. lia.
  - intros a b. rewrite formatUtc_dayMonth, formatUtc_dayMonthYear.
    destruct (civilFromDays_spec (Reference.dayOf a))
      as (e1 & y1 & m1 & d1 & E1 & _ & M1 & _ & _).
    destruct (civilFromDays_spec (Reference.dayOf b))
      as (e2 & y2 & m2 & d2 & E2 & _ & M2 & _ & _).
    rewrite E1, E2. intros H.
    apply split_space in H; try apply showZ_noSpace.
    destruct H as [_ H].
    revert H. apply noSpace_app_space. now apply monthName_spec.
  - intros a pattern P.
    assert (F : exists c rest,
              Reference.formatUtc a pattern = c :: rest /\ isDigit c).
    { destruct (civilFromDays_spec (Reference.dayOf a))
        as (e1 & y1 & m1 & d1 & E1 & _ & _ & D1 & _).
      destruct (showZ_day d1 ltac:(lia)) as (c & rest & Ec & Dc).
      destruct P as [->| ->];
        [rewrite formatUtc_dayMonth | rewrite formatUtc_dayMonthYear];
        rewrite E1, Ec; simpl; eauto. }
    destruct F as (c & rest & -> & D). unfold isDigit in D.
    split; intros [= -> _]; lia.
Qed.


Lemma calendarLeads_dated (lead : Lead) :
  In lead calendarLeads ->
  exists t, parseISO (DateFns := Reference.dateFns) (date_added lead) = Some t.
Proof.
  intros [<-|[<-|[<-|[<-|[<-|[<-|[]]]]]]]; eexists; reflexivity.
Qed.


(* ===================================================================== *)
(** * More on the filter: how it composes, and its other clauses          *)
(* ===================================================================== *)

Lemma filter_filter_comm {A} (f g : A -> bool) (l : list A) :
  filter f (filter g l) = filter g (filter f l).
Proof.
  induction l as [|x l IH]; simpl; [reflexivity|].
  destruct (g x) eqn:G, (f x) eqn:F; simpl; rewrite ?G, ?F, IH; reflexivity.
Qed.

Lemma filter_idempotent {A} (f : A -> bool) (l : list A) :
  filter f (filter f l) = filter f l.
Proof.
  induction l as [|x l IH]; simpl; [reflexivity|].
  destruct (f x) eqn:F; simpl; rewrite ?F, IH; reflexivity.
Qed.

(** X1. Filtering composes as a user expects: applying the same filter
    again changes nothing, two filters may be applied in either order, and
    filtering a list given in two parts is filtering each part. *)
Theorem applyLeadFilters_composes
  (host : Host) (f g : LeadFilters) (leads more : list Lead) :
  applyLeadFilters (applyLeadFilters leads f) f = applyLeadFilters leads f
  /\ applyLeadFilters (applyLeadFilters leads f) g
     = applyLeadFilters (applyLeadFilters leads g) f
  /\ applyLeadFilters (leads ++ more) f
     = applyLeadFilters leads f ++ applyLeadFilters more f.
Proof.
  rewrite !applyLeadFilters_filter. repeat split.
  - apply filter_idempotent.
  - apply filter_filter_comm.
  - apply filter_app.
Qed.

(** X2. The transaction clause: inactive when neither flag is selected;
    with only "sale" selected the lead must be for sale; with only "rent",
    for rent; with both, for sale or for rent (one is enough). *)
Theorem transaction_clause_spec
  (host : Host) (filters : LeadFilters) (raw : Raw) :
  transactionRejects filters raw = false
  <-> match sale (transaction filters), rent (transaction filters) with
      | false, false => True
      | true, false => isSale raw = true
      | false, true => isRent raw = true
      | true, true => isSale raw = true \/ isRent raw = true
      end.
Proof.
  unfold transactionRejects, saleSelected, rentSelected, isSale, isRent.
  destruct (sale (transaction filters)), (rent (transaction filters));
    destruct (ToBoolean (getField raw (lit "for_sale")));
    destruct (ToBoolean (getField raw (lit "for_rent")));
    simpl; intuition congruence.
Qed.

(** X3. The rooms clause: "all" lets every lead pass; "5+" lets a lead
    pass iff its [rooms] is numeric and at least 5; a choice "1" to "4"
    iff its [rooms] is numeric and equal to the choice. A lead without a
    numeric [rooms] fails every choice but "all". *)
Theorem rooms_clause_spec
  (host : Host) (filters : LeadFilters) (raw : Raw) :
  let roomsOf := toNumber (getField raw (lit "rooms")) in
  roomsRejects filters raw = false
  <-> match rooms filters with
      | RoomsAll => True
      | Rooms5Plus =>
          exists r, roomsOf = Some r
            /\ JsNumber.ge r (JsNumber.ofZ 5) = true
      | choice =>
          exists r, roomsOf = Some r
            /\ JsNumber.strictEq r (roomsNumber choice) = true
      end.
Proof.
  intros roomsOf. subst roomsOf. unfold roomsRejects.
  destruct (rooms filters);
    try tauto;
    destruct (toNumber (getField raw (lit "rooms"))) as [r|] eqn:E;
    try (split; [discriminate | intros (q & [=] & _)]);
    try (rewrite negb_false_iff; split;
         [intros H; exists r; auto | intros (q & [= <-] & H); exact H]).
  pose proof (toNumber_not_NaN _ _ E) as N.
  rewrite <- (ge_iff_not_lt r (JsNumber.ofZ 5) N eq_refl).
  split; [intros H; exists r; auto | intros (q & [= <-] & H); exact H].
Qed.

(** X4. The property-type clause, when at least one type is selected: a
    lead passes iff its [property_type] is numeric, is not zero, and is one
    of the selected types. So a lead of type 0 is rejected even by a filter
    that lists 0. *)
Theorem propertyType_clause_spec
  (host : Host) (filters : LeadFilters) (raw : Raw)
  (selected : propertyTypes filters <> []) :
  let typeOf := toNumber (getField raw (lit "property_type")) in
  (propertyTypeRejects filters raw = false
   <-> exists p, typeOf = Some p
         /\ JsNumber.truthy p = true
         /\ includes (propertyTypes filters) p = true)
  /\ (forall p, typeOf = Some p ->
        JsNumber.strictEq p (JsNumber.ofZ 0) = true ->
        propertyTypeRejects filters raw = true).
Proof.
  intros typeOf. subst typeOf. unfold propertyTypeRejects.
  destruct (propertyTypes filters) as [|t ts] eqn:T; [contradiction|].
  cbn [List.length Nat.ltb Nat.leb].
  destruct (toNumber (getField raw (lit "property_type"))) as [p|].
  - split.
    + rewrite orb_false_iff, !negb_false_iff. split.
      * intros [A B]. exists p. auto.
      * intros (q & [= <-] & A & B). auto.
    + intros q [= <-] Z0. unfold JsNumber.truthy, JsNumber.strictEq in *.
      change (JsNumber.ofZ 0) with 0%float in Z0. now rewrite Z0.
  - split.
    + split; [discriminate | intros (q & [=] & _)].
    + intros q [=].
Qed.

Lemma propertyType_clause_spec_witness :
  propertyTypeRejects (host := Reference.host)
    (typeFilter [JsNumber.ofZ 1; JsNumber.ofZ 2]) (rawOf zoneLead) = false.
Proof.
  assert (S : propertyTypes (typeFilter [JsNumber.ofZ 1; JsNumber.ofZ 2])
              <> []) by discriminate.
  apply (proj1 (propertyType_clause_spec Reference.host
                  (typeFilter [JsNumber.ofZ 1; JsNumber.ofZ 2])
                  (rawOf zoneLead) S)).
  exists (JsNumber.ofZ 2). repeat split.
Defined.

(** X5. The zone clause, when a zone is selected: a lead passes iff its
    [zone_id] is numeric, strictly equal to the selected id, and not zero.
    For a selected id other than zero this is the exact match; a selected
    zone 0 matches no lead. *)
Theorem zone_clause_spec
  (host : Host) (filters : LeadFilters) (wanted : number) (raw : Raw)
  (selected : zoneId filters = Some wanted) :
  let zoneOf := toNumber (getField raw (lit "zone_id")) in
  (zoneRejects filters raw = false
   <-> exists z, zoneOf = Some z
         /\ JsNumber.strictEq z wanted = true
         /\ JsNumber.truthy z = true)
  /\ (JsNumber.truthy wanted = true ->
      (zoneRejects filters raw = false
       <-> exists z, zoneOf = Some z /\ JsNumber.strictEq z wanted = true))
  /\ (JsNumber.strictEq wanted (JsNumber.ofZ 0) = true ->
      zoneRejects filters raw = true).
Proof.
  intros zoneOf. subst zoneOf.
  assert (Main : zoneRejects filters raw = false
                 <-> exists z,
                       toNumber (getField raw (lit "zone_id")) = Some z
                       /\ JsNumber.strictEq z wanted = true
                       /\ JsNumber.truthy z = true).
  { unfold zoneRejects. rewrite selected.
    destruct (toNumber (getField raw (lit "zone_id"))) as [z|].
    - rewrite orb_false_iff, !negb_false_iff. split.
      + intros [A B]. exists z. auto.
      + intros (q & [= <-] & A & B). auto.
    - split; [discriminate | intros (q & [=] & _)]. }
  assert (Zero : forall z, JsNumber.strictEq z wanted = true ->
                   JsNumber.truthy z = JsNumber.truthy wanted).
  { intros z E. unfold JsNumber.truthy, JsNumber.strictEq in *.
    destruct (eqb_true_not_NaN z wanted E) as [Nz Nw]. rewrite Nz, Nw.
    rewrite !orb_false_r. f_equal.
    destruct (z =? 0)%float eqn:A, (wanted =? 0)%float eqn:B;
      try reflexivity.
    - rewrite eqb_sym in E.
      now rewrite (eqb_trans wanted z 0%float E A) in B.
    - now rewrite (eqb_trans z wanted 0%float E B) in A. }
  split; [exact Main|]. split.
  - intros Tw. rewrite Main. split.
    + intros (z & A & B & _). eauto.
    + intros (z & A & B). exists z. repeat split; auto.
      now rewrite (Zero z B).
  - intros W0. apply not_false_iff_true. intros R.
    apply Main in R. destruct R as (z & _ & B & Tz).
    rewrite (Zero z B) in Tz.
    unfold JsNumber.truthy, JsNumber.strictEq in *.
    change (JsNumber.ofZ 0) with 0%float in W0. now rewrite W0 in Tz.
Qed.

Lemma zone_clause_spec_witness :
  zoneRejects (host := Reference.host) (zoneFilter (JsNumber.ofZ 7))
    (rawOf zoneLead) = false.
Proof.
  apply (proj1 (zone_clause_spec Reference.host
                  (zoneFilter (JsNumber.ofZ 7)) (JsNumber.ofZ 7)
                  (rawOf zoneLead) eq_refl)).
  exists (JsNumber.ofZ 7). repeat split.
Defined.

(** X6. The date-range clause. It is inactive when each of [dateFrom]
    and [dateTo] is unset or the empty string. When active, a lead passes
    iff its [date_added] is a date, not before the start of the [from] day
    and not after the last second of the [to] day; a bound that is unset,
    empty, or not a date sets no limit, and a lead whose [date_added] is
    not a date is rejected. *)
Theorem date_clause_spec
  (host : Host) (filters : LeadFilters) (lead : Lead) :
  (dateRangeActive filters = false -> dateRejects filters lead = false)
  /\ (dateRangeActive filters = true ->
      (dateRejects filters lead = false
       <-> exists t, DateParse (date_added lead) = Some t
             /\ (forall b, lowerBound filters = Some b -> (b <= t)%Z)
             /\ (forall e, upperBound filters = Some e -> (t <= e)%Z))).
Proof.
  unfold dateRangeActive, dateRejects, lowerBound, upperBound.
  split; [now intros ->|]. intros ->.
  destruct (DateParse (date_added lead)) as [t|];
    [|split; [discriminate | intros (t & [=] & _)]].
  unfold time_gt, time_lt.
  destruct (dateFrom filters) as [from|], (dateTo filters) as [to|];
    try destruct (JsString.truthy from);
    try destruct (JsString.truthy to);
    cbn [andb];
    try destruct (DateParse (from ++ lit "T00:00:00")) as [b|];
    try destruct (DateParse (to ++ lit "T23:59:59")) as [e|];
    try destruct (Z.ltb_spec t b); try destruct (Z.ltb_spec e t);
    (split;
     [ first [ discriminate
             | intros _; exists t;
               split; [reflexivity|]; split; intros ? [= <-]; lia ]
     | intros (q & [= <-] & B & E);
       try (specialize (B _ eq_refl)); try (specialize (E _ eq_refl));
       first [reflexivity | lia] ]).
Qed.

(* ===================================================================== *)
(** * More on the facets                                                  *)
(* ===================================================================== *)

Lemma facet_items_carried (engine : Engine) (host : Host)
  (idOf : Lead -> option number)
  (labelOf : Lead -> number -> jsstring) (leads : list Lead)
  (o : OptionItem) :
  In o (mapToOptions (fold_left (collectStep idOf labelOf) leads [])) ->
  exists lead id, In lead leads /\ idOf lead = Some id
    /\ value o = canonicalKey id
    /\ label o = labelOf lead id.
Proof.
  intros H. apply mapToOptions_In in H. apply collect_first in H.
  destruct H as (lead & id & F & I & K & L). apply find_some in F.
  exists lead, id. tauto.
Qed.

Lemma filter_catalog_Subsequence {A} (f : A -> bool) (l : list A) (b : bool) :
  Subsequence (if b then l else filter f l) l.
Proof.
  destruct b; [apply Subsequence_refl | apply filter_Subsequence].
Qed.

Lemma optRegions_carried (engine : Engine) (host : Host)
  (leads : list Lead) (o : OptionItem) :
  In o (optRegions (deriveFilterOptions leads)) ->
  JsNumber.isFinite (value o) = true
  /\ exists lead id, In lead leads /\ regionIdOf lead = Some id
       /\ value o = canonicalKey id
       /\ label o = regionLabelOf lead id.
Proof.
  unfold deriveFilterOptions, scanLeads. cbn [optRegions].
  destruct (scan_components leads emptyFacets) as (_ & B & _).
  rewrite B. cbn [emptyFacets regionMap].
  intros H. apply facet_items_carried in H.
  destruct H as (lead & id & Hin & I & K & L).
  split; [|exists lead, id; auto]. rewrite K. apply canonicalKey_finite.
  eapply toNumber_finite; exact I.
Qed.

Lemma optZones_carried (engine : Engine) (host : Host)
  (leads : list Lead) (o : OptionItem) :
  In o (optZones (deriveFilterOptions leads)) ->
  JsNumber.isFinite (value o) = true
  /\ exists lead id, In lead leads /\ zoneIdOf lead = Some id
       /\ value o = canonicalKey id
       /\ label o = zoneLabelOf lead id.
Proof.
  unfold deriveFilterOptions, scanLeads. cbn [optZones].
  destruct (scan_components leads emptyFacets) as (_ & _ & C).
  rewrite C. cbn [emptyFacets zoneMap].
  intros H. apply facet_items_carried in H.
  destruct H as (lead & id & Hin & I & K & L).
  split; [|exists lead, id; auto]. rewrite K. apply canonicalKey_finite.
  eapply toNumber_finite; exact I.
Qed.

(** X7. The facets hold no spurious option. The property types offered
    are catalog entries in catalog order; every region and zone offered has
    a finite value, which is the id some lead of the collection carries, as
    a map stores it (an id -0 is offered as +0), with the label made from
    that lead and its id; and an empty collection gives the full catalog
    and no region or zone. *)
Theorem deriveFilterOptions_no_spurious_option
  (engine : Engine) (host : Host) (leads : list Lead) :
  Subsequence (optPropertyTypes (deriveFilterOptions leads))
    PROPERTY_TYPE_OPTIONS
  /\ (forall o, In o (optRegions (deriveFilterOptions leads)) ->
        JsNumber.isFinite (value o) = true
        /\ exists lead id, In lead leads /\ regionIdOf lead = Some id
             /\ value o = canonicalKey id
             /\ JsNumber.sameValueZero (value o) id = true
             /\ label o = regionLabelOf lead id)
  /\ (forall o, In o (optZones (deriveFilterOptions leads)) ->
        JsNumber.isFinite (value o) = true
        /\ exists lead id, In lead leads /\ zoneIdOf lead = Some id
             /\ value o = canonicalKey id
             /\ JsNumber.sameValueZero (value o) id = true
             /\ label o = zoneLabelOf lead id)
  /\ deriveFilterOptions []
     = {| optPropertyTypes := PROPERTY_TYPE_OPTIONS;
          optRegions := []; optZones := [] |}
  /\ canonicalKey (PrimFloat.opp PrimFloat.zero) = PrimFloat.zero
  /\ (forall id, JsNumber.truthy id = true -> canonicalKey id = id).
Proof.
  split; [|split; [|split; [|split; [|split]]]].
  - unfold deriveFilterOptions. cbn [optPropertyTypes].
    apply filter_catalog_Subsequence.
  - intros o H. destruct (optRegions_carried engine host leads o H)
      as (F & lead & id & Hin & I & K & L).
    split; [exact F|]. exists lead, id. repeat split; auto.
    rewrite K, sameValueZero_canonical_l. apply sameValueZero_refl.
  - intros o H. destruct (optZones_carried engine host leads o H)
      as (F & lead & id & Hin & I & K & L).
    split; [exact F|]. exists lead, id. repeat split; auto.
    rewrite K, sameValueZero_canonical_l. apply sameValueZero_refl.
  - unfold deriveFilterOptions, mapToOptions. cbn.
    pose proof (sort_Permutation _ compareEntries []) as P.
    apply Permutation_sym, Permutation_nil in P. now rewrite P.
  - reflexivity.
  - intros id T. apply canonicalKey_nonzero. now rewrite canonicalKey_truthy.
Qed.

Section FacetFilterFacts.
Context {host : Host}.

Lemma finite_strictEq_refl (v : number) :
  JsNumber.isFinite v = true -> JsNumber.strictEq v v = true.
Proof.
  intros F. apply isFinite_not_NaN in F.
  unfold JsNumber.isNaN, PrimFloat.is_nan in F.
  now apply negb_false_iff in F.
Qed.

Lemma strictEq_truthy (r v : number) :
  JsNumber.strictEq r v = true -> JsNumber.truthy r = JsNumber.truthy v.
Proof.
  intros E. unfold JsNumber.truthy, JsNumber.strictEq in *.
  destruct (eqb_true_not_NaN r v E) as [Nr Nv]. rewrite Nr, Nv.
  rewrite !orb_false_r. f_equal.
  destruct (r =? 0)%float eqn:A, (v =? 0)%float eqn:B; try reflexivity.
  - rewrite eqb_sym in E. now rewrite (eqb_trans v r 0%float E A) in B.
  - now rewrite (eqb_trans r v 0%float E B) in A.
Qed.

(** What a filter on the region alone keeps. *)
Lemma regionFilter_In (leads : list Lead) (v : number) (lead : Lead) :
  In lead (applyLeadFilters leads (regionFilter v))
  <-> In lead leads
      /\ exists r, regionIdOf lead = Some r
           /\ JsNumber.strictEq r v = true /\ JsNumber.truthy r = true.
Proof.
  rewrite applyLeadFilters_filter, filter_In.
  assert (P : leadPasses (regionFilter v) lead
              = negb (regionRejects (regionFilter v) (rawOf lead))).
  { unfold leadPasses. cbn.
    now destruct (regionRejects (regionFilter v) (rawOf lead)). }
  rewrite P, negb_true_iff.
  rewrite (regionRejects_iff (regionFilter v) v (rawOf lead) eq_refl).
  reflexivity.
Qed.

End FacetFilterFacts.

(** X8. Choosing an offered region as the filter. For a region option
    derived from the collection, filtering the same collection by its id
    alone keeps exactly the leads whose [region_obj_id] equals the id; the
    result is not empty when the id is not zero, and is empty when the id
    is zero. *)
Theorem offered_region_selects_its_leads
  (engine : Engine) (host : Host) (leads : list Lead) (o : OptionItem)
  (offered : In o (optRegions (deriveFilterOptions leads))) :
  (JsNumber.truthy (value o) = true ->
     applyLeadFilters leads (regionFilter (value o)) <> []
     /\ forall lead,
          In lead (applyLeadFilters leads (regionFilter (value o)))
          <-> In lead leads
              /\ exists r, regionIdOf lead = Some r
                   /\ JsNumber.strictEq r (value o) = true)
  /\ (JsNumber.truthy (value o) = false ->
      applyLeadFilters leads (regionFilter (value o)) = []).
Proof.
  destruct (optRegions_carried engine host leads o offered)
    as (F & lead0 & id0 & Hin & I & K & _).
  split.
  - intros T. split.
    + intros E.
      assert (X : In lead0 (applyLeadFilters leads (regionFilter (value o)))).
      { apply regionFilter_In. split; [exact Hin|].
        assert (V : value o = id0).
        { pose proof T as T'. rewrite K in T'. rewrite K.
          now apply canonicalKey_nonzero. }
        exists (value o). split; [rewrite V; exact I|].
        split; [now apply finite_strictEq_refl | exact T]. }
      rewrite E in X. exact X.
    + intros lead. rewrite regionFilter_In. split.
      * intros (A & r & B & C & _). eauto.
      * intros (A & r & B & C). split; [exact A|]. exists r.
        repeat split; auto. now rewrite (strictEq_truthy r (value o) C).
  - intros T.
    destruct (applyLeadFilters leads (regionFilter (value o)))
      as [|lead rest] eqn:E; [reflexivity|]. exfalso.
    assert (X : In lead (applyLeadFilters leads (regionFilter (value o))))
      by (rewrite E; now left).
    apply regionFilter_In in X. destruct X as (_ & r & _ & C & Tr).
    rewrite (strictEq_truthy r (value o) C) in Tr. congruence.
Qed.

(** The instance at the region 40 of the three facet leads. *)
Lemma offered_region_selects_its_leads_witness :
  applyLeadFilters (host := Reference.host) facetLeads
    (regionFilter (JsNumber.ofZ 40)) <> [].
Proof.
  assert (O : In {| value := JsNumber.ofZ 40; label := lit "alba" |}
                (optRegions (deriveFilterOptions (host := Reference.host)
                               facetLeads)))
    by (left; reflexivity).
  exact (proj1 (proj1 (offered_region_selects_its_leads referenceEngine
                         Reference.host facetLeads _ O) eq_refl)).
Defined.

(* ===================================================================== *)
(** * More on day headers and grouping                                    *)
(* ===================================================================== *)

Section FormatterFacts.
Context {fns : DateFns}.

Lemma ensureDate_nonempty (value : jsstring) :
  value <> [] -> ensureDate value = Some (parseISO value).
Proof. destruct value; [congruence | reflexivity]. Qed.

Lemma formatDayHeader_throws_iff (value : jsstring) (e : JsError) :
  formatDayHeader value = Throw e <-> unreadable value /\ e = invalidTime.
Proof.
  unfold unreadable, formatDayHeader.
  destruct value as [|c s]; simpl.
  - split; [discriminate | intros [[H _] _]; congruence].
  - destruct (parseISO (c :: s)) as [t|]; simpl.
    + destruct (differenceInCalendarDays TODAY t =? 0)%Z;
        [|destruct (differenceInCalendarDays TODAY t =? 1)%Z];
        (split; [discriminate | intros [[_ H] _]; discriminate]).
    + split.
      * intros [= <-]. repeat split. discriminate.
      * intros [_ ->]. reflexivity.
Qed.

End FormatterFacts.

(** X9. The three date formatters fail alike. On the empty string each
    returns its placeholder ("Unknown date", "Unknown time", the empty
    string); on a string that parses each returns a text; and on a
    non-empty string that does not parse each throws the RangeError of
    date-fns: the [catch] of [ensureDate] does not see it, because
    [parseISO] returns an Invalid Date instead of throwing. *)
Theorem formatters_fail_on_unreadable
  (fns : DateFns) (now : Z) (value : jsstring) :
  (value = [] ->
     formatDayHeader value = Ok (lit "Unknown date")
     /\ formatFullDateTime value = Ok (lit "Unknown time")
     /\ formatMessageTimestamp now value = Ok [])
  /\ (unreadable value ->
     formatDayHeader value = Throw invalidTime
     /\ formatFullDateTime value = Throw invalidTime
     /\ formatMessageTimestamp now value = Throw invalidTime)
  /\ (forall t, value <> [] -> parseISO value = Some t ->
     (exists s, formatDayHeader value = Ok s)
     /\ (exists s, formatFullDateTime value = Ok s)
     /\ (exists s, formatMessageTimestamp now value = Ok s)).
Proof.
  unfold formatDayHeader, formatFullDateTime, formatMessageTimestamp,
    unreadable.
  split; [intros ->; repeat split|]. split.
  - intros [N P]. rewrite (ensureDate_nonempty value N), P. repeat split.
  - intros t N P. rewrite (ensureDate_nonempty value N), P. simpl.
    repeat split.
    + destruct (differenceInCalendarDays TODAY t =? 0)%Z; [eauto|].
      destruct (differenceInCalendarDays TODAY t =? 1)%Z; eauto.
    + eauto.
    + destruct (differenceInCalendarDays now t =? 0)%Z; eauto.
Qed.

Section GroupingMore.
Context {fns : DateFns}.

Lemma groupLoop_Throw (sorted : list Lead) :
  forall map e,
    groupLoop sorted map = Throw e ->
    exists lead, In lead sorted /\ headerOf lead = Throw e.
Proof.
  induction sorted as [|lead sorted IH]; intros map e; simpl;
    [discriminate|].
  destruct (formatDayHeader (date_added lead)) as [l|e'] eqn:H.
  - intros G. destruct (IH _ _ G) as (x & Hin & Hx). eauto.
  - intros [= <-]. exists lead. auto.
Qed.

Lemma groupLoop_throws (sorted : list Lead) :
  forall map lead e,
    In lead sorted -> headerOf lead = Throw e ->
    exists e', groupLoop sorted map = Throw e'.
Proof.
  induction sorted as [|x sorted IH]; intros map lead e Hin Hl; [destruct Hin|].
  simpl. destruct (formatDayHeader (date_added x)) as [l|e'] eqn:H;
    [|eauto].
  destruct Hin as [<-|Hin]; [unfold headerOf in Hl; congruence|].
  eapply IH; eauto.
Qed.

Lemma bucketOf_push (map : list (jsstring * list Lead))
  (label : jsstring) (lead : Lead) (k : jsstring) :
  bucketOf (bucketPush map label lead) k
  = bucketOf map k ++ (if JsString.eqb label k then [lead] else []).
Proof.
  induction map as [|[k' b] map IH]; simpl.
  - destruct (JsString.eqb label k); reflexivity.
  - destruct (JsString.eqb k' label) eqn:E; simpl.
    + apply str_eqb_eq in E. subst k'.
      destruct (JsString.eqb label k); [reflexivity|].
      now rewrite app_nil_r.
    + destruct (JsString.eqb k' k) eqn:E'; [|exact IH].
      apply str_eqb_eq in E'. subst k'.
      destruct (JsString.eqb label k) eqn:E2; [|now rewrite app_nil_r].
      apply str_eqb_eq in E2. subst label.
      rewrite str_eqb_refl in E. discriminate.
Qed.

Lemma bucketPush_keys (map : list (jsstring * list Lead))
  (label : jsstring) (lead : Lead) :
  NoDup (List.map fst map) ->
  (forall k b, In (k, b) map -> b <> []) ->
  NoDup (List.map fst (bucketPush map label lead))
  /\ (forall k b, In (k, b) (bucketPush map label lead) -> b <> []).
Proof.
  intros Hn He.
  destruct (bucketPush_cases map label lead)
    as [[Hnew Hp] | (m1 & b & m2 & Hm & Hp)]; rewrite Hp.
  - split.
    + rewrite map_app. simpl. apply NoDup_app; auto.
      * repeat constructor. tauto.
      * intros k Hk [<-|[]]. tauto.
    + intros k bkt Hin. apply in_app_iff in Hin.
      destruct Hin as [Hin|[[= <- <-]|[]]]; [eauto | discriminate].
  - split.
    + rewrite Hm in Hn. rewrite map_app in *. exact Hn.
    + intros k bkt Hin. apply in_app_iff in Hin.
      destruct Hin as [Hin|[[= <- <-]|Hin]].
      * apply (He k). rewrite Hm. apply in_app_iff. now left.
      * now destruct b.
      * apply (He k). rewrite Hm. apply in_app_iff. right. now right.
Qed.

(** What the loop leaves in the map: the bucket of a label grows by the
    leads of that header, in the order they come. *)
Lemma groupLoop_buckets (sorted : list Lead) :
  forall map map',
    groupLoop sorted map = Ok map' ->
    NoDup (List.map fst map) ->
    (forall k b, In (k, b) map -> b <> []) ->
    NoDup (List.map fst map')
    /\ (forall k b, In (k, b) map' -> b <> [])
    /\ (forall k, bucketOf map' k
                  = bucketOf map k ++ filter (headerIs k) sorted).
Proof.
  induction sorted as [|lead sorted IH]; intros map map'; simpl.
  - intros [= <-] Hn He. repeat split; auto.
    intros k. now rewrite app_nil_r.
  - destruct (formatDayHeader (date_added lead)) as [l|e] eqn:H;
      [|discriminate].
    intros G Hn He.
    destruct (bucketPush_keys map l lead Hn He) as [Hn' He'].
    destruct (IH _ _ G Hn' He') as (A & B & C).
    repeat split; auto.
    intros k. rewrite C, bucketOf_push, <- app_assoc. f_equal.
    unfold headerIs at 2, headerOf. rewrite H.
    destruct (JsString.eqb l k); reflexivity.
Qed.

Lemma bucketOf_In (map : list (jsstring * list Lead)) (k : jsstring)
  (b : list Lead) :
  NoDup (List.map fst map) -> In (k, b) map -> bucketOf map k = b.
Proof.
  induction map as [|[k' b'] map IH]; simpl; [tauto|].
  intros Hn [[= -> ->]|Hin].
  - now rewrite str_eqb_refl.
  - inversion Hn as [|? ? Hk Hn']; subst.
    destruct (JsString.eqb k' k) eqn:E; [|now apply IH].
    apply str_eqb_eq in E. subst k'. exfalso. apply Hk.
    apply in_map_iff. exists (k, b). auto.
Qed.

End GroupingMore.

(** A failure of the grouping is the failure of one header. *)
Lemma groupByDateAdded_Throw (engine : Engine) (fns : DateFns)
  (leads : list Lead) (e : JsError) :
  groupByDateAdded leads = Throw e ->
  exists lead, In lead leads
    /\ unreadable (date_added lead) /\ e = invalidTime.
Proof.
  unfold groupByDateAdded.
  destruct (groupLoop (sort compareDateAdded leads) []) as [m|e'] eqn:G;
    [discriminate|].
  intros [= <-].
  destruct (groupLoop_Throw _ _ _ G) as (lead & Hin & Hl).
  apply sort_In in Hin. apply formatDayHeader_throws_iff in Hl.
  exists lead. tauto.
Qed.

(** One unreadable date makes the grouping fail. *)
Lemma groupByDateAdded_unreadable (engine : Engine) (fns : DateFns)
  (leads : list Lead) (lead : Lead) :
  In lead leads -> unreadable (date_added lead) ->
  groupByDateAdded leads = Throw invalidTime.
Proof.
  intros Hin U.
  assert (Hl : headerOf lead = Throw invalidTime)
    by (apply formatDayHeader_throws_iff; auto).
  apply (sort_In _ compareDateAdded) in Hin.
  destruct (groupLoop_throws _ [] lead _ Hin Hl) as [e' G].
  assert (E : groupByDateAdded leads = Throw e')
    by (unfold groupByDateAdded; now rewrite G).
  destruct (groupByDateAdded_Throw engine fns leads e' E) as (_ & _ & _ & ->).
  exact E.
Qed.

(** C4. A [date_added] that is not empty and does not parse makes the
    whole grouping fail. [ensureDate] hands [formatDayHeader] the Invalid
    Date that [parseISO] returns (its [catch] is never entered, since
    [parseISO] does not throw), the header is not "Unknown date" but the
    RangeError of [format], and [groupByDateAdded] ends with that error
    for every collection that holds such a lead: no lead is returned, so
    the collection is not handled as claimed. *)
Theorem groupByDateAdded_unreadable_date_throws
  (engine : Engine) (fns : DateFns) (leads : list Lead) (lead : Lead)
  (member : In lead leads)
  (garbage : unreadable (date_added lead)) :
  undated lead
  /\ ensureDate (date_added lead) = Some None
  /\ formatDayHeader (date_added lead) = Throw invalidTime
  /\ groupByDateAdded leads = Throw invalidTime
  /\ ~ undatedHandledAsClaimed leads.
Proof.
  pose proof (groupByDateAdded_unreadable engine fns leads lead member garbage)
    as T.
  destruct garbage as [N P].
  split; [exact P|].
  split; [now rewrite (ensureDate_nonempty _ N), P|].
  split; [apply formatDayHeader_throws_iff; repeat split; auto|].
  split; [exact T|].
  intros (groups & E & _). rewrite T in E. discriminate.
Qed.

(** The instance on the reference engine and calendar: a lead dated
    "not a date" given with a dated lead. *)
Lemma groupByDateAdded_unreadable_date_throws_witness :
  formatDayHeader (fns := Reference.dateFns) (lit "not a date")
  = Throw (ErrorObject (lit "RangeError") (lit "Invalid time value"))
  /\ groupByDateAdded (fns := Reference.dateFns) [garbageLead; scenarioLead]
     = Throw (ErrorObject (lit "RangeError") (lit "Invalid time value"))
  /\ ~ undatedHandledAsClaimed (fns := Reference.dateFns)
         [garbageLead; scenarioLead].
Proof.
  assert (M : In garbageLead [garbageLead; scenarioLead]) by now left.
  assert (G : unreadable (fns := Reference.dateFns) (date_added garbageLead))
    by (split; [discriminate | reflexivity]).
  destruct (groupByDateAdded_unreadable_date_throws referenceEngine
              Reference.dateFns [garbageLead; scenarioLead] garbageLead M G)
    as (_ & _ & H & T & C).
  exact (conj H (conj T C)).
Defined.

(** X10. When grouping by date added fails. The call throws exactly when
    some lead has a [date_added] that is not empty and does not parse, and
    what it throws is the RangeError of [format]; one such lead is enough
    to lose the whole grouping. *)
Theorem groupByDateAdded_throws_iff
  (engine : Engine) (fns : DateFns) (leads : list Lead) :
  ((exists e, groupByDateAdded leads = Throw e)
   <-> exists lead, In lead leads /\ unreadable (date_added lead))
  /\ (forall e, groupByDateAdded leads = Throw e -> e = invalidTime).
Proof.
  split; [split|].
  - intros [e He].
    destruct (groupByDateAdded_Throw engine fns leads e He)
      as (lead & A & B & _).
    eauto.
  - intros (lead & Hin & U). exists invalidTime.
    now apply (groupByDateAdded_unreadable engine fns leads lead).
  - intros e He.
    destruct (groupByDateAdded_Throw engine fns leads e He)
      as (_ & _ & _ & E).
    exact E.
Qed.

(** X11. What grouping by date added returns, whenever it returns: the
    labels of the buckets are distinct, no bucket is empty, each bucket
    holds all the leads of its day header and only them, in the order the
    engine's sort gave them, each lead is in the bucket of its own header,
    a lead without a date under "Unknown date", and together the buckets
    hold exactly the input leads. Where the sort puts a lead without a date
    is not said: the comparator yields NaN for it. *)
Theorem groupByDateAdded_buckets
  (engine : Engine) (fns : DateFns) (leads : list Lead)
  (groups : list LeadGroup)
  (returns : groupByDateAdded leads = Ok groups) :
  NoDup (List.map groupLabel groups)
  /\ (forall g, In g groups ->
        groupLeads g <> []
        /\ groupLeads g
           = filter (headerIs (groupLabel g)) (sort compareDateAdded leads))
  /\ (forall g lead, In g groups -> In lead (groupLeads g) ->
        In lead leads /\ headerOf lead = Ok (groupLabel g))
  /\ (forall lead, In lead leads -> date_added lead = [] ->
        exists g, In g groups /\ In lead (groupLeads g)
          /\ groupLabel g = lit "Unknown date")
  /\ Permutation (bucketLeads groups) leads.
Proof.
  unfold groupByDateAdded in returns.
  destruct (groupLoop (sort compareDateAdded leads) []) as [m|e] eqn:G;
    [|discriminate].
  injection returns as <-.
  destruct (groupLoop_buckets _ _ _ G (NoDup_nil _)) as (Hn & He & Hb);
    [intros ? ? []|].
  assert (B : forall g,
            In g (List.map (fun e => {| groupLabel := fst e;
                                        groupLeads := snd e |}) m) ->
            groupLeads g
            = filter (headerIs (groupLabel g)) (sort compareDateAdded leads)).
  { intros g Hg. apply in_map_iff in Hg.
    destruct Hg as ([k b] & <- & Hin). simpl.
    rewrite <- (bucketOf_In m k b Hn Hin). apply Hb. }
  assert (Pm : Permutation
                 (bucketLeads
                    (List.map (fun e => {| groupLabel := fst e;
                                           groupLeads := snd e |}) m))
                 leads).
  { rewrite bucketLeads_entries.
    destruct (groupLoop_total (sort compareDateAdded leads) [])
      as (m' & E & Pm & _).
    + intros lead Hin.
      destruct (headerOf lead) as [l|e] eqn:Hl; [eauto|]. exfalso.
      destruct (groupLoop_throws _ [] lead e Hin Hl) as [e' X]. congruence.
    + intros ? ? ? [].
    + rewrite E in G. injection G as <-. rewrite Pm. simpl.
      apply sort_Permutation. }
  assert (W : forall g lead,
            In g (List.map (fun e => {| groupLabel := fst e;
                                        groupLeads := snd e |}) m) ->
            In lead (groupLeads g) ->
            In lead leads /\ headerOf lead = Ok (groupLabel g)).
  { intros g lead Hg Hl. rewrite (B g Hg) in Hl.
    apply filter_In in Hl. destruct Hl as [Hin Hh].
    apply sort_In in Hin. split; [exact Hin|].
    unfold headerIs in Hh.
    destruct (headerOf lead) as [l|e]; [|discriminate].
    apply str_eqb_eq in Hh. now subst l. }
  split; [now rewrite map_map|]. split; [|split; [|split]].
  - intros g Hg. split; [|now apply B].
    apply in_map_iff in Hg. destruct Hg as ([k b] & <- & Hin). simpl.
    eapply He; eauto.
  - exact W.
  - intros lead Hin D.
    apply (Permutation_in _ (Permutation_sym Pm)) in Hin.
    unfold bucketLeads in Hin. apply in_concat in Hin.
    destruct Hin as (b & Hb' & Hl). apply in_map_iff in Hb'.
    destruct Hb' as (g & <- & Hg).
    exists g. split; [exact Hg|]. split; [exact Hl|].
    destruct (W g lead Hg Hl) as [_ Hh]. unfold headerOf in Hh.
    rewrite D, formatDayHeader_empty in Hh. now injection Hh as <-.
  - exact Pm.
Qed.

(** The instance at a lead without a date and the three dated leads, on
    the reference engine and calendar. *)
Lemma groupByDateAdded_buckets_witness :
  exists groups,
    groupByDateAdded (fns := Reference.dateFns) (undatedLead :: datedLeads)
    = Ok groups
    /\ NoDup (List.map groupLabel groups)
    /\ (exists g, In g groups /\ In undatedLead (groupLeads g)
          /\ groupLabel g = lit "Unknown date")
    /\ Permutation (bucketLeads groups) (undatedLead :: datedLeads).
Proof.
  eexists. split; [reflexivity|].
  pose proof (groupByDateAdded_buckets referenceEngine Reference.dateFns
                (undatedLead :: datedLeads) _ eq_refl)
    as (A & _ & _ & U & B).
  split; [exact A|]. split; [|exact B].
  exact (U undatedLead (or_introl eq_refl) eq_refl).
Defined.

(* ===================================================================== *)
(** * Grouping by last outreach, and the order of the chats               *)
(* ===================================================================== *)

Section LastOutreachFacts.
Context {fns : DateFns}.

Lemma lastOf_nonempty {A} (l : list A) :
  l <> [] -> exists x, lastOf l = Some x.
Proof.
  intros H. unfold lastOf.
  destruct (nth_error l (List.length l - 1)) as [x|] eqn:E; [eauto|].
  apply nth_error_None in E. destruct l; [congruence|]. simpl in E. lia.
Qed.

(** A lead is sorted by the date it is labelled by. *)
Lemma outreachInstant_labelDate (lead : HistoryLead) :
  outreachInstant lead = parseISO (outreachLabelDate lead).
Proof.
  unfold outreachInstant, outreachLabelDate.
  destruct (historyOf lead) as [|e l] eqn:E; [reflexivity|].
  cbn [List.length Nat.ltb Nat.leb].
  destruct (lastOf_nonempty (e :: l)) as [x Hx]; [discriminate|].
  rewrite Hx. now destruct (date x).
Qed.

Lemma bucketPush_base (m : list (jsstring * list HistoryLead))
  (label : jsstring) (lead : HistoryLead) :
  bucketPush (baseBuckets m) label (base lead)
  = baseBuckets (bucketPushOf m label lead).
Proof.
  induction m as [|[k b] m IH]; simpl; [reflexivity|].
  destruct (JsString.eqb k label); simpl.
  - now rewrite map_app.
  - now rewrite IH.
Qed.

Lemma outreachLoop_base (sorted : list HistoryLead) :
  forall m,
    (forall lead, In lead sorted ->
       outreachLabelDate lead = date_added (base lead)) ->
    groupLoop (List.map base sorted) (baseBuckets m)
    = match outreachLoop sorted m with
      | Ok m' => Ok (baseBuckets m')
      | Throw e => Throw e
      end.
Proof.
  induction sorted as [|lead sorted IH]; intros m H; simpl; [reflexivity|].
  rewrite (H lead (or_introl eq_refl)).
  destruct (formatDayHeader (date_added (base lead))); [|reflexivity].
  rewrite bucketPush_base. apply IH. intros x Hx. apply H. now right.
Qed.

Lemma bucketPushOf_Permutation {A} (m : list (jsstring * list A))
  (label : jsstring) (x : A) :
  Permutation (List.concat (List.map snd (bucketPushOf m label x)))
    (List.concat (List.map snd m) ++ [x]).
Proof.
  induction m as [|[k b] m IH]; simpl; [reflexivity|].
  destruct (JsString.eqb k label); simpl.
  - rewrite <- !app_assoc. apply Permutation_app_head.
    apply Permutation_app_comm.
  - rewrite IH. now rewrite app_assoc.
Qed.

Lemma bucketPushOf_labelled (m : list (jsstring * list HistoryLead))
  (label : jsstring) (lead : HistoryLead) :
  formatDayHeader (outreachLabelDate lead) = Ok label ->
  (forall k b x, In (k, b) m -> In x b ->
     formatDayHeader (outreachLabelDate x) = Ok k) ->
  forall k b x, In (k, b) (bucketPushOf m label lead) -> In x b ->
    formatDayHeader (outreachLabelDate x) = Ok k.
Proof.
  intros Hl. induction m as [|[k0 b0] m IH]; intros W; simpl.
  - intros k b x [[= <- <-]|[]] [<-|[]]. exact Hl.
  - destruct (JsString.eqb k0 label) eqn:E.
    + apply str_eqb_eq in E. subst k0.
      intros k b x [[= <- <-]|Hin] Hx.
      * apply in_app_iff in Hx. destruct Hx as [Hx|[<-|[]]]; auto.
        eapply W; [left; reflexivity | exact Hx].
      * eapply W; [right; exact Hin | exact Hx].
    + intros k b x [[= <- <-]|Hin] Hx.
      * eapply W; [left; reflexivity | exact Hx].
      * eapply IH; eauto. intros k2 b2 x2 H2. apply W. now right.
Qed.

Lemma outreachLoop_result (sorted : list HistoryLead) :
  forall m m',
    outreachLoop sorted m = Ok m' ->
    (forall k b x, In (k, b) m -> In x b ->
       formatDayHeader (outreachLabelDate x) = Ok k) ->
    Permutation (List.concat (List.map snd m'))
      (List.concat (List.map snd m) ++ sorted)
    /\ (forall k b x, In (k, b) m' -> In x b ->
          formatDayHeader (outreachLabelDate x) = Ok k).
Proof.
  induction sorted as [|lead sorted IH]; intros m m'; simpl.
  - intros [= <-] W. rewrite app_nil_r. auto.
  - destruct (formatDayHeader (outreachLabelDate lead)) as [l|e] eqn:H;
      [|discriminate].
    intros G W.
    destruct (IH _ _ G (bucketPushOf_labelled m l lead H W)) as [Pm W'].
    split; [|exact W'].
    rewrite Pm, bucketPushOf_Permutation, <- app_assoc. reflexivity.
Qed.

End LastOutreachFacts.

(** X12. Grouping by last outreach on leads without a dated outreach
    entry is grouping by date added: when no lead has a last history entry
    with a date (in particular when the histories are empty or missing),
    [groupByLastOutreach] returns the buckets [groupByDateAdded] returns
    for the same leads, label for label and lead for lead, and fails when
    it fails. *)
Theorem groupByLastOutreach_without_history
  (engine : Engine) (fns : DateFns) (leads : list HistoryLead)
  (undatedHistory : noDatedOutreach leads) :
  baseGroups (groupByLastOutreach leads)
  = groupByDateAdded (List.map base leads).
Proof.
  assert (L : forall lead, In lead leads ->
                outreachLabelDate lead = date_added (base lead)).
  { intros lead Hin. unfold outreachLabelDate.
    destruct (lastOf (historyOf lead)) as [e|] eqn:E; [|reflexivity].
    now rewrite (undatedHistory lead e Hin E). }
  assert (C : forall a b, In a leads -> In b leads ->
                compareDateAdded (base a) (base b) = compareLastOutreach a b).
  { intros a b Ha Hb. unfold compareDateAdded, compareLastOutreach.
    now rewrite !outreachInstant_labelDate, (L a Ha), (L b Hb). }
  unfold groupByDateAdded, groupByLastOutreach.
  rewrite (sort_map _ _ base compareLastOutreach compareDateAdded leads C).
  change (@nil (jsstring * list Lead)) with (baseBuckets []).
  rewrite outreachLoop_base
    by (intros lead Hin; apply L; now apply sort_In in Hin).
  destruct (outreachLoop (sort compareLastOutreach leads) []) as [m|e];
    [|reflexivity].
  simpl. unfold baseBuckets. now rewrite !map_map.
Qed.

Lemma groupByLastOutreach_without_history_witness :
  baseGroups (groupByLastOutreach (fns := Reference.dateFns)
                (firstn 2 historyLeads3))
  = groupByDateAdded (fns := Reference.dateFns)
      (List.map base (firstn 2 historyLeads3)).
Proof.
  apply (groupByLastOutreach_without_history referenceEngine
           Reference.dateFns (firstn 2 historyLeads3)).
  intros lead entry [<-|[<-|[]]]; discriminate.
Defined.

(** X13. Grouping by last outreach in general. Each lead is sorted by
    the very date it is labelled by: the date of its last history entry,
    or [date_added] when the history is empty or the entry has no date.
    Whenever the call returns, the buckets hold exactly the input leads,
    each under the day header of that date. *)
Theorem groupByLastOutreach_buckets
  (engine : Engine) (fns : DateFns) (leads : list HistoryLead) :
  (forall lead, outreachInstant lead = parseISO (outreachLabelDate lead))
  /\ (forall groups, groupByLastOutreach leads = Ok groups ->
        Permutation (List.concat (List.map historyLeads groups)) leads
        /\ forall g lead, In g groups -> In lead (historyLeads g) ->
             formatDayHeader (outreachLabelDate lead)
             = Ok (historyLabel g)).
Proof.
  split; [apply outreachInstant_labelDate|].
  intros groups. unfold groupByLastOutreach.
  destruct (outreachLoop (sort compareLastOutreach leads) []) as [m|e] eqn:G;
    [|discriminate].
  intros [= <-].
  destruct (outreachLoop_result _ _ _ G) as [Pm W]; [intros ? ? ? []|].
  split.
  - rewrite map_map. simpl. rewrite Pm. simpl. apply sort_Permutation.
  - intros g lead Hg Hl. apply in_map_iff in Hg.
    destruct Hg as ([k b] & <- & Hin). simpl in *. eapply W; eauto.
Qed.

(** X14. The order of the chats. For every list of leads, whatever their
    timestamps, [sortedLeads] is a rearrangement of the list in which
    activity values never increase, and leads of the same activity value
    keep their order; a lead whose timestamp is empty or not a date counts
    as activity 0. The comparator never yields NaN, so no lead escapes the
    order. *)
Theorem sortedLeads_by_activity
  (engine : Engine) (host : Host) (leads : list HistoryLead) :
  Permutation (sortedLeads leads) leads
  /\ StronglySorted
       (fun a b => (getActivityValue b <= getActivityValue a)%Z)
       (sortedLeads leads)
  /\ (forall v, filter (sameActivity v) (sortedLeads leads)
                = filter (sameActivity v) leads)
  /\ (forall lead,
        DateParse (getActivityTimestamp lead) = None
        \/ getActivityTimestamp lead = [] ->
        getActivityValue lead = 0%Z).
Proof.
  unfold sortedLeads.
  assert (N : forall a b, notAfter compareActivity a b
                <-> (getActivityValue b <= getActivityValue a)%Z).
  { intros a b. unfold notAfter, compareActivity. simpl.
    rewrite Z.ltb_ge. lia. }
  assert (C : Consistent compareActivity leads).
  { unfold Consistent, tied, before, after, compareActivity. simpl.
    repeat split; intros;
      rewrite ?andb_true_iff, ?negb_true_iff, ?Z.ltb_ge, ?Z.ltb_lt in *;
      lia. }
  split; [apply sort_Permutation|]. split; [|split].
  - apply StronglySorted_weaken with (R := notAfter compareActivity).
    + intros a b. apply N.
    + now apply sort_sorted.
  - intros v. apply sort_filter; [exact C|].
    intros x y _ _ Hx.
    unfold sameActivity in *. apply Z.eqb_eq in Hx.
    unfold tied, before, after, compareActivity. simpl.
    destruct (Z.eqb_spec (getActivityValue y) v),
      (Z.ltb_spec (getActivityValue y - getActivityValue x) 0),
      (Z.ltb_spec 0 (getActivityValue y - getActivityValue x));
      simpl; try reflexivity; lia.
  - intros lead [H|H]; unfold getActivityValue; rewrite H.
    + now destruct (JsString.truthy (getActivityTimestamp lead)).
    + reflexivity.
Qed.

(* ===================================================================== *)
(** * The other handlers of the dashboard page                            *)
(* ===================================================================== *)

Lemma stringSetHas_In (s : StringSet) (x : jsstring) :
  stringSetHas s x = true <-> In x s.
Proof.
  unfold stringSetHas. rewrite existsb_exists. split.
  - intros (y & Hy & E). apply str_eqb_eq in E. now subst.
  - intros H. exists x. split; [exact H | apply str_eqb_refl].
Qed.

Lemma stringSetHas_false (s : StringSet) (x : jsstring) :
  stringSetHas s x = false <-> ~ In x s.
Proof.
  rewrite <- stringSetHas_In. destruct (stringSetHas s x); split;
    congruence.
Qed.

Lemma stringSetAdd_In (s : StringSet) (x y : jsstring) :
  In y (stringSetAdd s x) <-> In y s \/ y = x.
Proof.
  unfold stringSetAdd. destruct (stringSetHas s x) eqn:H.
  - apply stringSetHas_In in H. split; [tauto|]. intros [?| ->]; auto.
  - rewrite in_app_iff. simpl. intuition congruence.
Qed.

Lemma stringSetAdd_NoDup (s : StringSet) (x : jsstring) :
  NoDup s -> NoDup (stringSetAdd s x).
Proof.
  intros Hn. unfold stringSetAdd. destruct (stringSetHas s x) eqn:H; auto.
  apply stringSetHas_false in H. apply NoDup_app; auto.
  - repeat constructor. tauto.
  - intros y Hy [<-|[]]. tauto.
Qed.

Lemma stringSetDelete_In (s : StringSet) (x y : jsstring) :
  In y (stringSetDelete s x) <-> In y s /\ y <> x.
Proof.
  unfold stringSetDelete. rewrite filter_In, negb_true_iff, str_eqb_neq.
  tauto.
Qed.

Lemma stringSetDelete_absent (s : StringSet) (x : jsstring) :
  ~ In x s -> stringSetDelete s x = s.
Proof.
  intros H. unfold stringSetDelete. induction s as [|y s IH];
    [reflexivity|].
  simpl. destruct (JsString.eqb y x) eqn:E.
  - apply str_eqb_eq in E. subst. exfalso. apply H. now left.
  - simpl. rewrite IH; [reflexivity|]. intros Hin. apply H. now right.
Qed.

Lemma stringSetDelete_Permutation (s : StringSet) (x : jsstring) :
  NoDup s -> In x s -> Permutation (stringSetDelete s x ++ [x]) s.
Proof.
  unfold stringSetDelete. induction s as [|y s IH]; [intros _ []|].
  intros Hn Hin. inversion Hn as [|? ? Hy Hn']; subst. simpl.
  destruct (JsString.eqb y x) eqn:E.
  - apply str_eqb_eq in E. subst y. simpl.
    fold (stringSetDelete s x). rewrite (stringSetDelete_absent s x Hy).
    rewrite Permutation_app_comm. reflexivity.
  - apply str_eqb_neq in E. destruct Hin as [->|Hin]; [congruence|].
    simpl. constructor. now apply IH.
Qed.

(** X15. Selecting and unselecting a lead. On a selection without
    repetition, [toggleSelect] flips the membership of the given id and of
    no other, keeps the selection without repetition, and toggled twice
    gives back a selection with the same ids (the very same list when the
    id was not selected). *)
Theorem toggle_flips_one_id
  (prev : StringSet) (propertyId : jsstring) (distinct : NoDup prev) :
  let next := DashboardPage.toggle prev propertyId in
  NoDup next
  /\ (forall id, In id next
        <-> if JsString.eqb id propertyId then ~ In id prev else In id prev)
  /\ Permutation (DashboardPage.toggle next propertyId) prev
  /\ (~ In propertyId prev ->
      DashboardPage.toggle next propertyId = prev).
Proof.
  intros next. subst next. unfold DashboardPage.toggle.
  destruct (stringSetHas prev propertyId) eqn:H.
  - apply stringSetHas_In in H.
    assert (Out : stringSetHas (stringSetDelete prev propertyId) propertyId
                  = false).
    { apply stringSetHas_false. rewrite stringSetDelete_In. tauto. }
    rewrite Out. repeat split.
    + unfold stringSetDelete. now apply NoDup_filter.
    + rewrite stringSetDelete_In. intros [A B].
      apply str_eqb_neq in B. now rewrite B.
    + rewrite stringSetDelete_In.
      destruct (JsString.eqb id propertyId) eqn:E.
      * apply str_eqb_eq in E. subst. tauto.
      * apply str_eqb_neq in E. tauto.
    + unfold stringSetAdd. rewrite Out.
      now apply stringSetDelete_Permutation.
    + tauto.
  - pose proof H as H'. apply stringSetHas_false in H'.
    assert (In_ : stringSetHas (stringSetAdd prev propertyId) propertyId
                 = true).
    { apply stringSetHas_In. apply stringSetAdd_In. now right. }
    rewrite In_.
    assert (Back : stringSetDelete (stringSetAdd prev propertyId) propertyId
                   = prev).
    { unfold stringSetAdd. rewrite H. unfold stringSetDelete.
      rewrite filter_app. simpl. rewrite str_eqb_refl. simpl.
      rewrite app_nil_r. now apply stringSetDelete_absent. }
    repeat split.
    + now apply stringSetAdd_NoDup.
    + rewrite stringSetAdd_In.
      destruct (JsString.eqb id propertyId) eqn:E.
      * apply str_eqb_eq in E. subst. tauto.
      * apply str_eqb_neq in E. tauto.
    + rewrite stringSetAdd_In.
      destruct (JsString.eqb id propertyId) eqn:E.
      * apply str_eqb_eq in E. subst. tauto.
      * tauto.
    + now rewrite Back.
    + intros _. exact Back.
Qed.

Lemma toggle_flips_one_id_witness :
  Permutation
    (DashboardPage.toggle
       (DashboardPage.toggle [lit "p1"; lit "z7"] (lit "p1")) (lit "p1"))
    [lit "p1"; lit "z7"].
Proof.
  assert (D : NoDup [lit "p1"; lit "z7"]).
  { constructor; [intros [H|[]]; discriminate|].
    constructor; [intros []|constructor]. }
  exact (proj1 (proj2 (proj2
           (toggle_flips_one_id [lit "p1"; lit "z7"] (lit "p1") D)))).
Defined.

Lemma fold_stringSetAdd_In (xs : list jsstring) :
  forall s y, In y (fold_left stringSetAdd xs s) <-> In y s \/ In y xs.
Proof.
  induction xs as [|x xs IH]; intros s y; simpl; [tauto|].
  rewrite IH, stringSetAdd_In. intuition congruence.
Qed.

Lemma prune_filter (filteredLeads : list Lead) (prev : StringSet) :
  NoDup prev ->
  DashboardPage.prune filteredLeads prev
  = filter (fun id => existsb (fun lead => JsString.eqb (property_id lead) id)
                        filteredLeads) prev.
Proof.
  unfold DashboardPage.prune.
  set (allowed := fold_left stringSetAdd (List.map property_id filteredLeads) []).
  assert (A : forall id, stringSetHas allowed id
                = existsb (fun lead => JsString.eqb (property_id lead) id)
                    filteredLeads).
  { intros id. apply eq_true_iff_eq.
    rewrite stringSetHas_In. unfold allowed.
    rewrite fold_stringSetAdd_In, existsb_exists, in_map_iff. split.
    - intros [[]|(lead & <- & Hin)]. exists lead.
      split; [exact Hin | apply str_eqb_refl].
    - intros (lead & Hin & E). apply str_eqb_eq in E. right. eauto. }
  assert (G : forall next,
            NoDup (next ++ prev) ->
            fold_left (fun next id =>
                         if stringSetHas allowed id
                         then stringSetAdd next id else next) prev next
            = next ++ filter (fun id => existsb
                                (fun lead => JsString.eqb (property_id lead) id)
                                filteredLeads) prev).
  { induction prev as [|x prev IH]; intros next Hn; simpl.
    - now rewrite app_nil_r.
    - rewrite <- A.
      assert (Hx : ~ In x next).
      { apply NoDup_remove_2 in Hn. intros Hin. apply Hn.
        apply in_app_iff. now left. }
      destruct (stringSetHas allowed x).
      + unfold stringSetAdd.
        rewrite (proj2 (stringSetHas_false next x) Hx).
        rewrite IH; [now rewrite <- app_assoc|].
        rewrite <- app_assoc. exact Hn.
      + apply IH. now apply NoDup_remove_1 in Hn. }
  intros Hn. now rewrite (G [] Hn).
Qed.

(** X16. Pruning the selection to the leads shown. After the effect on
    the filtered list, the selection is the previous selection, in its
    order, without the ids of leads no longer shown: every id kept is the
    id of a lead that passes the applied filter, every selected id of a
    shown lead is kept, and pruning again changes nothing. *)
Theorem prune_keeps_shown_ids
  (host : Host) (leads : list Lead) (filters : LeadFilters)
  (prev : StringSet) (distinct : NoDup prev) :
  let shown := applyLeadFilters leads filters in
  let next := DashboardPage.prune shown prev in
  Subsequence next prev
  /\ (forall id, In id next
        <-> In id prev
            /\ exists lead, In lead leads
                 /\ leadPasses filters lead = true
                 /\ property_id lead = id)
  /\ DashboardPage.prune shown next = next.
Proof.
  intros shown next. subst next.
  rewrite (prune_filter shown prev distinct).
  split; [apply filter_Subsequence|]. split.
  - intros id. rewrite filter_In, existsb_exists. subst shown.
    rewrite applyLeadFilters_filter. split.
    + intros (A & lead & Hin & E). apply filter_In in Hin.
      apply str_eqb_eq in E. split; [exact A|]. exists lead. tauto.
    + intros (A & lead & Hin & Hp & E). split; [exact A|].
      exists lead. split; [apply filter_In; tauto|].
      subst id. apply str_eqb_refl.
  - rewrite prune_filter by (now apply NoDup_filter).
    apply filter_idempotent.
Qed.

Lemma prune_keeps_shown_ids_witness :
  DashboardPage.prune
    (applyLeadFilters (host := Reference.host) [scenarioLead; zoneLead]
       (zoneFilter (JsNumber.ofZ 7)))
    [lit "p1"; lit "z7"]
  = [lit "z7"]
  /\ Subsequence
       (DashboardPage.prune
          (applyLeadFilters (host := Reference.host) [scenarioLead; zoneLead]
             (zoneFilter (JsNumber.ofZ 7)))
          [lit "p1"; lit "z7"])
       [lit "p1"; lit "z7"].
Proof.
  split; [reflexivity|].
  assert (D : NoDup [lit "p1"; lit "z7"]).
  { constructor; [intros [H|[]]; discriminate|].
    constructor; [intros []|constructor]. }
  exact (proj1 (prune_keeps_shown_ids Reference.host [scenarioLead; zoneLead]
                  (zoneFilter (JsNumber.ofZ 7)) [lit "p1"; lit "z7"] D)).
Defined.

Lemma handleSingleSend_run_facts
  (sendOutcome : jsstring -> Result unit) (st : Dashboard.State)
  (propertyId : jsstring) :
  let r := run (DashboardPage.handleSingleSend sendOutcome propertyId) st in
  (forall id, In id (Dashboard.pendingIds (fst (snd r)))
     <-> In id (Dashboard.pendingIds st) /\ id <> propertyId)
  /\ (forall err, sendOutcome propertyId = Throw err ->
      snd (snd r) = [Dashboard.SendWhatsApp propertyId;
                     Dashboard.SendSettled propertyId false]
      /\ Dashboard.banner (fst (snd r))
         = Some {| Dashboard.tone := Dashboard.Error;
                   Dashboard.message := DashboardPage.singleErrorText err |}).
Proof.
  intros r. subst r.
  unfold run, DashboardPage.handleSingleSend, bind, Dashboard.setPendingIds,
    Dashboard.setBanner, Dashboard.awaitSend, Dashboard.sendWhatsApp,
    Dashboard.mutate, bind, emit, update, ret.
  cbn [fst snd app].
  destruct (sendOutcome propertyId) as [u|e];
    cbn [fst snd app Dashboard.pendingIds Dashboard.banner];
    (split; [intros id; rewrite stringSetDelete_In, stringSetAdd_In; tauto|]);
    [discriminate | intros err [= <-]; split; reflexivity].
Qed.

(** X17. A single send. Whatever the outcome, when the handler is done
    the id it sent is not pending, the other pending ids are as before, and
    the selection is untouched. If the send resolves, the banner says so
    and the leads are refreshed once, after the request has settled; if it
    rejects, the banner carries the error's message (or the fixed text for
    a thrown non-error) and no refresh is made. *)
Theorem handleSingleSend_spec
  (sendOutcome : jsstring -> Result unit) (st : Dashboard.State)
  (propertyId : jsstring) :
  let r := run (DashboardPage.handleSingleSend sendOutcome propertyId) st in
  let st' := fst (snd r) in
  let log := snd (snd r) in
  (forall id, In id (Dashboard.pendingIds st')
     <-> In id (Dashboard.pendingIds st) /\ id <> propertyId)
  /\ Dashboard.selectedIds st' = Dashboard.selectedIds st
  /\ Dashboard.multiSelectMode st' = Dashboard.multiSelectMode st
  /\ (resolved (sendOutcome propertyId) = true ->
      log = [Dashboard.SendWhatsApp propertyId;
             Dashboard.SendSettled propertyId true; Dashboard.MutateLeads]
      /\ Dashboard.banner st'
         = Some {| Dashboard.tone := Dashboard.Success;
                   Dashboard.message := lit "WhatsApp message sent." |})
  /\ (forall err, sendOutcome propertyId = Throw err ->
      log = [Dashboard.SendWhatsApp propertyId;
             Dashboard.SendSettled propertyId false]
      /\ Dashboard.banner st'
         = Some {| Dashboard.tone := Dashboard.Error;
                   Dashboard.message := DashboardPage.singleErrorText err |}).
Proof.
  intros r st' log. subst st' log r.
  unfold run, DashboardPage.handleSingleSend, bind, Dashboard.setPendingIds,
    Dashboard.setBanner, Dashboard.awaitSend, Dashboard.sendWhatsApp,
    Dashboard.mutate, bind, emit, update, ret.
  cbn [fst snd app].
  assert (P : forall id,
            In id (stringSetDelete
                     (stringSetAdd (Dashboard.pendingIds st) propertyId)
                     propertyId)
            <-> In id (Dashboard.pendingIds st) /\ id <> propertyId).
  { intros id. rewrite stringSetDelete_In, stringSetAdd_In. tauto. }
  destruct (sendOutcome propertyId) as [u|e];
    cbn [fst snd app resolved Dashboard.pendingIds Dashboard.selectedIds
         Dashboard.multiSelectMode Dashboard.banner];
    (split; [exact P|]); (split; [reflexivity|]); (split; [reflexivity|]);
    split; try discriminate; try (intros _; split; reflexivity);
    intros err [= <-]; split; reflexivity.
Qed.

(* ===================================================================== *)
(** * The transport wrapper                                               *)
(* ===================================================================== *)

(** X18. How [request] settles. A response that is not ok never resolves:
    it rejects with an [ApiError] that carries the response's status, also
    when the body is not JSON (the payload is then [undefined] and the
    message is the status text). A 204 resolves to [undefined] without
    regard to the body. Any other ok response resolves iff its body is
    JSON, to that body; if [fetch] itself fails, that failure is passed
    on. *)
Theorem request_settles
  (host : Host) (response : Api.Response) :
  (Api.ok response = false ->
     exists e, Api.request (Ok response) = Api.RejectedApi e
       /\ Api.errorStatus e = Api.status response
       /\ (forall err, Api.json response = Throw err ->
             Api.payload e = JUndefined
             /\ Api.message e = Api.statusText response)
       /\ (forall body, Api.json response = Ok body ->
             Api.payload e = body))
  /\ (Api.ok response = true -> Api.status response = 204%Z ->
      Api.request (Ok response) = Api.Resolved JUndefined)
  /\ (Api.ok response = true -> Api.status response <> 204%Z ->
      (forall body, Api.request (Ok response) = Api.Resolved body
                    <-> Api.json response = Ok body)
      /\ (forall err, Api.json response = Throw err ->
            Api.request (Ok response) = Api.Rejected err))
  /\ (forall err, Api.request (Throw err) = Api.Rejected err).
Proof.
  unfold Api.request. split; [|split; [|split]].
  - intros ->. simpl. eexists. split; [reflexivity|]. simpl.
    split; [reflexivity|]. split.
    + intros err ->. split; reflexivity.
    + now intros body ->.
  - intros -> ->. reflexivity.
  - intros -> N. simpl.
    apply Z.eqb_neq in N. rewrite N. split.
    + intros body. destruct (Api.json response); split; congruence.
    + now intros err ->.
  - reflexivity.
Qed.

(** X19. What the operator sees of a refused send. When the backend
    answers a single send with a response that is not ok and a JSON body
    whose [error] is a string, the banner shows that string, nothing is
    refreshed, and the id is not left pending. When the backend answers ok
    (other than 204) with a body that is not JSON, the send is reported as
    failed as well, with the parser's message. *)
Theorem handleSingleSend_reports_backend_error
  (host : Host) (fetched : jsstring -> Result Api.Response)
  (st : Dashboard.State) (propertyId : jsstring) (response : Api.Response)
  (answered : fetched propertyId = Ok response) :
  let r := run (DashboardPage.handleSingleSend
                  (Api.sendWhatsAppVia fetched) propertyId) st in
  (forall fields text,
      Api.ok response = false ->
      Api.json response = Ok (JObject fields) ->
      getField fields (lit "error") = JString text ->
      Dashboard.banner (fst (snd r))
      = Some {| Dashboard.tone := Dashboard.Error;
                Dashboard.message := text |}
      /\ snd (snd r) = [Dashboard.SendWhatsApp propertyId;
                        Dashboard.SendSettled propertyId false]
      /\ ~ In propertyId (Dashboard.pendingIds (fst (snd r))))
  /\ (forall name text,
      Api.ok response = true -> Api.status response <> 204%Z ->
      Api.json response = Throw (ErrorObject name text) ->
      Dashboard.banner (fst (snd r))
      = Some {| Dashboard.tone := Dashboard.Error;
                Dashboard.message := text |}
      /\ snd (snd r) = [Dashboard.SendWhatsApp propertyId;
                        Dashboard.SendSettled propertyId false]).
Proof.
  intros r.
  pose proof (handleSingleSend_run_facts (Api.sendWhatsAppVia fetched)
                st propertyId) as (P & F).
  fold r in P, F.
  split.
  - intros fields text Hok Hj He.
    assert (O : Api.sendWhatsAppVia fetched propertyId
                = Throw (ErrorObject (lit "Error") text)).
    { unfold Api.sendWhatsAppVia, Api.request. rewrite answered, Hok, Hj.
      simpl. unfold Api.errorMessage. simpl. now rewrite He. }
    destruct (F _ O) as [L B]. split; [exact B|]. split; [exact L|].
    intros Hin. apply P in Hin. tauto.
  - intros name text Hok N Hj.
    assert (O : Api.sendWhatsAppVia fetched propertyId
                = Throw (ErrorObject name text)).
    { unfold Api.sendWhatsAppVia, Api.request. rewrite answered, Hok. simpl.
      apply Z.eqb_neq in N. now rewrite N, Hj. }
    destruct (F _ O) as [L B]. split; [exact B | exact L].
Qed.

Lemma handleSingleSend_reports_backend_error_witness :
  let r := run (DashboardPage.handleSingleSend
                  (Api.sendWhatsAppVia (host := Reference.host)
                     refusingBackend) (lit "p1")) busyDashboard in
  Dashboard.banner (fst (snd r))
  = Some {| Dashboard.tone := Dashboard.Error;
            Dashboard.message := lit "No phone" |}
  /\ snd (snd r) = [Dashboard.SendWhatsApp (lit "p1");
                    Dashboard.SendSettled (lit "p1") false]
  /\ ~ In (lit "p1") (Dashboard.pendingIds (fst (snd r))).
Proof.
  exact (proj1 (handleSingleSend_reports_backend_error Reference.host
                  refusingBackend busyDashboard (lit "p1") _ eq_refl)
           _ (lit "No phone") eq_refl eq_refl eq_refl).
Defined.

(* ===================================================================== *)
(** * Facets and selection under change                                   *)
(* ===================================================================== *)

Lemma collect_grows (idOf : Lead -> option number)
  (labelOf : Lead -> number -> jsstring) (leads more : list Lead)
  (k : number) (v : jsstring) :
  In (k, v) (fold_left (collectStep idOf labelOf) leads []) ->
  In (k, v) (fold_left (collectStep idOf labelOf) (leads ++ more) []).
Proof.
  intros H. apply collect_first in H. apply collect_first.
  destruct H as (lead & id & F & I & K & L). exists lead, id.
  rewrite find_app, F. auto.
Qed.

(** X20. Leads that arrive later do not disturb the region and zone
    options: every region or zone option derived from a collection is
    still an option, with the same label, of the collection with more
    leads appended. The property types behave so only once a lead carries
    a type: then every type offered stays offered. *)
Theorem facets_grow_with_leads
  (engine : Engine) (host : Host) (leads more : list Lead) :
  (forall o, In o (optRegions (deriveFilterOptions leads)) ->
     In o (optRegions (deriveFilterOptions (leads ++ more))))
  /\ (forall o, In o (optZones (deriveFilterOptions leads)) ->
     In o (optZones (deriveFilterOptions (leads ++ more))))
  /\ (existsb (fun lead => negb (isNone (propertyTypeOf lead))) leads = true ->
      forall o, In o (optPropertyTypes (deriveFilterOptions leads)) ->
        In o (optPropertyTypes (deriveFilterOptions (leads ++ more)))).
Proof.
  unfold deriveFilterOptions, scanLeads.
  cbn [optPropertyTypes optRegions optZones].
  destruct (scan_components leads emptyFacets) as (A & B & C).
  destruct (scan_components (leads ++ more) emptyFacets) as (A' & B' & C').
  rewrite A, B, C, A', B', C'. cbn [emptyFacets propertyTypeSet regionMap zoneMap].
  split; [|split].
  - intros o. rewrite !mapToOptions_In. apply collect_grows.
  - intros o. rewrite !mapToOptions_In. apply collect_grows.
  - intros T o. rewrite !collectTypes_empty.
    assert (E1 : forallb (fun lead => isNone (propertyTypeOf lead)) leads
                 = false).
    { apply existsb_exists in T. destruct T as (x & Hx & Tx).
      destruct (forallb _ leads) eqn:F; [|reflexivity].
      rewrite forallb_forall in F. rewrite (F x Hx) in Tx. discriminate. }
    rewrite E1, forallb_app, E1. cbn [andb].
    rewrite !filter_In, !collectTypes_has, existsb_app.
    intros [X Y]. split; [exact X|]. now rewrite Y.
Qed.

(** The instance at a lead of type 2 followed by a lead of type 1: the
    option of type 2 stays. *)
Lemma facets_grow_with_leads_witness :
  In (nth 1 PROPERTY_TYPE_OPTIONS (toItem (PrimFloat.zero, [])))
    (optPropertyTypes
       (deriveFilterOptions (host := Reference.host)
          ([zoneLead] ++ [rentLead]))).
Proof.
  apply (proj2 (proj2 (facets_grow_with_leads referenceEngine Reference.host
                         [zoneLead] [rentLead])) eq_refl).
  left. reflexivity.
Defined.

(** X21. A bulk send after the selection was pruned to the shown leads
    reaches shown leads only: each id it attempts was selected before and
    is the id of a lead that passes the applied filter. *)
Theorem bulk_send_reaches_shown_leads_only
  (host : Host) (sendOutcome : jsstring -> Result unit)
  (leads : list Lead) (filters : LeadFilters) (st : Dashboard.State)
  (distinct : NoDup (Dashboard.selectedIds st)) :
  let shown := applyLeadFilters leads filters in
  let pruned := fst (snd (run (DashboardPage.pruneSelection shown) st)) in
  let log := snd (snd (run (Dashboard.handleBulkSend sendOutcome) pruned)) in
  forall id, In id (attempts log) ->
    In id (Dashboard.selectedIds st)
    /\ exists lead, In lead leads
         /\ leadPasses filters lead = true
         /\ property_id lead = id.
Proof.
  intros shown pruned log id Hid.
  assert (S : Dashboard.selectedIds pruned
              = DashboardPage.prune shown (Dashboard.selectedIds st))
    by reflexivity.
  assert (A : attempts log = Dashboard.selectedIds pruned).
  { subst log.
    destruct (Dashboard.selectedIds pruned) as [|x xs] eqn:E.
    - now rewrite (handleBulkSend_nothing_selected sendOutcome pruned E).
    - rewrite (handleBulkSend_run sendOutcome pruned) by congruence.
      cbn [fst snd]. rewrite attempts_app, attempts_oneByOne, E.
      destruct (0 <? _)%nat; simpl; now rewrite app_nil_r. }
  rewrite A, S in Hid.
  rewrite (prune_filter shown _ distinct) in Hid.
  apply filter_In in Hid. destruct Hid as [Hsel Hex].
  split; [exact Hsel|].
  apply existsb_exists in Hex. destruct Hex as (lead & Hin & E).
  apply str_eqb_eq in E. subst shown.
  rewrite applyLeadFilters_filter in Hin. apply filter_In in Hin.
  exists lead. tauto.
Qed.

Lemma bulk_send_reaches_shown_leads_only_witness :
  let shown := applyLeadFilters (host := Reference.host)
                 [scenarioLead; zoneLead] (zoneFilter (JsNumber.ofZ 7)) in
  let pruned :=
    fst (snd (run (DashboardPage.pruneSelection shown) busyDashboard)) in
  let log := snd (snd (run (Dashboard.handleBulkSend secondFails) pruned)) in
  attempts log = [lit "z7"]
  /\ forall id, In id (attempts log) ->
       In id (Dashboard.selectedIds busyDashboard)
       /\ exists lead, In lead [scenarioLead; zoneLead]
            /\ leadPasses (host := Reference.host)
                 (zoneFilter (JsNumber.ofZ 7)) lead = true
            /\ property_id lead = id.
Proof.
  split; [reflexivity|].
  assert (D : NoDup (Dashboard.selectedIds busyDashboard)).
  { constructor; [intros [H|[]]; discriminate|].
    constructor; [intros []|constructor]. }
  exact (bulk_send_reaches_shown_leads_only Reference.host secondFails
           [scenarioLead; zoneLead] (zoneFilter (JsNumber.ofZ 7))
           busyDashboard D).
Defined.

(* ===================================================================== *)
(** * The route guard                                                     *)
(* ===================================================================== *)

Lemma splitOn_nonempty (sep : N) (s : jsstring) :
  Middleware.splitOn sep s <> [].
Proof.
  induction s as [|c s IH]; simpl; [discriminate|].
  destruct (c =? sep)%N; [discriminate|].
  destruct (Middleware.splitOn sep s); discriminate.
Qed.

Lemma splitOn_no_separator (sep : N) (s : jsstring) :
  ~ In sep s -> Middleware.splitOn sep s = [s].
Proof.
  induction s as [|c s IH]; intros H; simpl; [reflexivity|].
  destruct (N.eqb_spec c sep) as [->|N]; [exfalso; apply H; now left|].
  rewrite IH; [reflexivity|]. intros Hin. apply H. now right.
Qed.

Lemma splitOn_first (sep : N) (a b : jsstring) :
  ~ In sep a ->
  Middleware.splitOn sep (a ++ sep :: b) = a :: Middleware.splitOn sep b.
Proof.
  induction a as [|c a IH]; intros H; simpl.
  - now rewrite N.eqb_refl.
  - destruct (N.eqb_spec c sep) as [->|N]; [exfalso; apply H; now left|].
    rewrite IH; [reflexivity|]. intros Hin. apply H. now right.
Qed.

Lemma padded_length (s : jsstring) :
  (List.length (Middleware.padded s) mod 4 = 0)%nat.
Proof.
  unfold Middleware.padded. rewrite length_app, repeat_length.
  set (n := List.length s).
  pose proof (Nat.mod_upper_bound n 4 ltac:(lia)) as U.
  pose proof (Nat.div_mod_eq n 4) as D.
  set (q := (n / 4)%nat) in *. set (r := (n mod 4)%nat) in *.
  assert (Cases : (r = 0 \/ r = 1 \/ r = 2 \/ r = 3)%nat) by lia.
  rewrite D.
  destruct Cases as [E|[E|[E|E]]]; rewrite E.
  - replace (4 * q + 0 + (4 - 0) mod 4)%nat with (q * 4)%nat
      by (cbn; lia).
    apply Nat.Div0.mod_mul.
  - replace (4 * q + 1 + (4 - 1) mod 4)%nat with ((q + 1) * 4)%nat
      by (cbn; lia).
    apply Nat.Div0.mod_mul.
  - replace (4 * q + 2 + (4 - 2) mod 4)%nat with ((q + 1) * 4)%nat
      by (cbn; lia).
    apply Nat.Div0.mod_mul.
  - replace (4 * q + 3 + (4 - 3) mod 4)%nat with ((q + 1) * 4)%nat
      by (cbn; lia).
    apply Nat.Div0.mod_mul.
Qed.

(** X22. Reading the expiry of a token. A token without a dot, or with an
    empty second segment, is expired. Otherwise the second segment (up to
    the next dot) is what is decoded, with "-" and "_" replaced and "="
    added up to a length that is a multiple of 4: if decoding fails the
    token is expired; if the claims hold no truthy [exp] the token never
    expires; else it is expired iff [exp * 1000] is before now. *)
Theorem isJwtExpired_spec
  (host : Host) (decode : jsstring -> Result JsValue) (now : number)
  (header payload tail : jsstring)
  (headerClean : ~ In 46%N header)
  (payloadClean : ~ In 46%N payload)
  (tailShape : tail = [] \/ exists rest, tail = 46%N :: rest) :
  let encoded := Middleware.padded (Middleware.toBase64 payload) in
  Middleware.isJwtExpired decode now header = true
  /\ (List.length encoded mod 4 = 0)%nat
  /\ Middleware.isJwtExpired decode now (header ++ 46%N :: payload ++ tail)
     = match payload with
       | [] => true
       | _ =>
           match decode encoded with
           | Throw _ => true
           | Ok claims =>
               if ToBoolean (Middleware.expOf claims)
               then JsNumber.lt
                      (PrimFloat.mul (ToNumber (Middleware.expOf claims))
                         (JsNumber.ofZ 1000)) now
               else false
           end
       end.
Proof.
  intros encoded. split; [|split].
  - unfold Middleware.isJwtExpired.
    now rewrite (splitOn_no_separator _ _ headerClean).
  - apply padded_length.
  - unfold Middleware.isJwtExpired.
    rewrite (splitOn_first _ _ _ headerClean).
    assert (S : exists more,
              Middleware.splitOn 46 (payload ++ tail) = payload :: more).
    { destruct tailShape as [->|[rest ->]].
      - rewrite app_nil_r, (splitOn_no_separator _ _ payloadClean). eauto.
      - rewrite (splitOn_first _ _ _ payloadClean). eauto. }
    destruct S as [more ->]. cbn [nth_error].
    destruct payload as [|c p]; [reflexivity|]. cbn [JsString.truthy negb].
    fold encoded. destruct (decode encoded) as [claims|e]; [|reflexivity].
    now destruct (ToBoolean (Middleware.expOf claims)).
Qed.

Lemma isJwtExpired_spec_witness :
  Middleware.isJwtExpired (host := Reference.host) fixedClaims
    (JsNumber.ofZ 1718000000000) sampleToken = true.
Proof.
  assert (H : ~ In 46%N (lit "hdr")).
  { intros [E|[E|[E|[]]]]; discriminate. }
  assert (P : ~ In 46%N (lit "pay-lo_d")).
  { intros [E|[E|[E|[E|[E|[E|[E|[E|[]]]]]]]]]; discriminate. }
  pose proof (isJwtExpired_spec Reference.host fixedClaims
                (JsNumber.ofZ 1718000000000) (lit "hdr") (lit "pay-lo_d")
                (lit ".sig") H P (or_intror (ex_intro _ (lit "sig") eq_refl)))
    as (_ & _ & T).
  exact T.
Defined.

Section GuardFacts.
Context {host : Host}.
Variable decode : jsstring -> Result JsValue.
Variable now : number.

Lemma middleware_login_without_cookie :
  Middleware.middleware decode now (lit "/login") None = Middleware.Next.
Proof. reflexivity. Qed.

End GuardFacts.

(** X23. The guard does not bounce a browser around. Whenever it
    redirects, the request the browser makes next (to the redirect target,
    without the cookie if the guard deleted it) is let through. A request
    that is let through is for an exempt path, or for /login with no token,
    or carries a token that is not expired and is not for /login. And every
    path with a dot that no line break follows is exempt, token or not. *)
Theorem middleware_redirects_once
  (host : Host) (decode : jsstring -> Result JsValue) (now : number)
  (pathname : jsstring) (cookie : option jsstring) :
  (forall target deleted,
      Middleware.middleware decode now pathname cookie
      = Middleware.Redirect target deleted ->
      Middleware.middleware decode now target (cookieAfter cookie deleted)
      = Middleware.Next)
  /\ (Middleware.middleware decode now pathname cookie = Middleware.Next ->
      Middleware.exempt pathname = true
      \/ (pathname = lit "/login" /\ truthyOpt cookie = false)
      \/ (exists token, cookie = Some token /\ token <> []
            /\ Middleware.isJwtExpired decode now token = false
            /\ pathname <> lit "/login"))
  /\ (Middleware.publicFile pathname = true ->
      Middleware.middleware decode now pathname cookie = Middleware.Next).
Proof.
  unfold Middleware.middleware. split; [|split].
  - intros target deleted.
    destruct (Middleware.exempt pathname); [discriminate|].
    destruct cookie as [token|]; cbn [existsb Middleware.PUBLIC_PATHS];
      rewrite ?orb_false_r.
    + destruct token as [|c t]; cbn [JsString.truthy negb].
      * destruct (JsString.eqb pathname (lit "/login")); [discriminate|].
        intros [= <- <-]. reflexivity.
      * destruct (Middleware.isJwtExpired decode now (c :: t)) eqn:X.
        -- intros [= <- <-]. reflexivity.
        -- destruct (JsString.eqb pathname (lit "/login")); [|discriminate].
           intros [= <- <-]. cbn [cookieAfter].
           change (Middleware.exempt (lit "/")) with false.
           cbn [JsString.truthy negb]. now rewrite X.
    + destruct (JsString.eqb pathname (lit "/login")); [discriminate|].
      intros [= <- <-]. reflexivity.
  - intros H.
    destruct (Middleware.exempt pathname); [now left|]. right.
    destruct cookie as [[|c t]|];
      cbn [existsb Middleware.PUBLIC_PATHS JsString.truthy negb truthyOpt]
        in *;
      rewrite ?orb_false_r in H.
    + destruct (JsString.eqb pathname (lit "/login")) eqn:E;
        [|discriminate H].
      apply str_eqb_eq in E. now left.
    + destruct (Middleware.isJwtExpired decode now (c :: t)) eqn:X;
        [discriminate H|].
      destruct (JsString.eqb pathname (lit "/login")) eqn:E;
        [discriminate H|].
      apply str_eqb_neq in E. right.
      exists (c :: t). repeat split; auto. discriminate.
    + destruct (JsString.eqb pathname (lit "/login")) eqn:E;
        [|discriminate H].
      apply str_eqb_eq in E. now left.
  - intros P. unfold Middleware.exempt. rewrite P.
    now rewrite !orb_true_r.
Qed.

(* ===================================================================== *)
(** * Widening a budget                                                   *)
(* ===================================================================== *)

Ltac compare_cases :=
  repeat match goal with
  | H : context [Z.compare ?a ?b] |- _ =>
      destruct (Z.compare_spec a b); try subst
  | |- context [Z.compare ?a ?b] =>
      destruct (Z.compare_spec a b); try subst
  | H : context [Pos.compare ?a ?b] |- _ =>
      destruct (Pos.compare_spec a b); try subst
  | |- context [Pos.compare ?a ?b] =>
      destruct (Pos.compare_spec a b); try subst
  end.

(** The order of the binary floats is transitive, strictly so when one
    of the two steps is strict. *)
Lemma SFcompare_trans x y z c1 c2 :
  SFcompare x y = Some c1 -> SFcompare y z = Some c2 ->
  c1 <> Gt -> c2 <> Gt ->
  exists c3, SFcompare x z = Some c3 /\ c3 <> Gt
    /\ (c1 = Lt \/ c2 = Lt -> c3 = Lt).
Proof.
  destruct x as [sx|sx| |sx mx ex], y as [sy|sy| |sy my ey],
           z as [sz|sz| |sz mz ez]; simpl; intros H1 H2 N1 N2;
    try discriminate;
    try destruct sx; try destruct sy; try destruct sz;
    try discriminate;
    injection H1 as <-; injection H2 as <-;
    try congruence;
    rewrite ?Pos.compare_cont_spec in *; simpl in *;
    try (eexists; split; [reflexivity|]; split; [congruence|];
         intros [?|?]; congruence);
    compare_cases; simpl in *; try congruence; try lia;
    try (eexists; split; [reflexivity|]; split; [congruence|];
         intros [?|?]; congruence).
Qed.

Lemma lt_le_trans (a b c : number) :
  JsNumber.lt a b = true -> JsNumber.le b c = true -> JsNumber.lt a c = true.
Proof.
  unfold JsNumber.lt, JsNumber.le.
  rewrite !FloatAxioms.ltb_spec, FloatAxioms.leb_spec. unfold SFltb, SFleb.
  destruct (SFcompare (Prim2SF a) (Prim2SF b)) as [[| |]|] eqn:C1;
    try discriminate.
  destruct (SFcompare (Prim2SF b) (Prim2SF c)) as [c2|] eqn:C2;
    [|discriminate].
  intros _ H.
  destruct (SFcompare_trans _ _ _ _ _ C1 C2) as (c3 & E & _ & L);
    [discriminate | destruct c2; congruence |].
  rewrite E, L; auto.
Qed.

Lemma le_lt_trans (a b c : number) :
  JsNumber.le a b = true -> JsNumber.lt b c = true -> JsNumber.lt a c = true.
Proof.
  unfold JsNumber.lt, JsNumber.le.
  rewrite !FloatAxioms.ltb_spec, FloatAxioms.leb_spec. unfold SFltb, SFleb.
  destruct (SFcompare (Prim2SF a) (Prim2SF b)) as [c1|] eqn:C1;
    [|discriminate].
  destruct (SFcompare (Prim2SF b) (Prim2SF c)) as [[| |]|] eqn:C2;
    try discriminate.
  intros H _.
  destruct (SFcompare_trans _ _ _ _ _ C1 C2) as (c3 & E & _ & L);
    [destruct c1; congruence | discriminate |].
  rewrite E, L; auto.
Qed.

Lemma filter_Subsequence_impl {A} (f g : A -> bool) (l : list A) :
  (forall x, f x = true -> g x = true) ->
  Subsequence (filter f l) (filter g l).
Proof.
  intros H. induction l as [|x l IH]; simpl; [constructor|].
  destruct (f x) eqn:F.
  - rewrite (H x F). now constructor.
  - destruct (g x); [now constructor | exact IH].
Qed.

Section WideningFacts.
Context {host : Host}.
Variable filters : LeadFilters.
Variables lo hi lo' hi' : option number.
Hypothesis lower : lowerLoosened lo lo'.
Hypothesis upper : upperLoosened hi hi'.

Lemma withinRange_widened (price : option number) :
  withinRange (withBudget filters lo hi) price = true ->
  withinRange (withBudget filters lo' hi') price = true.
Proof.
  unfold withinRange. cbn [minBudget maxBudget withBudget].
  destruct price as [p|]; [|discriminate].
  intros H.
  assert (A : match lo' with
              | Some l => JsNumber.lt p l
              | None => false
              end = false).
  { destruct lo' as [l'|]; [|reflexivity].
    destruct lower as (l & -> & Hl).
    destruct (JsNumber.lt p l') eqn:X; [|reflexivity].
    rewrite (lt_le_trans p l' l X Hl) in H. discriminate. }
  rewrite A.
  assert (B : match hi' with
              | Some h => JsNumber.gt p h
              | None => false
              end = false).
  { destruct hi' as [h'|]; [|reflexivity].
    destruct upper as (h & -> & Hh).
    destruct (JsNumber.gt p h') eqn:X; [|reflexivity].
    change (JsNumber.gt p h') with (JsNumber.lt h' p) in X.
    change (JsNumber.gt p h) with (JsNumber.lt h p) in H.
    destruct (match lo with
              | Some l => JsNumber.lt p l
              | None => false
              end); [discriminate|].
    rewrite (le_lt_trans h h' p Hh X) in H. discriminate. }
  now rewrite B.
Qed.

Lemma leadPasses_widened (lead : Lead) :
  leadPasses (withBudget filters lo hi) lead = true ->
  leadPasses (withBudget filters lo' hi') lead = true.
Proof.
  unfold leadPasses.
  change (propertyTypeRejects (withBudget filters lo' hi'))
    with (propertyTypeRejects (withBudget filters lo hi)).
  change (regionRejects (withBudget filters lo' hi'))
    with (regionRejects (withBudget filters lo hi)).
  change (zoneRejects (withBudget filters lo' hi'))
    with (zoneRejects (withBudget filters lo hi)).
  change (transactionRejects (withBudget filters lo' hi'))
    with (transactionRejects (withBudget filters lo hi)).
  change (roomsRejects (withBudget filters lo' hi'))
    with (roomsRejects (withBudget filters lo hi)).
  change (dateRejects (withBudget filters lo' hi'))
    with (dateRejects (withBudget filters lo hi)).
  destruct (propertyTypeRejects (withBudget filters lo hi) (rawOf lead));
    [discriminate|].
  destruct (regionRejects (withBudget filters lo hi) (rawOf lead));
    [discriminate|].
  destruct (zoneRejects (withBudget filters lo hi) (rawOf lead));
    [discriminate|].
  destruct (transactionRejects (withBudget filters lo hi) (rawOf lead));
    [discriminate|].
  destruct (roomsRejects (withBudget filters lo hi) (rawOf lead));
    [discriminate|].
  destruct (budgetRejects (withBudget filters lo hi) (rawOf lead)) eqn:Bud;
    [discriminate|].
  intros D.
  assert (W : budgetRejects (withBudget filters lo' hi') (rawOf lead)
              = false).
  { unfold budgetRejects in *.
    destruct (hasBudget (withBudget filters lo' hi')) eqn:HB';
      [|reflexivity].
    assert (HB : hasBudget (withBudget filters lo hi) = true).
    { unfold hasBudget in *. cbn [minBudget maxBudget withBudget] in *.
      destruct lo' as [l'|]; [destruct lower as (l & -> & _); reflexivity|].
      destruct hi' as [h'|]; [|discriminate].
      destruct upper as (h & -> & _). now destruct lo. }
    rewrite HB in Bud. rewrite negb_false_iff in *.
    unfold matchesBudget in *.
    change (saleSelected (withBudget filters lo' hi'))
      with (saleSelected (withBudget filters lo hi)).
    change (rentSelected (withBudget filters lo' hi'))
      with (rentSelected (withBudget filters lo hi)).
    destruct (saleSelected (withBudget filters lo hi)),
             (rentSelected (withBudget filters lo hi));
      cbn [andb negb] in *;
      rewrite ?orb_true_iff in *;
      try (destruct Bud as [Bud|Bud]; [left|right]);
      now apply withinRange_widened. }
  now rewrite W.
Qed.

End WideningFacts.

(** X24. Widening the budget only adds leads. If the lower bound is
    lowered or dropped and the upper bound is raised or dropped, the other
    constraints unchanged, then every lead the narrower filter keeps is
    kept by the wider one, in the same order. *)
Theorem widening_budget_adds_leads
  (host : Host) (filters : LeadFilters) (lo hi lo' hi' : option number)
  (leads : list Lead)
  (lower : lowerLoosened lo lo') (upper : upperLoosened hi hi') :
  Subsequence (applyLeadFilters leads (withBudget filters lo hi))
    (applyLeadFilters leads (withBudget filters lo' hi')).
Proof.
  rewrite !applyLeadFilters_filter.
  apply filter_Subsequence_impl.
  intros lead. now apply leadPasses_widened.
Qed.

(** The instance at two leads for sale, at 100000 and at 140000, under
    the scenario filter: the budget 50000 to 120000 keeps the first, and
    widened to 40000 to 150000 it keeps the first and adds the second. *)
Lemma widening_budget_adds_leads_witness :
  applyLeadFilters (host := Reference.host) [scenarioLead; dearLead]
    (withBudget (scenarioFilters 0)
       (Some (JsNumber.ofZ 50000)) (Some (JsNumber.ofZ 120000)))
  = [scenarioLead]
  /\ applyLeadFilters (host := Reference.host) [scenarioLead; dearLead]
       (withBudget (scenarioFilters 0)
          (Some (JsNumber.ofZ 40000)) (Some (JsNumber.ofZ 150000)))
     = [scenarioLead; dearLead]
  /\ Subsequence
       (applyLeadFilters (host := Reference.host) [scenarioLead; dearLead]
          (withBudget (scenarioFilters 0)
             (Some (JsNumber.ofZ 50000)) (Some (JsNumber.ofZ 120000))))
       (applyLeadFilters (host := Reference.host) [scenarioLead; dearLead]
          (withBudget (scenarioFilters 0)
             (Some (JsNumber.ofZ 40000)) (Some (JsNumber.ofZ 150000)))).
Proof.
  split; [reflexivity|]. split; [reflexivity|].
  apply (widening_budget_adds_leads Reference.host (scenarioFilters 0)
           (Some (JsNumber.ofZ 50000)) (Some (JsNumber.ofZ 120000))
           (Some (JsNumber.ofZ 40000)) (Some (JsNumber.ofZ 150000))).
  - exists (JsNumber.ofZ 50000). split; reflexivity.
  - exists (JsNumber.ofZ 120000). split; reflexivity.
Defined.
